(** * Gesture-driven particle tree: a shallow embedding of [script.js]

    The development covers the pieces of [script.js] that carry logic of
    their own: the gesture classifier [handleGestures], the glyph sampler
    [getFuyoPositions], the start-up loop of [letters.forEach] that fills
    the target buffers and colours of the three particle groups, the
    interpolation step of [animate], and the background graph and the
    snowfall with their per-frame updates [updateBackground] and
    [updateSnow].  Scene, camera, renderer, textures,
    the webcam and the hand-landmark model belong to the libraries the
    script calls; what the script receives from them (a detection result,
    the bytes of a rasterised canvas, a [THREE.Color], the values of
    [Math.random()]) is an input here.

    JavaScript numbers are kept behind a small interface, so that the
    same definitions run on IEEE binary64 values (the numbers the script
    computes with) and can be reasoned about over the exact reals (the
    arithmetic the numeric statements are phrased in).  Statements about
    the control flow of the classifier hold for every implementation of
    the interface. *)

From Stdlib Require Import Reals Lra Lia ZArith QArith Qreals List Bool String.
From Stdlib Require Floats Uint63.
From stdpp Require Import base list.

Set Default Proof Using "Type".

(* ===================================================================== *)
(** ** Numbers *)
(* ===================================================================== *)

(** The operators the script applies to number values.  [lit] embeds a
    decimal literal of the source text; [ltb a b] is [a < b], and the
    source's [a > b] is [ltb b a].  [Math_floor] is [None] on NaN and the
    infinities, at which no array has an element. *)
Class JSNumber (num : Type) := {
  lit : Q -> num;
  add : num -> num -> num;
  sub : num -> num -> num;
  mul : num -> num -> num;
  div : num -> num -> num;
  neg : num -> num;
  ltb : num -> num -> bool;
  Math_hypot : num -> num -> num;  (* Math.hypot with two arguments *)
  Math_floor : num -> option Z     (* Math.floor used as an array index *)
}.

Definition gtb {num : Type} `{!JSNumber num} (a b : num) : bool := ltb b a.

(** IEEE binary64.  A literal [p/q] with small [p], [q] is the correctly
    rounded quotient of two exactly represented integers, which is the
    double the literal denotes.  [Math.hypot] is left to the engine by
    the language standard (an approximation of the square root of the
    sum of squares, usually computed after rescaling the arguments);
    [float_hypot], the rounded square root of the rounded sum of
    squares, can differ from it in the last place.  It serves only to
    evaluate sample hands, whose distances all lie well away from the
    thresholds they are compared with; every general statement about
    the classifier holds for any [Math_hypot]. *)
Definition float_of_Z (z : Z) : PrimFloat.float :=
  match z with
  | Z0 => PrimFloat.zero
  | Zpos _ => PrimFloat.of_uint63 (Uint63.of_Z z)
  | Zneg p => PrimFloat.opp (PrimFloat.of_uint63 (Uint63.of_Z (Zpos p)))
  end.

Definition float_lit (q : Q) : PrimFloat.float :=
  PrimFloat.div (float_of_Z (Qnum q)) (float_of_Z (Zpos (Qden q))).

Definition float_hypot (a b : PrimFloat.float) : PrimFloat.float :=
  PrimFloat.sqrt (PrimFloat.add (PrimFloat.mul a a) (PrimFloat.mul b b)).

Definition float_floor (a : PrimFloat.float) : option Z :=
  match FloatOps.Prim2SF a with
  | SpecFloat.S754_zero _ => Some 0%Z
  | SpecFloat.S754_finite s m e =>
      Some (Z.shiftl (if s then Zneg m else Zpos m) e)
  | _ => None
  end.

#[export] Instance float_number : JSNumber PrimFloat.float := {
  lit := float_lit;
  add := PrimFloat.add;
  sub := PrimFloat.sub;
  mul := PrimFloat.mul;
  div := PrimFloat.div;
  neg := PrimFloat.opp;
  ltb := PrimFloat.ltb;
  Math_hypot := float_hypot;
  Math_floor := float_floor
}.

(** The script's own numbers. *)
Definition double := PrimFloat.float.

(** Exact real arithmetic. *)
Definition Rltb (a b : R) : bool := if Rlt_dec a b then true else false.

Definition Rhypot (a b : R) : R := R_sqrt.sqrt (a * a + b * b)%R.

#[export] Instance real_number : JSNumber R := {
  lit := Q2R;
  add := Rplus;
  sub := Rminus;
  mul := Rmult;
  div := Rdiv;
  neg := Ropp;
  ltb := Rltb;
  Math_hypot := Rhypot;
  Math_floor := fun a => Some (Zfloor a)
}.

(* ===================================================================== *)
(** ** Interaction logic: [handleGestures] *)
(* ===================================================================== *)

(** [mode] is the script's global string; its four values. *)
Inductive Mode := TREE | EXPLODE | SPHERE | FUYO.

#[export] Instance Mode_eq_dec : EqDecision Mode.
Proof. solve_decision. Defined.

Section Gestures.
Context {num : Type} `{!JSNumber num}.

(** One hand joint as the detector reports it. *)
Record Landmark := { lm_x : num; lm_y : num; lm_z : num }.

(** [result.landmarks]: absent, or one landmark array per detected
    hand (the detector is configured with [numHands: 2]). *)
Record DetectionResult := { landmarks : option (list (list Landmark)) }.

(** What [handleGestures] writes: the global [mode], the status line
    ([statusDiv.innerText], [statusDiv.style.color]) and
    [controls.autoRotateSpeed]. *)
Record Globals := {
  mode : Mode;
  statusText : string;
  statusColor : string;
  autoRotateSpeed : num
}.

Definition tips : list nat := [8; 12; 16; 20]%nat.
Definition bases : list nat := [5; 9; 13; 17]%nat.

(** [Math.hypot(a.x - b.x, a.y - b.y)] *)
Definition planarDist (a b : Landmark) : num :=
  Math_hypot (sub (lm_x a) (lm_x b)) (sub (lm_y a) (lm_y b)).

(** Body of the loop over [tips].  Reading a property of a missing
    array element throws; [None] stands for that [TypeError]. *)
Definition fingerStep (hand : list Landmark) (openFingers i : nat)
  : option nat :=
  ti ← tips !! i;
  bi ← bases !! i;
  tip ← hand !! ti;
  wrist ← hand !! 0%nat;
  base ← hand !! bi;
  let tipDist := planarDist tip wrist in
  let baseDist := planarDist base wrist in
  Some (if gtb tipDist (mul baseDist (lit 1.2)) then S openFingers
        else openFingers).

Fixpoint fingerLoop (hand : list Landmark) (openFingers : nat)
         (indices : list nat) : option nat :=
  match indices with
  | [] => Some openFingers
  | i :: rest =>
      n ← fingerStep hand openFingers i;
      fingerLoop hand n rest
  end.

(** [openFingers] after the loop [for (i = 0; i < tips.length; i++)]. *)
Definition countOpenFingers (hand : list Landmark) : option nat :=
  fingerLoop hand 0%nat (seq 0 (length tips)).

(** The three assignments of each branch. *)
Definition setStatus (m : Mode) (text color : string) (g : Globals)
  : Globals :=
  {| mode := m; statusText := text; statusColor := color;
     autoRotateSpeed := autoRotateSpeed g |}.

Definition setRotation (speed : num) (g : Globals) : Globals :=
  {| mode := mode g; statusText := statusText g;
     statusColor := statusColor g; autoRotateSpeed := speed |}.

(** The [else] branch of [openFingers >= 3]. *)
Definition pinchOrVictory (hand : list Landmark) (openFingers : nat)
           (g : Globals) : option Globals :=
  wrist ← hand !! 0%nat;
  thumbTip ← hand !! 4%nat;
  indexTip ← hand !! 8%nat;
  let thumbIndexDist := planarDist thumbTip indexTip in
  indexBase ← hand !! 5%nat;
  middleTip ← hand !! 12%nat;
  middleBase ← hand !! 9%nat;
  let isIndexOpen :=
    gtb (planarDist indexTip wrist)
        (mul (planarDist indexBase wrist) (lit 1.1)) in
  let isMiddleOpen :=
    gtb (planarDist middleTip wrist)
        (mul (planarDist middleBase wrist) (lit 1.1)) in
  if ltb thumbIndexDist (lit 0.05) then
    Some (setStatus SPHERE "Status: OK Sign (👌) -> Sphere Mode!"
                    "#00ffff" g)
  else if Nat.eqb openFingers 2 && isIndexOpen && isMiddleOpen then
    Some (setStatus FUYO "Status: Victory (✌️) -> FUYO Mode!"
                    "#ffff00" g)
  else
    Some (setStatus TREE "Status: Hand CLOSED -> Assemble Tree"
                    "#00ff00" g).

Definition handleGestures (result : DetectionResult) (g : Globals)
  : option Globals :=
  match landmarks result with
  | Some (hand :: _) =>
      openFingers ← countOpenFingers hand;
      g1 ← (if (3 <=? openFingers)%nat then
              Some (setStatus EXPLODE "Status: Hand OPEN -> Explode!"
                              "#ff0000" g)
            else pinchOrVictory hand openFingers g);
      joint9 ← hand !! 9%nat;
      let handX := lm_x joint9 in
      let rotationSpeed := mul (sub handX (lit 0.5)) (lit 5) in
      Some (setRotation rotationSpeed g1)
  | _ =>
      (* No hand detected *)
      Some (setRotation (lit 1.0)
              (setStatus TREE "Status: No hand detected (Auto Tree)"
                         "#fff" g))
  end.

End Gestures.


Arguments Landmark num : clear implicits.
Arguments DetectionResult num : clear implicits.
Arguments Globals num : clear implicits.

(* ===================================================================== *)
(** ** The [Math] object and start-up constants *)
(* ===================================================================== *)

(** [Math.sin], [Math.cos], [Math.acos] and [Math.PI]: the exact reals
    have them, binary64 arithmetic on its own does not. *)
Class JSMath (num : Type) := {
  Math_sin : num -> num;
  Math_cos : num -> num;
  Math_acos : num -> num;
  Math_PI : num
}.

#[export] Instance real_math : JSMath R := {
  Math_sin := sin;
  Math_cos := cos;
  Math_acos := acos;
  Math_PI := PI
}.

Definition PARTICLE_COUNT : nat := 3000.
Definition TREE_HEIGHT : Q := 40.
Definition TREE_RADIUS : Q := 15.
Definition EXPLOSION_RADIUS : Q := 80.

(** An integer value of the script as a number. *)
Definition ofNat {num : Type} `{!JSNumber num} (n : nat) : num :=
  lit (inject_Z (Z.of_nat n)).

(** A fresh [Float32Array(n)]. *)
Definition Float32Array {num : Type} `{!JSNumber num} (n : nat) : list num :=
  replicate n (lit 0).

(** [a[i]] for an index the script keeps inside the array (lemmas
    [fuyo_read_in_range] and [frame_read_in_range]). *)
Definition get {num : Type} `{!JSNumber num} (a : list num) (i : nat) : num :=
  default (lit 0) (a !! i).

(* ===================================================================== *)
(** ** Glyph sampler: [getFuyoPositions] *)
(* ===================================================================== *)

Section Fuyo.
Context {num : Type} `{!JSNumber num}.

(** [random k] is the value of the [k]-th call of [Math.random()]. *)
Variable random : nat -> num.

Definition width : nat := 200.
Definition height : nat := 100.

(** [imageData.data[index] > 128]; a read past the end of the byte
    array is [undefined], which compares false. *)
Definition bright (data : list Z) (x y : nat) : bool :=
  match data !! ((y * width + x) * 4)%nat with
  | Some v => (128 <? v)%Z
  | None => false
  end.

(** The two nested scanning loops, pushing in row-major order. *)
Definition scanRow (data : list Z) (y : nat) (validPixels : list (nat * nat))
  : list (nat * nat) :=
  foldl (fun acc x => if bright data x y then acc ++ [(x, y)] else acc)
        validPixels (seq 0 width).

Definition scan (data : list Z) : list (nat * nat) :=
  foldl (fun acc y => scanRow data y acc) [] (seq 0 height).

(** [validPixels[j]] for a computed index [j]. *)
Definition pick (validPixels : list (nat * nat)) (j : option Z)
  : option (nat * nat) :=
  match j with
  | Some (Zneg _) | None => None
  | Some j => validPixels !! Z.to_nat j
  end.

(** The sampling loop, [remaining] iterations from index [i] on, with
    [k] calls of [Math.random()] made so far.  [None] is the
    [TypeError] of reading [pixel.x] on [undefined]. *)
Fixpoint sampleLoop (validPixels : list (nat * nat)) (remaining i : nat)
         (positions : list num) (k : nat) : option (list num * nat) :=
  match remaining with
  | O => Some (positions, k)
  | S remaining' =>
      if (length validPixels =? 0)%nat then Some (positions, k) (* break *)
      else
        pixel ← pick validPixels
                  (Math_floor (mul (random k) (ofNat (length validPixels))));
        let scale := lit 0.4 in
        let px :=
          mul (sub (ofNat (fst pixel)) (div (ofNat width) (lit 2))) scale in
        let py :=
          add (mul (neg (sub (ofNat (snd pixel)) (div (ofNat height) (lit 2))))
                   scale)
              (lit 20) in
        let pz := mul (sub (random (S k)) (lit 0.5)) (lit 2) in
        let positions := <[(i * 3)%nat := px]> positions in
        let positions := <[(i * 3 + 1)%nat := py]> positions in
        let positions := <[(i * 3 + 2)%nat := pz]> positions in
        sampleLoop validPixels remaining' (S i) positions (S (S k))
  end.

(** [data] is [imageData.data] of the rasterised 200x100 canvas, which
    the browser produces; the result pairs the buffer with the number
    of random draws consumed. *)
Definition getFuyoPositions (data : list Z) (count : nat) (k : nat)
  : option (list num * nat) :=
  let validPixels := scan data in
  let positions := Float32Array (count * 3) in
  sampleLoop validPixels count 0 positions k.

End Fuyo.

(* ===================================================================== *)
(** ** Particle system: the loop of [letters.forEach] *)
(* ===================================================================== *)

(** The colour variable [c] refers to one of three palette objects:
    [color1] (green, 0x00ff00), [color2] (gold, 0xffd700) and [color3]
    (red, 0xff0000). *)
Inductive PaletteColor := color1 | color2 | color3.

#[export] Instance PaletteColor_eq_dec : EqDecision PaletteColor.
Proof. solve_decision. Defined.

Section Particles.
Context {num : Type} `{!JSNumber num}.

(** The per-group buffers of [pData], and the [colors] array handed to
    the geometry. *)
Record PData := {
  positions : list num;
  targetPositions : list num;
  randomPositions : list num;
  spherePositions : list num;
  fuyoPositions : list num;
  colors : list num
}.

(** A [THREE.Color]: its three channels. *)
Record Color := { chan_r : num; chan_g : num; chan_b : num }.

(** Writing the point [(a, b, c)] of particle [i] into a buffer. *)
Definition put3 (buf : list num) (i : nat) (a b c : num) : list num :=
  <[(i * 3 + 2)%nat := c]> (<[(i * 3 + 1)%nat := b]> (<[(i * 3)%nat := a]> buf)).

(** Step 5 of the loop body: two draws, [u1] then [u2]. *)
Definition pickColor (u1 u2 : num) : PaletteColor :=
  let c := color1 in
  let c := if gtb u1 (lit 0.70) then color2 else c in
  let c := if gtb u2 (lit 0.90) then color3 else c in
  c.

Context `{!JSMath num}.

Variable random : nat -> num.

(** [new THREE.Color(hex)], from the graphics library. *)
Variable THREE_Color : Z -> Color.

Definition paletteColor (c : PaletteColor) : Color :=
  match c with
  | color1 => THREE_Color 0x00ff00
  | color2 => THREE_Color 0xffd700
  | color3 => THREE_Color 0xff0000
  end.

(** Step 1: the tree spiral, from the interleave index and one draw. *)
Definition treePoint (totalIndex : nat) (u : num) : num * num * num :=
  let t := div (ofNat totalIndex) (ofNat PARTICLE_COUNT) in
  let angle := mul (mul t Math_PI) (lit 40) in
  let radius := mul (sub (lit 1) t) (lit TREE_RADIUS) in
  let r := add radius (mul (sub u (lit 0.5)) (lit 2)) in
  let x := mul (Math_cos angle) r in
  let y := sub (mul t (lit TREE_HEIGHT)) (div (lit TREE_HEIGHT) (lit 2)) in
  let z := mul (Math_sin angle) r in
  (x, y, z).

(** Step 2: the exploded position, from three draws. *)
Definition explodePoint (u1 u2 u3 : num) : num * num * num :=
  let theta := mul (mul u1 Math_PI) (lit 2) in
  let phi := Math_acos (sub (mul u2 (lit 2)) (lit 1)) in
  let rad := mul u3 (lit EXPLOSION_RADIUS) in
  (mul (mul rad (Math_sin phi)) (Math_cos theta),
   mul (mul rad (Math_sin phi)) (Math_sin theta),
   mul rad (Math_cos phi)).

(** Step 3: the sphere position, from two draws. *)
Definition spherePoint (u1 u2 : num) : num * num * num :=
  let sR := lit 25 in
  let sTheta := mul (mul u1 Math_PI) (lit 2) in
  let sPhi := Math_acos (sub (mul u2 (lit 2)) (lit 1)) in
  (mul (mul sR (Math_sin sPhi)) (Math_cos sTheta),
   mul (mul sR (Math_sin sPhi)) (Math_sin sTheta),
   mul sR (Math_cos sPhi)).

(** One iteration of [for (let i = 0; i < count; i++)] for the letter
    at position [index]; [k] counts the calls of [Math.random()] made
    so far.  Each iteration makes eight calls. *)
Definition particleStep (index : nat) (fuyoAllPositions : list num)
           (st : PData * nat) (i : nat) : PData * nat :=
  let '(pData, k) := st in
  let totalIndex := (i * 3 + index)%nat in
  let '(x, y, z) := treePoint totalIndex (random k) in
  let '(ex, ey, ez) :=
    explodePoint (random (k + 1)) (random (k + 2)) (random (k + 3)) in
  let '(sx, sy, sz) := spherePoint (random (k + 4)) (random (k + 5)) in
  let c := paletteColor (pickColor (random (k + 6)) (random (k + 7))) in
  ({| targetPositions := put3 (targetPositions pData) i x y z;
      positions := put3 (positions pData) i x y z;
      randomPositions := put3 (randomPositions pData) i ex ey ez;
      spherePositions := put3 (spherePositions pData) i sx sy sz;
      fuyoPositions :=
        put3 (fuyoPositions pData) i
             (get fuyoAllPositions (totalIndex * 3))
             (get fuyoAllPositions (totalIndex * 3 + 1))
             (get fuyoAllPositions (totalIndex * 3 + 2));
      colors := put3 (colors pData) i (chan_r c) (chan_g c) (chan_b c) |},
   (k + 8)%nat).

Definition newPData (count : nat) : PData :=
  {| positions := Float32Array (count * 3);
     targetPositions := Float32Array (count * 3);
     randomPositions := Float32Array (count * 3);
     spherePositions := Float32Array (count * 3);
     fuyoPositions := Float32Array (count * 3);
     colors := Float32Array (count * 3) |}.

(** The loop over [i] for one letter, on buffers of [count] particles. *)
Definition fillGroup (count index : nat) (fuyoAllPositions : list num)
           (k : nat) : PData * nat :=
  foldl (particleStep index fuyoAllPositions) (newPData count, k)
        (seq 0 count).

(** The callback of [letters.forEach]: [count] is
    [Math.floor(PARTICLE_COUNT / 3)]. *)
Definition initGroup (index : nat) (fuyoAllPositions : list num) (k : nat)
  : PData * nat :=
  fillGroup (PARTICLE_COUNT / 3) index fuyoAllPositions k.

(** [letters.forEach] over ['A'], ['I'], ['C']: the three groups of
    [allParticleData], in order. *)
Definition initParticles (fuyoAllPositions : list num) (k : nat)
  : list PData * nat :=
  foldl (fun '(groups, k) index =>
           let '(pData, k') := initGroup index fuyoAllPositions k in
           (groups ++ [pData], k'))
        ([], k) [0; 1; 2]%nat.

(** The start-up sequence: the glyph positions of all particles are
    sampled first, then the three groups are filled. *)
Definition startUp (data : list Z) (k : nat) : option (list PData * nat) :=
  let totalParticles := PARTICLE_COUNT in
  '(fuyoAllPositions, k1) ← getFuyoPositions random data totalParticles k;
  Some (initParticles fuyoAllPositions k1).

End Particles.

Arguments PData num : clear implicits.
Arguments Color num : clear implicits.

(* ===================================================================== *)
(** ** Animation loop: the interpolation of [animate] *)
(* ===================================================================== *)

Section Animate.
Context {num : Type} `{!JSNumber num}.

Definition lerpSpeed : num := lit 0.05.

(** The buffer the branch on [mode] reads [tx], [ty], [tz] from. *)
Definition targetOf (m : Mode) (data : PData num) : list num :=
  match m with
  | TREE => targetPositions data
  | SPHERE => spherePositions data
  | FUYO => fuyoPositions data
  | EXPLODE => randomPositions data
  end.

(** [current += (target - current) * lerpSpeed] *)
Definition lerp (current target : num) : num :=
  add current (mul (sub target current) lerpSpeed).

(** One iteration of the loop over [i]: the three axes of particle [i]. *)
Definition moveParticle (target : list num) (currentPositions : list num)
           (i : nat) : list num :=
  let ix := (i * 3)%nat in
  let iy := (i * 3 + 1)%nat in
  let iz := (i * 3 + 2)%nat in
  let tx := get target ix in
  let ty := get target iy in
  let tz := get target iz in
  let cur := <[ix := lerp (get currentPositions ix) tx]> currentPositions in
  let cur := <[iy := lerp (get cur iy) ty]> cur in
  <[iz := lerp (get cur iz) tz]> cur.

(** The body of [allParticleData.forEach] for one group.  [count] is
    the quotient [length / 3], not rounded: the loop [i < count] makes
    [length / 3] rounded up iterations, and a write past the end of a
    typed array is dropped.  The buffers of the script hold three
    numbers per particle. *)
Definition animateGroup (m : Mode) (data : PData num) : PData num :=
  let currentPositions := positions data in
  let iterations := ((length currentPositions + 2) / 3)%nat in
  {| positions :=
       foldl (moveParticle (targetOf m data)) currentPositions
             (seq 0 iterations);
     targetPositions := targetPositions data;
     randomPositions := randomPositions data;
     spherePositions := spherePositions data;
     fuyoPositions := fuyoPositions data;
     colors := colors data |}.

(** One frame: every group moves toward the buffer [mode] selects. *)
Definition animate (m : Mode) (allParticleData : list (PData num))
  : list (PData num) :=
  animateGroup m <$> allParticleData.

End Animate.


(* ===================================================================== *)
(** ** Quantities the statements speak of *)
(* ===================================================================== *)

Section Observers.
Context {num : Type} `{!JSNumber num}.

(** The ratio test of one finger: [dist(tip, wrist) > dist(base, wrist) * ratio]. *)
Definition isOpenAt (ratio : Q) (wrist tip base : Landmark num) : bool :=
  gtb (planarDist tip wrist) (mul (planarDist base wrist) (lit ratio)).

(** [result.landmarks] read as a list of hands: none when absent. *)
Definition hands (result : DetectionResult num) : list (list (Landmark num)) :=
  default [] (landmarks result).

(** The three entries of particle [i], by axis. *)
Definition axisOf (a b c : num) (axis : nat) : num :=
  match axis with
  | O => a
  | S O => b
  | _ => c
  end.

(** Coordinate [axis] of a point. *)
Definition coord (p : num * num * num) (axis : nat) : num :=
  axisOf p.1.1 p.1.2 p.2 axis.

(** All six buffers of a group have length [n]. *)
Definition sized (n : nat) (d : PData num) : Prop :=
  length (positions d) = n /\ length (targetPositions d) = n /\
  length (randomPositions d) = n /\ length (spherePositions d) = n /\
  length (fuyoPositions d) = n /\ length (colors d) = n.

(** The centre of the [i]-th of [n] equal cells of [0, 1). *)
Definition midpoint (n i : nat) : num :=
  div (add (mul (lit 2) (ofNat i)) (lit 1)) (mul (lit 2) (ofNat n)).

Fixpoint sumBelow (n : nat) (f : nat -> nat) : nat :=
  match n with
  | O => 0%nat
  | S n' => (sumBelow n' f + f n')%nat
  end.

Definition selects (c : PaletteColor) (u1 u2 : num) : nat :=
  if decide (pickColor u1 u2 = c) then 1%nat else 0%nat.

(** Of the [n * n] equally likely pairs of cell centres, the number of
    pairs of draws for which step 5 ends with colour [c]. *)
Definition pairsSelecting (c : PaletteColor) (n : nat) : nat :=
  sumBelow n (fun i =>
    sumBelow n (fun j => selects c (midpoint n i) (midpoint n j))).

End Observers.

Section ParticleDraws.
Context {num : Type} `{!JSNumber num} `{!JSMath num}.
Variable random : nat -> num.

(** The draws of particle [i] of a group whose loop started after [k]
    calls of [Math.random()]. *)
Definition explodeOf (k i : nat) : num * num * num :=
  explodePoint (random (k + 8 * i + 1)) (random (k + 8 * i + 2))
               (random (k + 8 * i + 3)).

Definition sphereOf (k i : nat) : num * num * num :=
  spherePoint (random (k + 8 * i + 4)) (random (k + 8 * i + 5)).

Definition colorOf (k i : nat) : PaletteColor :=
  pickColor (random (k + 8 * i + 6)) (random (k + 8 * i + 7)).

End ParticleDraws.

Section ExactObservers.
Local Open Scope R_scope.

(** Distance of one coordinate of the current position from the same
    coordinate of the target that [m] selects. *)
Definition axisOffset (m : Mode) (data : PData R) (idx : nat) : R :=
  Rabs (get (positions data) idx - get (targetOf m data) idx).

(** [k] frames drawn with the mode held at [m]. *)
Definition frames (m : Mode) (k : nat) (allParticleData : list (PData R))
  : list (PData R) :=
  Nat.iter k (animate m) allParticleData.

(** The point of particle [i] in a buffer. *)
Definition pointAt (buf : list R) (i : nat) : option (R * R * R) :=
  x ← buf !! (i * 3)%nat;
  y ← buf !! (i * 3 + 1)%nat;
  z ← buf !! (i * 3 + 2)%nat;
  Some (x, y, z).

Definition distanceFromOrigin (p : R * R * R) : R :=
  sqrt (p.1.1 * p.1.1 + p.1.2 * p.1.2 + p.2 * p.2).

End ExactObservers.

(* ===================================================================== *)
(** ** Sample inputs *)
(* ===================================================================== *)

Section Samples.
Context {num : Type} `{!JSNumber num}.

Definition pt (a b : Q) : Landmark num :=
  {| lm_x := lit a; lm_y := lit b; lm_z := lit 0 |}.

(** Mode and rotation speed as the script initialises them, with an
    empty status line. *)
Definition initialGlobals : Globals num :=
  {| mode := TREE; statusText := ""; statusColor := "";
     autoRotateSpeed := lit 1.0 |}.

(** A raised palm: wrist at the bottom of the frame, the four fingers
    stretched upward. *)
Definition openHand : list (Landmark num) :=
  [ pt 0.5 0.9;
    pt 0.4 0.8; pt 0.35 0.7; pt 0.32 0.65; pt 0.3 0.6;
    pt 0.42 0.6; pt 0.41 0.5; pt 0.4 0.4; pt 0.38 0.3;
    pt 0.5 0.58; pt 0.5 0.45; pt 0.5 0.35; pt 0.5 0.25;
    pt 0.57 0.6; pt 0.58 0.5; pt 0.59 0.4; pt 0.6 0.3;
    pt 0.63 0.65; pt 0.65 0.55; pt 0.68 0.45; pt 0.7 0.4 ].

(** The same palm with thumb tip and index tip brought together. *)
Definition openPinchedHand : list (Landmark num) :=
  <[4%nat := pt 0.39 0.31]> openHand.

(** Thumb tip at (0.50, 0.50), index tip at (0.52, 0.51); index and
    middle stretched, ring and pinky curled. *)
Definition pinchHand : list (Landmark num) :=
  [ pt 0.5 0.9;
    pt 0.45 0.8; pt 0.45 0.7; pt 0.48 0.6; pt 0.50 0.50;
    pt 0.42 0.6; pt 0.45 0.55; pt 0.5 0.52; pt 0.52 0.51;
    pt 0.5 0.58; pt 0.5 0.45; pt 0.5 0.35; pt 0.5 0.25;
    pt 0.57 0.6; pt 0.58 0.55; pt 0.57 0.65; pt 0.56 0.7;
    pt 0.63 0.65; pt 0.64 0.6; pt 0.63 0.7; pt 0.61 0.75 ].

(** Index and middle stretched, ring and pinky curled, thumb away from
    the index tip. *)
Definition victoryHand : list (Landmark num) :=
  [ pt 0.5 0.9;
    pt 0.4 0.8; pt 0.35 0.7; pt 0.32 0.65; pt 0.3 0.6;
    pt 0.42 0.6; pt 0.41 0.5; pt 0.4 0.4; pt 0.38 0.3;
    pt 0.5 0.58; pt 0.5 0.45; pt 0.5 0.35; pt 0.5 0.25;
    pt 0.57 0.6; pt 0.58 0.55; pt 0.57 0.65; pt 0.56 0.7;
    pt 0.63 0.65; pt 0.64 0.6; pt 0.63 0.7; pt 0.61 0.75 ].

(** A fist: every fingertip curled back toward the wrist. *)
Definition fistHand : list (Landmark num) :=
  [ pt 0.5 0.9;
    pt 0.4 0.8; pt 0.35 0.7; pt 0.32 0.65; pt 0.3 0.6;
    pt 0.42 0.6; pt 0.41 0.55; pt 0.43 0.65; pt 0.44 0.7;
    pt 0.7 0.58; pt 0.5 0.55; pt 0.5 0.65; pt 0.5 0.7;
    pt 0.57 0.6; pt 0.58 0.55; pt 0.57 0.65; pt 0.56 0.7;
    pt 0.63 0.65; pt 0.64 0.6; pt 0.63 0.7; pt 0.61 0.75 ].

Definition detected (hands : list (list (Landmark num))) : DetectionResult num :=
  {| landmarks := Some hands |}.

(** A group of two particles: the first has reached its tree target on
    two axes, the second is on its way. *)
Definition sampleGroup : PData num :=
  {| positions := [lit 10; lit 20; lit 3; lit 0; lit 0; lit 0];
     targetPositions := [lit 10; lit 20; lit 30; lit 1; lit 2; lit 3];
     randomPositions := [lit 50; lit (-40); lit 30; lit 0; lit 0; lit 80];
     spherePositions := [lit 25; lit 0; lit 0; lit 0; lit 25; lit 0];
     fuyoPositions := Float32Array 6;
     colors := [lit 0; lit 1; lit 0; lit 1; lit 0; lit 0] |}.

(** A random source that always returns one half. *)
Definition halves : nat -> num := fun _ => lit 0.5.

(** Colour channels read off the hexadecimal triplet, each byte over 255. *)
Definition hexColor (hex : Z) : Color num :=
  {| chan_r := div (lit (inject_Z ((hex / 65536) mod 256))) (lit 255);
     chan_g := div (lit (inject_Z ((hex / 256) mod 256))) (lit 255);
     chan_b := div (lit (inject_Z (hex mod 256))) (lit 255) |}.

End Samples.

(* ===================================================================== *)
(** ** Further quantities of the classifier *)
(* ===================================================================== *)

Section ClassifierObservers.
Context {num : Type} `{!JSNumber num}.

(** The joints [handleGestures] reads: wrist, thumb tip, and base and
    tip of index, middle, ring and pinky. *)
Definition usedJoints : list nat := [0; 4; 5; 8; 9; 12; 13; 16; 17; 20]%nat.

(** Mode, text and colour of the status line of the five branches. *)
Definition statusLines : list (Mode * string * string) :=
  [ (EXPLODE, "Status: Hand OPEN -> Explode!"%string, "#ff0000"%string);
    (SPHERE, "Status: OK Sign (👌) -> Sphere Mode!"%string, "#00ffff"%string);
    (FUYO, "Status: Victory (✌️) -> FUYO Mode!"%string, "#ffff00"%string);
    (TREE, "Status: Hand CLOSED -> Assemble Tree"%string, "#00ff00"%string);
    (TREE, "Status: No hand detected (Auto Tree)"%string, "#fff"%string) ].

Definition statusOf (g : Globals num) : Mode * string * string :=
  (mode g, statusText g, statusColor g).

(** A landmark with its depth replaced. *)
Definition withDepth (z : num) (l : Landmark num) : Landmark num :=
  {| lm_x := lm_x l; lm_y := lm_y l; lm_z := z |}.

End ClassifierObservers.

(** A landmark moved by [(dx, dy)] in the image plane. *)
Definition shifted (dx dy : R) (l : Landmark R) : Landmark R :=
  {| lm_x := (lm_x l + dx)%R; lm_y := (lm_y l + dy)%R; lm_z := lm_z l |}.

(* ===================================================================== *)
(** ** Further quantities of the glyph sampler *)
(* ===================================================================== *)

(** The pixels of the frame that the scan keeps, row by row. *)
Definition brightPixels (data : list Z) : list (nat * nat) :=
  flat_map (fun y => map (fun x => (x, y))
                         (List.filter (fun x => bright data x y) (seq 0 width)))
           (seq 0 height).

(** Where a pixel of the 200x100 frame lands in the scene: 0.4 units per
    pixel, centred horizontally, flipped and lifted by 20 vertically. *)
Definition pixelToWorld (pixel : nat * nat) : R * R :=
  ((INR pixel.1 - 100) * 0.4, - (INR pixel.2 - 50) * 0.4 + 20)%R.

(* ===================================================================== *)
(** ** Background graph: the node loop and [updateBackground] *)
(* ===================================================================== *)

(** The node and flake buffers are [Float32Array]s, like the particle
    buffers.  A buffer holds the number that was computed: the rounding
    to single precision on a store is not part of the number interface,
    and what is stated of stored values is stated in exact arithmetic. *)

(** [Math.abs] *)
Class JSAbs (num : Type) := { Math_abs : num -> num }.

#[export] Instance float_abs : JSAbs double := { Math_abs := PrimFloat.abs }.

#[export] Instance real_abs : JSAbs R := { Math_abs := Rabs }.

Section Drift.
Context {num : Type} `{!JSNumber num}.

(** The object [{x, y, z}] pushed on [bgNodesVelocities] (and, with its
    fields in another order, on [snowVelocities]). *)
Record Velocity := { vel_x : num; vel_y : num; vel_z : num }.

Definition velAxis (v : Velocity) (axis : nat) : num :=
  axisOf (vel_x v) (vel_y v) (vel_z v) axis.

(** [k] such frames of a function that may throw. *)
Fixpoint repeatFrames {S : Type} (frame : S -> option S) (k : nat) (s : S)
  : option S :=
  match k with
  | O => Some s
  | Datatypes.S k' => s' ← repeatFrames frame k' s; frame s'
  end.

End Drift.

Arguments Velocity num : clear implicits.

Section Background.
Context {num : Type} `{!JSNumber num} `{!JSMath num} `{!JSAbs num}.
Variable random : nat -> num.

Definition bgNodeCount : nat := 100.

(** The buffers of the background group: node positions, the velocity
    objects, the line buffer, the count last passed to [setDrawRange]
    (none before the first frame) and [bgGroup.rotation.y]. *)
Record Background := {
  bgNodesPositions : list num;
  bgNodesVelocities : list (Velocity num);
  bgLinesPositions : list num;
  drawCount : option num;
  bgRotationY : num
}.

(** The position of a node, from three draws: far background. *)
Definition shellPoint (u1 u2 u3 : num) : num * num * num :=
  let r := add (lit 80) (mul u1 (lit 60)) in
  let theta := mul (mul u2 Math_PI) (lit 2) in
  let phi := Math_acos (sub (mul u3 (lit 2)) (lit 1)) in
  (mul (mul r (Math_sin phi)) (Math_cos theta),
   mul (mul r (Math_sin phi)) (Math_sin theta),
   mul r (Math_cos phi)).

(** Its random slow velocity, from three more. *)
Definition slowVelocity (u1 u2 u3 : num) : Velocity num :=
  {| vel_x := mul (sub u1 (lit 0.5)) (lit 0.05);
     vel_y := mul (sub u2 (lit 0.5)) (lit 0.05);
     vel_z := mul (sub u3 (lit 0.5)) (lit 0.05) |}.

(** One iteration of the loop that places the nodes: six draws. *)
Definition bgNodeStep (st : list num * list (Velocity num) * nat) (i : nat)
  : list num * list (Velocity num) * nat :=
  let '(nodesPositions, nodesVelocities, k) := st in
  let '(x, y, z) :=
    shellPoint (random k) (random (k + 1)) (random (k + 2)) in
  (put3 nodesPositions i x y z,
   nodesVelocities ++
     [slowVelocity (random (k + 3)) (random (k + 4)) (random (k + 5))],
   (k + 6)%nat).

(** The background as the script leaves it before the first frame. *)
Definition initBackground (k : nat) : Background * nat :=
  let '(nodesPositions, nodesVelocities, k') :=
    foldl bgNodeStep (Float32Array (bgNodeCount * 3), [], k)
          (seq 0 bgNodeCount) in
  ({| bgNodesPositions := nodesPositions;
      bgNodesVelocities := nodesVelocities;
      bgLinesPositions := Float32Array (bgNodeCount * bgNodeCount * 3);
      drawCount := None;
      bgRotationY := lit 0 |}, k').

(** [v *= -1] when [Math.abs(p) > 150]. *)
Definition bounce (p v : num) : num :=
  if gtb (Math_abs p) (lit 150) then mul v (lit (-1)) else v.

(** One iteration of the first loop of [updateBackground]: node [i]
    moves by its velocity, then each axis beyond 150 turns around.
    [None] is the [TypeError] of reading [x] on a missing velocity. *)
Definition moveNode (st : list num * list (Velocity num)) (i : nat)
  : option (list num * list (Velocity num)) :=
  let '(positions, velocities) := st in
  v ← velocities !! i;
  let positions :=
    <[(i * 3)%nat := add (get positions (i * 3)) (vel_x v)]> positions in
  let positions :=
    <[(i * 3 + 1)%nat := add (get positions (i * 3 + 1)) (vel_y v)]> positions in
  let positions :=
    <[(i * 3 + 2)%nat := add (get positions (i * 3 + 2)) (vel_z v)]> positions in
  let v := {| vel_x := bounce (get positions (i * 3)) (vel_x v);
              vel_y := bounce (get positions (i * 3 + 1)) (vel_y v);
              vel_z := bounce (get positions (i * 3 + 2)) (vel_z v) |} in
  Some (positions, <[i := v]> velocities).

Definition moveNodes (positions : list num) (velocities : list (Velocity num))
  : option (list num * list (Velocity num)) :=
  foldl (fun st i => st ← st; moveNode st i) (Some (positions, velocities))
        (seq 0 bgNodeCount).

Definition connectDistance : Q := 30.

(** [distSq] of the nodes [i] and [j]. *)
Definition distSq (positions : list num) (i j : nat) : num :=
  let dx := sub (get positions (i * 3)) (get positions (j * 3)) in
  let dy := sub (get positions (i * 3 + 1)) (get positions (j * 3 + 1)) in
  let dz := sub (get positions (i * 3 + 2)) (get positions (j * 3 + 2)) in
  add (add (mul dx dx) (mul dy dy)) (mul dz dz).

(** The body of the inner loop over [j]: a segment from node [i] to
    node [j] is written at [lineIndex], six numbers, when the two are
    closer than [connectDistance]. *)
Definition connectPair (positions : list num) (st : list num * nat)
           (i j : nat) : list num * nat :=
  let '(linePos, lineIndex) := st in
  if ltb (distSq positions i j)
         (mul (lit connectDistance) (lit connectDistance))
  then
    let linePos := <[lineIndex := get positions (i * 3)]> linePos in
    let linePos := <[(lineIndex + 1)%nat := get positions (i * 3 + 1)]> linePos in
    let linePos := <[(lineIndex + 2)%nat := get positions (i * 3 + 2)]> linePos in
    let linePos := <[(lineIndex + 3)%nat := get positions (j * 3)]> linePos in
    let linePos := <[(lineIndex + 4)%nat := get positions (j * 3 + 1)]> linePos in
    let linePos := <[(lineIndex + 5)%nat := get positions (j * 3 + 2)]> linePos in
    (linePos, (lineIndex + 6)%nat)
  else (linePos, lineIndex).

(** The two nested loops, [i] from 0 and [j] from [i + 1]; the result
    pairs the line buffer with the final [lineIndex]. *)
Definition connectLines (positions linePos : list num) : list num * nat :=
  foldl (fun st i =>
           foldl (fun st j => connectPair positions st i j) st
                 (seq (i + 1) (bgNodeCount - (i + 1))))
        (linePos, 0%nat) (seq 0 bgNodeCount).

Definition updateBackground (bg : Background) : option Background :=
  '(positions, velocities) ←
    moveNodes (bgNodesPositions bg) (bgNodesVelocities bg);
  let '(linePos, lineIndex) := connectLines positions (bgLinesPositions bg) in
  Some {| bgNodesPositions := positions;
          bgNodesVelocities := velocities;
          bgLinesPositions := linePos;
          drawCount := Some (div (ofNat lineIndex) (lit 3));
          bgRotationY := add (bgRotationY bg) (lit 0.001) |}.

End Background.

Arguments Background num : clear implicits.

(* ===================================================================== *)
(** ** Snowfall: the flake loop and [updateSnow] *)
(* ===================================================================== *)

Section Snowfall.
Context {num : Type} `{!JSNumber num}.
Variable random : nat -> num.

Definition snowCount : nat := 1000.

(** Flake positions, their velocity objects and [snowGroup.rotation.y]. *)
Record Snow := {
  snowPositions : list num;
  snowVelocities : list (Velocity num);
  snowRotationY : num
}.

(** [(Math.random() - 0.5) * 200] *)
Definition spread (u : num) : num := mul (sub u (lit 0.5)) (lit 200).

(** The velocity object of a flake, from three draws in the order the
    object literal lists its fields: [y] (falling), [x] and [z] (slight
    wind). *)
Definition flakeVelocity (u1 u2 u3 : num) : Velocity num :=
  {| vel_y := sub (lit (-0.1)) (mul u1 (lit 0.3));
     vel_x := mul (sub u2 (lit 0.5)) (lit 0.1);
     vel_z := mul (sub u3 (lit 0.5)) (lit 0.1) |}.

(** One iteration of the loop that places the flakes: three draws for
    the position, three for the velocity. *)
Definition snowStep (st : list num * list (Velocity num) * nat) (i : nat)
  : list num * list (Velocity num) * nat :=
  let '(positions, velocities, k) := st in
  (put3 positions i
        (spread (random k)) (spread (random (k + 1)))
        (spread (random (k + 2))),
   velocities ++
     [flakeVelocity (random (k + 3)) (random (k + 4)) (random (k + 5))],
   (k + 6)%nat).

Definition initSnow (k : nat) : Snow * nat :=
  let '(positions, velocities, k') :=
    foldl snowStep (Float32Array (snowCount * 3), [], k) (seq 0 snowCount) in
  ({| snowPositions := positions;
      snowVelocities := velocities;
      snowRotationY := lit 0 |}, k').

(** One iteration of the loop of [updateSnow]: flake [i] moves by its
    velocity; below -60 it is put back at height 100 with a fresh [x]
    and [z], two draws.  [None] is the [TypeError] of reading [x] on a
    missing velocity. *)
Definition fallFlake (velocities : list (Velocity num))
           (st : list num * nat) (i : nat) : option (list num * nat) :=
  let '(positions, k) := st in
  v ← velocities !! i;
  let positions :=
    <[(i * 3)%nat := add (get positions (i * 3)) (vel_x v)]> positions in
  let positions :=
    <[(i * 3 + 1)%nat := add (get positions (i * 3 + 1)) (vel_y v)]> positions in
  let positions :=
    <[(i * 3 + 2)%nat := add (get positions (i * 3 + 2)) (vel_z v)]> positions in
  if ltb (get positions (i * 3 + 1)) (lit (-60)) then
    let positions := <[(i * 3 + 1)%nat := lit 100]> positions in
    let positions := <[(i * 3)%nat := spread (random k)]> positions in
    let positions :=
      <[(i * 3 + 2)%nat := spread (random (k + 1))]> positions in
    Some (positions, (k + 2)%nat)
  else Some (positions, k).

(** A frame of the snowfall; [k] counts the calls of [Math.random()]. *)
Definition updateSnow (st : Snow * nat) : option (Snow * nat) :=
  let '(snow, k) := st in
  '(positions, k') ←
    foldl (fun st i => st ← st; fallFlake (snowVelocities snow) st i)
          (Some (snowPositions snow, k)) (seq 0 snowCount);
  Some ({| snowPositions := positions;
           snowVelocities := snowVelocities snow;
           snowRotationY := add (snowRotationY snow) (lit 0.002) |}, k').

End Snowfall.

Arguments Snow num : clear implicits.

(* ===================================================================== *)
(** ** Quantities of the background and the snowfall *)
(* ===================================================================== *)

Section SceneObservers.
Context {num : Type} `{!JSNumber num}.

(** The pairs [(i, j)] the nested loops of [updateBackground] visit, in
    the order they visit them. *)
Definition nodePairs : list (nat * nat) :=
  flat_map (fun i => map (pair i) (seq (i + 1) (bgNodeCount - (i + 1))))
           (seq 0 bgNodeCount).

(** The test [distSq < connectDistance * connectDistance]. *)
Definition close (positions : list num) (pair : nat * nat) : bool :=
  ltb (distSq positions pair.1 pair.2)
      (mul (lit connectDistance) (lit connectDistance)).

Definition closePairs (positions : list num) : list (nat * nat) :=
  List.filter (close positions) nodePairs.

(** Node [i] and flake [i] as placed by loops that started after [k]
    calls of [Math.random()]. *)
Definition nodeOf `{!JSMath num} (random : nat -> num) (k i : nat)
  : num * num * num :=
  shellPoint (random (k + 6 * i)) (random (k + 6 * i + 1))
             (random (k + 6 * i + 2)).

Definition nodeVelocityOf (random : nat -> num) (k i : nat) : Velocity num :=
  slowVelocity (random (k + 6 * i + 3)) (random (k + 6 * i + 4))
               (random (k + 6 * i + 5)).

Definition flakeOf (random : nat -> num) (k i : nat) : num * num * num :=
  (spread (random (k + 6 * i)), spread (random (k + 6 * i + 1)),
   spread (random (k + 6 * i + 2))).

Definition flakeVelocityOf (random : nat -> num) (k i : nat) : Velocity num :=
  flakeVelocity (random (k + 6 * i + 3)) (random (k + 6 * i + 4))
                (random (k + 6 * i + 5)).

End SceneObservers.

(** A coordinate [p] of a node and the matching component [v] of its
    velocity: the speed is at most 0.025, and the coordinate is within
    150 of the origin or one step beyond and heading back. *)
Definition inBox (p v : R) : Prop :=
  (Rabs v <= 0.025 /\
   (Rabs p <= 150 \/ (Rabs p <= 150 + Rabs v /\ p * v < 0)))%R.

Section SnowObservers.
Context {num : Type} `{!JSNumber num}.

(** Whether flake [i] drops below -60 in the coming frame. *)
Definition landed (positions : list num) (velocities : list (Velocity num))
           (i : nat) : bool :=
  match velocities !! i with
  | Some v => ltb (add (get positions (i * 3 + 1)) (vel_y v)) (lit (-60))
  | None => false
  end.

(** How many of the first [n] flakes do. *)
Definition landings (positions : list num) (velocities : list (Velocity num))
           (n : nat) : nat :=
  length (List.filter (landed positions velocities) (seq 0 n)).

End SnowObservers.

(** A snowfall whose flakes all sit at the origin and fall at the same
    speed. *)
Definition sampleSnow {num : Type} `{!JSNumber num} : Snow num :=
  {| snowPositions := Float32Array (snowCount * 3);
     snowVelocities :=
       replicate snowCount (flakeVelocity (lit 0.5) (lit 0.5) (lit 0.5));
     snowRotationY := lit 0 |}.

(** What holds of flake [i] between two frames: every flake falls at a
    speed between 0.1 and 0.4, and flake [i] is at height [y], between
    -100 and 100. *)
Definition flying (i : nat) (snow : Snow R) (y : R) : Prop :=
  length (snowPositions snow) = (snowCount * 3)%nat /\
  length (snowVelocities snow) = snowCount /\
  (forall j, (j < snowCount)%nat ->
     exists v, snowVelocities snow !! j = Some v /\
               (-0.4 < vel_y v <= -0.1)%R) /\
  snowPositions snow !! (i * 3 + 1)%nat = Some y /\
  (-100 <= y <= 100)%R.

(** What holds of flake [i] between two frames, wind included: every
    flake falls at a speed between 0.1 and 0.4 and drifts by less than
    0.05 per frame, and flake [i] is at a height [y] between -100 and
    100 and has not drifted further from the strip [-100, 100] than
    half of what it has fallen from the top. *)
Definition adrift (i : nat) (snow : Snow R) (p : R * R * R) : Prop :=
  length (snowPositions snow) = (snowCount * 3)%nat /\
  length (snowVelocities snow) = snowCount /\
  (forall j, (j < snowCount)%nat ->
     exists v, snowVelocities snow !! j = Some v /\
               (-0.4 < vel_y v <= -0.1)%R /\
               (-0.05 <= vel_x v < 0.05)%R /\
               (-0.05 <= vel_z v < 0.05)%R) /\
  (forall axis, (axis < 3)%nat ->
     snowPositions snow !! (i * 3 + axis)%nat = Some (coord p axis)) /\
  (-100 <= p.1.2 <= 100)%R /\
  (Rabs p.1.1 <= 100 + 0.5 * (100 - p.1.2))%R /\
  (Rabs p.2 <= 100 + 0.5 * (100 - p.1.2))%R.

(** A background whose nodes all sit at the origin, at rest. *)
Definition sampleBackground {num : Type} `{!JSNumber num} : Background num :=
  {| bgNodesPositions := Float32Array (bgNodeCount * 3);
     bgNodesVelocities :=
       replicate bgNodeCount (slowVelocity (lit 0.5) (lit 0.5) (lit 0.5));
     bgLinesPositions := Float32Array (bgNodeCount * bgNodeCount * 3);
     drawCount := None;
     bgRotationY := lit 0 |}.

(* ===================================================================== *)
(** ** Properties of the gesture classifier *)
(* ===================================================================== *)

Section GestureFacts.
Context {num : Type} `{!JSNumber num}.

(** A pass of the counting loop reads the wrist and the tip and base of
    finger [i], and counts the finger when it passes the 1.2 ratio test. *)
Lemma fingerStep_joints (hand : list (Landmark num)) (a i m : nat) :
  fingerStep hand a i = Some m ->
  exists ti bi tip base wrist,
    tips !! i = Some ti /\ bases !! i = Some bi /\
    hand !! ti = Some tip /\ hand !! bi = Some base /\
    hand !! 0%nat = Some wrist /\
    m = if isOpenAt 1.2 wrist tip base then S a else a.
Proof.
  unfold fingerStep. intros Hstep.
  destruct (tips !! i) as [ti|] eqn:Hti; [|discriminate].
  destruct (bases !! i) as [bi|] eqn:Hbi; [|discriminate].
  simpl in Hstep.
  destruct (hand !! ti) as [tip|] eqn:Htip; [|discriminate].
  simpl in Hstep.
  destruct (hand !! 0%nat) as [wrist|] eqn:Hwrist; [|discriminate].
  simpl in Hstep.
  destruct (hand !! bi) as [base|] eqn:Hbase; [|discriminate].
  simpl in Hstep. injection Hstep as <-.
  exists ti, bi, tip, base, wrist. repeat split; auto.
Qed.

(** The counting loop succeeds only on a hand that has joint 20, hence
    every joint the classifier reads. *)
Lemma countOpenFingers_length (hand : list (Landmark num)) (n : nat) :
  countOpenFingers hand = Some n -> (20 < length hand)%nat.
Proof.
  unfold countOpenFingers. simpl. intros Hloop.
  destruct (fingerStep hand 0 0) as [n0|]; [simpl in Hloop|discriminate].
  destruct (fingerStep hand n0 1) as [n1|]; [simpl in Hloop|discriminate].
  destruct (fingerStep hand n1 2) as [n2|]; [simpl in Hloop|discriminate].
  destruct (fingerStep hand n2 3) as [n3|] eqn:Hlast; [|discriminate].
  apply fingerStep_joints in Hlast
    as (ti & bi & tip & base & wrist & Hti & _ & Htip & _).
  injection Hti as <-. eapply lookup_lt_Some; eassumption.
Qed.

Lemma joint_exists (hand : list (Landmark num)) (n j : nat) :
  countOpenFingers hand = Some n -> (j <= 20)%nat ->
  exists l, hand !! j = Some l.
Proof.
  intros Hn Hj. apply countOpenFingers_length in Hn.
  destruct (lookup_lt_is_Some_2 hand j) as [l Hl]; [lia | eauto].
Qed.

Ltac joint hand j :=
  let l := fresh "joint" in
  let H := fresh "Hjoint" in
  destruct (lookup_lt_is_Some_2 hand j) as [l H]; [lia|].

Lemma fingerStep_total (hand : list (Landmark num)) (a i : nat) :
  (20 < length hand)%nat -> (i < 4)%nat ->
  exists m, fingerStep hand a i = Some m.
Proof.
  intros Hlen Hi. unfold fingerStep.
  joint hand 0%nat.
  assert (Hcases : i = 0%nat \/ i = 1%nat \/ i = 2%nat \/ i = 3%nat) by lia.
  destruct Hcases as [-> | [-> | [-> | ->]]]; simpl;
    match goal with
    | |- context [hand !! ?t ≫= _] => joint hand t
    end;
    match goal with
    | H : hand !! _ = Some _ |- _ => rewrite H; simpl
    end;
    rewrite Hjoint; simpl;
    match goal with
    | |- context [hand !! ?b ≫= _] => joint hand b
    end;
    match goal with
    | H : hand !! ?b = Some _ |- context [hand !! ?b ≫= _] => rewrite H; simpl
    end;
    eauto.
Qed.

(** On a hand with the detector's 21 joints the counting loop ends
    without a [TypeError]. *)
Lemma countOpenFingers_total (hand : list (Landmark num)) :
  (20 < length hand)%nat -> exists n, countOpenFingers hand = Some n.
Proof.
  intros Hlen. unfold countOpenFingers. simpl.
  destruct (fingerStep_total hand 0 0 Hlen) as [n0 ->]; [lia|]. simpl.
  destruct (fingerStep_total hand n0 1 Hlen) as [n1 ->]; [lia|]. simpl.
  destruct (fingerStep_total hand n1 2 Hlen) as [n2 ->]; [lia|]. simpl.
  destruct (fingerStep_total hand n2 3 Hlen) as [n3 ->]; [lia|]. simpl.
  eauto.
Qed.

(** [openFingers] is the number of fingers among index, middle, ring and
    pinky whose tip is more than 1.2 times as far from the wrist as its
    base. *)
Lemma countOpenFingers_spec (hand : list (Landmark num))
      wrist indexTip indexBase middleTip middleBase ringTip ringBase
      pinkyTip pinkyBase :
  hand !! 0%nat = Some wrist ->
  hand !! 8%nat = Some indexTip -> hand !! 5%nat = Some indexBase ->
  hand !! 12%nat = Some middleTip -> hand !! 9%nat = Some middleBase ->
  hand !! 16%nat = Some ringTip -> hand !! 13%nat = Some ringBase ->
  hand !! 20%nat = Some pinkyTip -> hand !! 17%nat = Some pinkyBase ->
  countOpenFingers hand =
  Some (Nat.b2n (isOpenAt 1.2 wrist indexTip indexBase)
        + Nat.b2n (isOpenAt 1.2 wrist middleTip middleBase)
        + Nat.b2n (isOpenAt 1.2 wrist ringTip ringBase)
        + Nat.b2n (isOpenAt 1.2 wrist pinkyTip pinkyBase))%nat.
Proof.
  intros H0 H8 H5 H12 H9 H16 H13 H20 H17.
  unfold countOpenFingers, fingerLoop, fingerStep, isOpenAt. simpl.
  rewrite H0, H8, H5, H12, H9, H16, H13, H20, H17. simpl.
  repeat match goal with
         | |- context [if ?b then _ else _] => destruct b
         end; reflexivity.
Qed.

(** The pinch/victory branch unfolded on a hand whose joints exist. *)
Lemma pinchOrVictory_eq (hand : list (Landmark num)) (openFingers : nat)
      (g : Globals num) wrist thumbTip indexTip indexBase middleTip middleBase :
  hand !! 0%nat = Some wrist -> hand !! 4%nat = Some thumbTip ->
  hand !! 8%nat = Some indexTip -> hand !! 5%nat = Some indexBase ->
  hand !! 12%nat = Some middleTip -> hand !! 9%nat = Some middleBase ->
  pinchOrVictory hand openFingers g =
    if ltb (planarDist thumbTip indexTip) (lit 0.05) then
      Some (setStatus SPHERE "Status: OK Sign (👌) -> Sphere Mode!" "#00ffff" g)
    else if Nat.eqb openFingers 2
            && isOpenAt 1.1 wrist indexTip indexBase
            && isOpenAt 1.1 wrist middleTip middleBase then
      Some (setStatus FUYO "Status: Victory (✌️) -> FUYO Mode!" "#ffff00" g)
    else
      Some (setStatus TREE "Status: Hand CLOSED -> Assemble Tree" "#00ff00" g).
Proof.
  intros H0 H4 H8 H5 H12 H9. unfold pinchOrVictory.
  rewrite H0; simpl. rewrite H4; simpl. rewrite H8; simpl.
  rewrite H5; simpl. rewrite H12; simpl. rewrite H9; simpl.
  reflexivity.
Qed.

(** [handleGestures] on a result with at least one hand, once the
    counting loop has produced [n]: only the first hand is read. *)
Lemma handleGestures_first_hand (result : DetectionResult num) (g : Globals num)
      hand rest n joint9 :
  landmarks result = Some (hand :: rest) ->
  countOpenFingers hand = Some n ->
  hand !! 9%nat = Some joint9 ->
  handleGestures result g =
    g1 ← (if (3 <=? n)%nat then
            Some (setStatus EXPLODE "Status: Hand OPEN -> Explode!" "#ff0000" g)
          else pinchOrVictory hand n g);
    Some (setRotation (mul (sub (lm_x joint9) (lit 0.5)) (lit 5)) g1).
Proof.
  intros Hres Hn H9. unfold handleGestures. rewrite Hres, Hn. simpl.
  destruct (if (3 <=? n)%nat then _ else _) as [g1|]; simpl; [|reflexivity].
  rewrite H9. reflexivity.
Qed.

(** The hands after the first never influence the outcome. *)
Lemma handleGestures_ignores_other_hands (g : Globals num) hand rest :
  handleGestures {| landmarks := Some (hand :: rest) |} g =
  handleGestures {| landmarks := Some [hand] |} g.
Proof. reflexivity. Qed.

(** C1. Whenever the hand the classifier reads (the first of the
    detection result) has three or more open fingers by the 1.2 ratio
    test, [handleGestures] ends with [mode = EXPLODE].  Nothing is assumed
    about the thumb and index tips: the test on [openFingers] comes first,
    so a pinch on an open hand still explodes. *)
Theorem open_hand_sets_explode (result : DetectionResult num) (g : Globals num)
        (hand : list (Landmark num)) (rest : list (list (Landmark num)))
        (n : nat) :
  landmarks result = Some (hand :: rest) ->
  countOpenFingers hand = Some n ->
  (3 <= n)%nat ->
  exists g', handleGestures result g = Some g' /\ mode g' = EXPLODE.
Proof.
  intros Hres Hn Hopen.
  destruct (joint_exists hand n 9 Hn) as [joint9 H9]; [lia|].
  rewrite (handleGestures_first_hand result g hand rest n joint9 Hres Hn H9).
  apply Nat.leb_le in Hopen. rewrite Hopen. simpl.
  eexists. split; reflexivity.
Qed.

(** C2. When the hand the classifier reads has fewer than three open
    fingers and its thumb tip (joint 4) and index tip (joint 8) are less
    than 0.05 apart in the image plane, [handleGestures] ends with
    [mode = SPHERE]. *)
Theorem pinch_sets_sphere (result : DetectionResult num) (g : Globals num)
        (hand : list (Landmark num)) (rest : list (list (Landmark num)))
        (n : nat) (thumbTip indexTip : Landmark num) :
  landmarks result = Some (hand :: rest) ->
  countOpenFingers hand = Some n ->
  (n < 3)%nat ->
  hand !! 4%nat = Some thumbTip ->
  hand !! 8%nat = Some indexTip ->
  ltb (planarDist thumbTip indexTip) (lit 0.05) = true ->
  exists g', handleGestures result g = Some g' /\ mode g' = SPHERE.
Proof.
  intros Hres Hn Hfew H4 H8 Hpinch.
  destruct (joint_exists hand n 0 Hn) as [wrist H0]; [lia|].
  destruct (joint_exists hand n 5 Hn) as [indexBase H5]; [lia|].
  destruct (joint_exists hand n 12 Hn) as [middleTip H12]; [lia|].
  destruct (joint_exists hand n 9 Hn) as [middleBase H9]; [lia|].
  rewrite (handleGestures_first_hand result g hand rest n middleBase Hres Hn H9).
  apply Nat.leb_gt in Hfew. rewrite Hfew.
  rewrite (pinchOrVictory_eq hand n g _ _ _ _ _ _ H0 H4 H8 H5 H12 H9).
  rewrite Hpinch. simpl. eexists. split; reflexivity.
Qed.

(** C3. When the hand the classifier reads has fewer than three open
    fingers and thumb tip and index tip are not closer than 0.05:
    with exactly two open fingers and index and middle each passing the
    1.1 ratio test, [handleGestures] ends with [mode = FUYO]; in every
    other such case it ends with [mode = TREE]. *)
Theorem victory_sets_fuyo_else_tree
        (result : DetectionResult num) (g : Globals num)
        (hand : list (Landmark num)) (rest : list (list (Landmark num)))
        (n : nat)
        (wrist thumbTip indexTip indexBase middleTip middleBase : Landmark num) :
  landmarks result = Some (hand :: rest) ->
  countOpenFingers hand = Some n ->
  (n < 3)%nat ->
  hand !! 0%nat = Some wrist ->
  hand !! 4%nat = Some thumbTip ->
  hand !! 8%nat = Some indexTip ->
  hand !! 5%nat = Some indexBase ->
  hand !! 12%nat = Some middleTip ->
  hand !! 9%nat = Some middleBase ->
  ltb (planarDist thumbTip indexTip) (lit 0.05) = false ->
  exists g',
    handleGestures result g = Some g' /\
    (n = 2%nat ->
     isOpenAt 1.1 wrist indexTip indexBase = true ->
     isOpenAt 1.1 wrist middleTip middleBase = true ->
     mode g' = FUYO) /\
    (~ (n = 2%nat /\
        isOpenAt 1.1 wrist indexTip indexBase = true /\
        isOpenAt 1.1 wrist middleTip middleBase = true) ->
     mode g' = TREE).
Proof.
  intros Hres Hn Hfew H0 H4 H8 H5 H12 H9 Hfar.
  rewrite (handleGestures_first_hand result g hand rest n middleBase Hres Hn H9).
  apply Nat.leb_gt in Hfew. rewrite Hfew.
  rewrite (pinchOrVictory_eq hand n g _ _ _ _ _ _ H0 H4 H8 H5 H12 H9).
  rewrite Hfar.
  destruct (Nat.eqb_spec n 2) as [Htwo | Htwo];
    destruct (isOpenAt 1.1 wrist indexTip indexBase);
    destruct (isOpenAt 1.1 wrist middleTip middleBase); simpl;
    eexists; (split; [reflexivity|]); split; simpl;
    try reflexivity; try congruence; intros Hnot;
    try reflexivity; exfalso; apply Hnot; auto.
Qed.

(** C4. On a detection result with no hand, [handleGestures] raises no
    error and ends with [mode = TREE] and the rotation speed 1.0. *)
Theorem no_hand_sets_tree (result : DetectionResult num) (g : Globals num) :
  hands result = [] ->
  exists g',
    handleGestures result g = Some g' /\
    mode g' = TREE /\ autoRotateSpeed g' = lit 1.0.
Proof.
  unfold hands, handleGestures. intros Hnone.
  destruct (landmarks result) as [[|hand rest]|]; simpl in Hnone;
    try discriminate; eexists; repeat split; reflexivity.
Qed.

(** C5. On a detection result with at least one hand (of the detector's
    21 joints), [handleGestures] raises no error and ends with the
    rotation speed [(handX - 0.5) * 5], where [handX] is the x coordinate
    of joint 9 of the first hand. *)
Theorem rotation_follows_joint9 (result : DetectionResult num) (g : Globals num)
        (hand : list (Landmark num)) (rest : list (list (Landmark num))) :
  landmarks result = Some (hand :: rest) ->
  length hand = 21%nat ->
  exists g' joint9,
    handleGestures result g = Some g' /\
    hand !! 9%nat = Some joint9 /\
    autoRotateSpeed g' = mul (sub (lm_x joint9) (lit 0.5)) (lit 5).
Proof.
  intros Hres Hlen.
  destruct (countOpenFingers_total hand) as [n Hn]; [lia|].
  joint hand 0%nat. joint hand 4%nat. joint hand 8%nat. joint hand 5%nat.
  joint hand 12%nat. joint hand 9%nat.
  rewrite (handleGestures_first_hand result g hand rest n _ Hres Hn Hjoint4).
  rewrite (pinchOrVictory_eq hand n g _ _ _ _ _ _
             Hjoint Hjoint0 Hjoint1 Hjoint2 Hjoint3 Hjoint4).
  destruct (3 <=? n)%nat; [|destruct (ltb _ _); [|destruct (_ && _)]];
    simpl; eexists; eexists; repeat split; eauto.
Qed.

End GestureFacts.

(** *** The classifier run on IEEE doubles *)

Lemma open_hand_sets_explode_witness :
  exists g' : Globals double,
    handleGestures (detected [openPinchedHand]) initialGlobals = Some g' /\
    mode g' = EXPLODE.
Proof.
  apply (open_hand_sets_explode (num:=double) (detected [openPinchedHand]) initialGlobals
           openPinchedHand [] 4).
  - reflexivity.
  - vm_compute. reflexivity.
  - lia.
Defined.

Lemma pinch_sets_sphere_witness :
  exists g' : Globals double,
    handleGestures (detected [pinchHand]) initialGlobals = Some g' /\
    mode g' = SPHERE.
Proof.
  apply (pinch_sets_sphere (num:=double) (detected [pinchHand]) initialGlobals
           pinchHand [] 2 (pt 0.50 0.50) (pt 0.52 0.51)).
  - reflexivity.
  - vm_compute. reflexivity.
  - lia.
  - reflexivity.
  - reflexivity.
  - vm_compute. reflexivity.
Defined.

Lemma victory_sets_fuyo_else_tree_witness :
  (exists g' : Globals double,
     handleGestures (detected [victoryHand]) initialGlobals = Some g' /\
     mode g' = FUYO) /\
  (exists g' : Globals double,
     handleGestures (detected [fistHand]) initialGlobals = Some g' /\
     mode g' = TREE).
Proof.
  split.
  - destruct (victory_sets_fuyo_else_tree (num:=double)
                (detected [victoryHand]) initialGlobals victoryHand [] 2
                (pt 0.5 0.9) (pt 0.3 0.6) (pt 0.38 0.3) (pt 0.42 0.6)
                (pt 0.5 0.25) (pt 0.5 0.58))
      as (g' & Hrun & Hfuyo & _);
      [reflexivity | vm_compute; reflexivity | lia
       | reflexivity | reflexivity | reflexivity | reflexivity
       | reflexivity | reflexivity | vm_compute; reflexivity |].
    exists g'. split; [exact Hrun|].
    apply Hfuyo; [reflexivity | vm_compute; reflexivity
                  | vm_compute; reflexivity].
  - destruct (victory_sets_fuyo_else_tree (num:=double)
                (detected [fistHand]) initialGlobals fistHand [] 0
                (pt 0.5 0.9) (pt 0.3 0.6) (pt 0.44 0.7) (pt 0.42 0.6)
                (pt 0.5 0.7) (pt 0.7 0.58))
      as (g' & Hrun & _ & Htree);
      [reflexivity | vm_compute; reflexivity | lia
       | reflexivity | reflexivity | reflexivity | reflexivity
       | reflexivity | reflexivity | vm_compute; reflexivity |].
    exists g'. split; [exact Hrun|].
    apply Htree. intros (Htwo & _). discriminate Htwo.
Defined.

Lemma no_hand_sets_tree_witness :
  exists g' : Globals double,
    handleGestures (detected []) initialGlobals = Some g' /\
    mode g' = TREE /\ autoRotateSpeed g' = lit 1.0.
Proof.
  apply (no_hand_sets_tree (num:=double) (detected []) initialGlobals). reflexivity.
Defined.

Lemma rotation_follows_joint9_witness :
  exists (g' : Globals double) (joint9 : Landmark double),
    handleGestures (detected [fistHand; openHand]) initialGlobals = Some g' /\
    fistHand !! 9%nat = Some joint9 /\
    autoRotateSpeed g' = mul (sub (lm_x joint9) (lit 0.5)) (lit 5).
Proof.
  apply (rotation_follows_joint9 (num:=double) (detected [fistHand; openHand]) initialGlobals
           fistHand [openHand]); reflexivity.
Defined.

(** *** Results with two hands

    The detector is set up with [numHands: 2]; the classifier takes the
    first detected hand, [result.landmarks[0]], as its input, and the
    statements above are about that hand. *)

(** A second hand is not looked at: a fist in front of an open palm
    assembles the tree. *)
Example fist_then_open_hand :
  mode <$> handleGestures (num:=double) (detected [fistHand; openHand])
                          initialGlobals
  = Some TREE.
Proof. vm_compute. reflexivity. Qed.

(** No detection leaves the status line of the fallback branch. *)
Example no_landmarks_field :
  handleGestures (num:=double) {| landmarks := None |} initialGlobals
  = Some {| mode := TREE;
            statusText := "Status: No hand detected (Auto Tree)";
            statusColor := "#fff";
            autoRotateSpeed := lit 1.0 |}.
Proof. reflexivity. Qed.

(** A hand with a missing joint makes the script throw. *)
Example truncated_hand_throws :
  handleGestures (num:=double) (detected [firstn 20 openHand]) initialGlobals
  = None.
Proof. vm_compute. reflexivity. Qed.

(* ===================================================================== *)
(** ** Properties of the glyph sampler *)
(* ===================================================================== *)

Section FuyoFacts.
Context {num : Type} `{!JSNumber num}.
Variable random : nat -> num.

Lemma foldl_unchanged {A B : Type} (f : A -> B -> A) (a : A) (l : list B) :
  (forall b, In b l -> f a b = a) -> foldl f a l = a.
Proof.
  induction l as [|b l IH]; simpl; intros Hf; [reflexivity|].
  rewrite (Hf b) by auto. apply IH. intros b' Hb'. apply Hf. auto.
Qed.

(** A frame without a bright pixel yields an empty [validPixels]. *)
Lemma scan_dark (data : list Z) :
  (forall x y, (x < width)%nat -> (y < height)%nat -> bright data x y = false) ->
  scan data = [].
Proof.
  intros Hdark. unfold scan. apply foldl_unchanged.
  intros y Hy. apply in_seq in Hy. unfold scanRow.
  apply foldl_unchanged. intros x Hx. apply in_seq in Hx.
  rewrite Hdark by lia. reflexivity.
Qed.

(** With nothing to sample the loop breaks at once, whatever the count. *)
Lemma sampleLoop_break (remaining i : nat) (positions : list num) (k : nat) :
  sampleLoop random [] remaining i positions k = Some (positions, k).
Proof. destruct remaining; reflexivity. Qed.

(** The sampling loop writes inside the buffer it was given. *)
Lemma sampleLoop_length (validPixels : list (nat * nat)) (remaining i : nat)
      (positions positions' : list num) (k k' : nat) :
  sampleLoop random validPixels remaining i positions k = Some (positions', k') ->
  length positions' = length positions.
Proof.
  revert i positions k.
  induction remaining as [|remaining IH]; intros i positions k; simpl.
  - intros [= <- _]. reflexivity.
  - destruct (length validPixels =? 0)%nat; [intros [= <- _]; reflexivity|].
    destruct (pick validPixels _) as [pixel|]; simpl; [|discriminate].
    intros Hrest. apply IH in Hrest. rewrite Hrest, !length_insert.
    reflexivity.
Qed.

Lemma getFuyoPositions_length (data : list Z) (count k k' : nat)
      (positions : list num) :
  getFuyoPositions random data count k = Some (positions, k') ->
  length positions = (count * 3)%nat.
Proof.
  unfold getFuyoPositions. intros Hrun.
  apply sampleLoop_length in Hrun. rewrite Hrun.
  unfold Float32Array. apply length_replicate.
Qed.

(** C10. If no pixel of the rasterised frame is brighter than the
    threshold, [getFuyoPositions] raises no error, draws no random
    number, and returns the buffer of [count * 3] numbers with every
    entry still at the zero it was created with. *)
Theorem empty_mask_leaves_zeros (data : list Z) (count k : nat) :
  (forall x y, (x < width)%nat -> (y < height)%nat -> bright data x y = false) ->
  exists positions,
    getFuyoPositions random data count k = Some (positions, k) /\
    length positions = (count * 3)%nat /\
    forall j, (j < count * 3)%nat -> positions !! j = Some (lit 0).
Proof.
  intros Hdark. unfold getFuyoPositions.
  rewrite (scan_dark data Hdark), sampleLoop_break.
  exists (Float32Array (count * 3)). unfold Float32Array.
  split; [reflexivity|]. split; [apply length_replicate|].
  intros j Hj. apply lookup_replicate_2. exact Hj.
Qed.

End FuyoFacts.

(** A frame filled with the black background only. *)
Lemma black_frame_dark (x y : nat) :
  bright (replicate (width * height * 4) 0%Z) x y = false.
Proof.
  unfold bright.
  destruct (replicate _ _ !! _) as [v|] eqn:Hv; [|reflexivity].
  apply lookup_replicate in Hv as [-> _]. reflexivity.
Qed.

Lemma empty_mask_leaves_zeros_witness :
  exists positions : list double,
    getFuyoPositions (fun _ => lit 0.5) (replicate (width * height * 4) 0%Z)
                     PARTICLE_COUNT 0
    = Some (positions, 0%nat) /\
    length positions = (PARTICLE_COUNT * 3)%nat /\
    forall j, (j < PARTICLE_COUNT * 3)%nat -> positions !! j = Some (lit 0).
Proof.
  apply (empty_mask_leaves_zeros (num:=double)).
  intros x y _ _. apply black_frame_dark.
Defined.

(** A first row that starts with eight bright pixels. *)
Example scan_first_row :
  scanRow (replicate 32 200%Z) 0 []
  = [(0, 0); (1, 0); (2, 0); (3, 0); (4, 0); (5, 0); (6, 0); (7, 0)]%nat.
Proof. vm_compute. reflexivity. Qed.

(** Three particles placed on those pixels, two draws each. *)
Example sample_three_particles :
  sampleLoop (num:=double) (fun k => lit (Z.of_nat (k mod 7) # 7))
    (scanRow (replicate 32 200%Z) 0 []) 3 0 (Float32Array 9) 0
  = Some ([ lit (-40); lit 40; mul (sub (lit (1#7)) (lit 0.5)) (lit 2);
            mul (sub (lit 2) (lit 100)) (lit 0.4); lit 40;
            mul (sub (lit (3#7)) (lit 0.5)) (lit 2);
            mul (sub (lit 4) (lit 100)) (lit 0.4); lit 40;
            mul (sub (lit (5#7)) (lit 0.5)) (lit 2) ], 6%nat).
Proof. vm_compute. reflexivity. Qed.

(* ===================================================================== *)
(** ** Buffers written three entries at a time *)
(* ===================================================================== *)

Section BufferFacts.
Context {num : Type}.

(** Induction over a loop [for (i = 0; i < n; i++)]. *)
Lemma foldl_seq_invariant {S : Type} (P : nat -> S -> Prop)
      (f : S -> nat -> S) (s0 : S) (n : nat) :
  P 0%nat s0 ->
  (forall i s, (i < n)%nat -> P i s -> P (Datatypes.S i) (f s i)) ->
  P n (foldl f s0 (seq 0 n)).
Proof.
  induction n as [|n IH]; intros Hinit Hstep; [exact Hinit|].
  rewrite seq_S, foldl_app. simpl. apply Hstep; [lia|].
  apply IH; [exact Hinit|]. intros i s Hi. apply Hstep. lia.
Qed.

Lemma put3_length (buf : list num) (i : nat) (a b c : num) :
  length (put3 buf i a b c) = length buf.
Proof. unfold put3. rewrite !length_insert. reflexivity. Qed.

(** The entries of another particle are not touched. *)
Lemma put3_other (buf : list num) (i : nat) (a b c : num) (idx : nat) :
  (idx < i * 3 \/ i * 3 + 2 < idx)%nat ->
  put3 buf i a b c !! idx = buf !! idx.
Proof.
  intros Hidx. unfold put3.
  rewrite !list_lookup_insert_ne by lia. reflexivity.
Qed.

Lemma put3_same (buf : list num) (i : nat) (a b c : num) (axis : nat) :
  (axis < 3)%nat -> (i * 3 + axis < length buf)%nat ->
  put3 buf i a b c !! (i * 3 + axis)%nat = Some (axisOf a b c axis).
Proof.
  intros Haxis Hlen. unfold put3.
  destruct axis as [|[|[|axis]]]; try lia; simpl.
  - rewrite !list_lookup_insert_ne by lia.
    rewrite Nat.add_0_r. apply list_lookup_insert_eq. lia.
  - rewrite list_lookup_insert_ne by lia.
    apply list_lookup_insert_eq. rewrite length_insert. lia.
  - apply list_lookup_insert_eq. rewrite !length_insert. lia.
Qed.

End BufferFacts.

(* ===================================================================== *)
(** ** Properties of the interpolation *)
(* ===================================================================== *)

Section AnimateFacts.
Context {num : Type} `{!JSNumber num}.

Lemma get_insert_ne (buf : list num) (i j : nat) (v : num) :
  i <> j -> get (<[i := v]> buf) j = get buf j.
Proof. intros Hij. unfold get. rewrite list_lookup_insert_ne by exact Hij. reflexivity. Qed.

Lemma get_Some (buf : list num) (i : nat) (v : num) :
  buf !! i = Some v -> get buf i = v.
Proof. intros Hv. unfold get. rewrite Hv. reflexivity. Qed.

(** The three read-modify-write statements amount to one write of the
    moved point. *)
Lemma moveParticle_put3 (target cur : list num) (i : nat) :
  moveParticle target cur i =
  put3 cur i
       (lerp (get cur (i * 3)) (get target (i * 3)))
       (lerp (get cur (i * 3 + 1)) (get target (i * 3 + 1)))
       (lerp (get cur (i * 3 + 2)) (get target (i * 3 + 2))).
Proof.
  unfold moveParticle, put3.
  rewrite !get_insert_ne by lia. reflexivity.
Qed.

Lemma moveParticle_same (target cur : list num) (i axis : nat) :
  (axis < 3)%nat -> (i * 3 + axis < length cur)%nat ->
  moveParticle target cur i !! (i * 3 + axis)%nat =
  Some (lerp (get cur (i * 3 + axis)) (get target (i * 3 + axis))).
Proof.
  intros Haxis Hlen. rewrite moveParticle_put3, put3_same by assumption.
  destruct axis as [|[|[|axis]]]; try lia; simpl;
    rewrite ?Nat.add_0_r; reflexivity.
Qed.

(** State of the position buffer after the first [n] particles. *)
Lemma moveLoop_invariant (target cur : list num) (n : nat) :
  let s := foldl (moveParticle target) cur (seq 0 n) in
  length s = length cur /\
  (forall idx, (idx < n * 3)%nat -> (idx < length cur)%nat ->
     s !! idx = Some (lerp (get cur idx) (get target idx))) /\
  (forall idx, (n * 3 <= idx)%nat -> s !! idx = cur !! idx).
Proof.
  apply (foldl_seq_invariant
           (fun n s =>
              length s = length cur /\
              (forall idx, (idx < n * 3)%nat -> (idx < length cur)%nat ->
                 s !! idx = Some (lerp (get cur idx) (get target idx))) /\
              (forall idx, (n * 3 <= idx)%nat -> s !! idx = cur !! idx))).
  - split; [reflexivity|]. split; [intros idx Hidx; lia | reflexivity].
  - intros i s _ (Hlen & Hdone & Htodo). split; [|split].
    + rewrite moveParticle_put3. rewrite put3_length. exact Hlen.
    + intros idx Hidx Hin.
      destruct (decide (idx < i * 3)%nat) as [Hold | Hnew].
      * rewrite moveParticle_put3, put3_other by lia. apply Hdone; lia.
      * assert (Haxis : exists axis, (axis < 3)%nat /\ idx = (i * 3 + axis)%nat)
          by (exists (idx - i * 3)%nat; lia).
        destruct Haxis as (axis & Haxis & ->).
        rewrite moveParticle_same by lia.
        unfold get at 1. rewrite Htodo by lia. reflexivity.
    + intros idx Hidx.
      rewrite moveParticle_put3, put3_other by lia. apply Htodo. lia.
Qed.

(** What one frame does to every entry of the position buffer. *)
Lemma animateGroup_axis (m : Mode) (data : PData num) (idx : nat) :
  (idx < length (positions data))%nat ->
  positions (animateGroup m data) !! idx =
  Some (lerp (get (positions data) idx) (get (targetOf m data) idx)).
Proof.
  intros Hidx. cbn [animateGroup positions].
  pose proof (Nat.div_mod_eq (length (positions data) + 2) 3) as Hdiv.
  pose proof (Nat.mod_upper_bound (length (positions data) + 2) 3) as Hmod.
  destruct (moveLoop_invariant (targetOf m data) (positions data)
              ((length (positions data) + 2) / 3)) as (_ & Hdone & _).
  apply Hdone; lia.
Qed.

Lemma animateGroup_length (m : Mode) (data : PData num) :
  length (positions (animateGroup m data)) = length (positions data).
Proof.
  cbn [animateGroup positions].
  destruct (moveLoop_invariant (targetOf m data) (positions data)
              ((length (positions data) + 2) / 3)) as (Hlen & _).
  exact Hlen.
Qed.

(** The frame reads the target buffers and the colours, and writes none. *)
Lemma animateGroup_targets (m m' : Mode) (data : PData num) :
  targetOf m' (animateGroup m data) = targetOf m' data /\
  colors (animateGroup m data) = colors data.
Proof. destruct m'; split; reflexivity. Qed.

End AnimateFacts.

(** *** Exact arithmetic *)

Section ExactInterpolation.
Local Open Scope R_scope.

Lemma lerpSpeed_real : lerpSpeed (num:=R) = 0.05.
Proof. unfold lerpSpeed. simpl. unfold Q2R. simpl. lra. Qed.

Lemma lerp_real (c t : R) : lerp c t = c + (t - c) * 0.05.
Proof. unfold lerp. rewrite lerpSpeed_real. reflexivity. Qed.

Lemma frames_group (m : Mode) (k : nat) (all : list (PData R)) (g : nat)
      (data : PData R) :
  all !! g = Some data ->
  frames m k all !! g = Some (Nat.iter k (animateGroup m) data).
Proof.
  intros Hg. unfold frames. induction k as [|k IH]; simpl; [exact Hg|].
  unfold animate at 1. rewrite list_lookup_fmap, IH. reflexivity.
Qed.

Lemma frames_shape (m : Mode) (k : nat) (data : PData R) :
  length (positions (Nat.iter k (animateGroup m) data))
    = length (positions data) /\
  targetOf m (Nat.iter k (animateGroup m) data) = targetOf m data.
Proof.
  induction k as [|k [IHlen IHtarget]]; simpl Nat.iter; [split; reflexivity|].
  rewrite animateGroup_length.
  destruct (animateGroup_targets m m (Nat.iter k (animateGroup m) data))
    as [-> _].
  split; assumption.
Qed.

(** One frame multiplies the offset of an axis by [1 - 0.05]. *)
Lemma animateGroup_offset (m : Mode) (data : PData R) (idx : nat) :
  (idx < length (positions data))%nat ->
  axisOffset m (animateGroup m data) idx = (1 - 0.05) * axisOffset m data idx.
Proof.
  intros Hidx. unfold axisOffset.
  destruct (animateGroup_targets m m data) as [-> _].
  rewrite (get_Some _ _ _ (animateGroup_axis m data idx Hidx)).
  rewrite lerp_real.
  set (c := get (positions data) idx).
  set (t := get (targetOf m data) idx).
  replace (c + (t - c) * 0.05 - t) with ((1 - 0.05) * (c - t)) by lra.
  rewrite Rabs_mult. rewrite (Rabs_right (1 - 0.05)) by lra. reflexivity.
Qed.

Lemma frames_offset_nonzero (m : Mode) (data : PData R) (idx k : nat) :
  (idx < length (positions data))%nat ->
  axisOffset m data idx <> 0 ->
  0 < axisOffset m (Nat.iter k (animateGroup m) data) idx.
Proof.
  intros Hidx Hstart. induction k as [|k IH]; simpl Nat.iter.
  - pose proof (Rabs_pos (get (positions data) idx
                          - get (targetOf m data) idx)) as Hpos.
    unfold axisOffset in *. lra.
  - rewrite animateGroup_offset; [lra|].
    destruct (frames_shape m k data) as [-> _]. exact Hidx.
Qed.

(** C7. If a coordinate of a particle already equals the same coordinate
    of the target that the mode selects, the frame leaves it as it is:
    for every group, every particle [i] and every axis. *)
Theorem at_target_stays (m : Mode) (allParticleData : list (PData R))
        (g i axis : nat) (data : PData R) (c : R) :
  allParticleData !! g = Some data ->
  (axis < 3)%nat ->
  positions data !! (i * 3 + axis)%nat = Some c ->
  targetOf m data !! (i * 3 + axis)%nat = Some c ->
  exists data',
    animate m allParticleData !! g = Some data' /\
    positions data' !! (i * 3 + axis)%nat = Some c.
Proof.
  intros Hg Haxis Hcur Htarget.
  exists (animateGroup m data). split.
  - unfold animate. rewrite list_lookup_fmap, Hg. reflexivity.
  - rewrite animateGroup_axis by (eapply lookup_lt_Some; exact Hcur).
    rewrite (get_Some _ _ _ Hcur), (get_Some _ _ _ Htarget), lerp_real.
    f_equal. lra.
Qed.

(** C8. With the mode held at [m], the target buffers stay as they are
    and every frame multiplies the distance of each coordinate from its
    target by [1 - lerpSpeed], where [lerpSpeed = 0.05]; the distance
    therefore strictly decreases from frame to frame whenever it is not
    zero at the start.  This holds for every group, every particle [i]
    and every axis. *)
Theorem offset_shrinks_each_frame (m : Mode) (allParticleData : list (PData R))
        (g i axis k : nat) (data : PData R) :
  allParticleData !! g = Some data ->
  (axis < 3)%nat ->
  (i * 3 + axis < length (positions data))%nat ->
  exists before after,
    frames m k allParticleData !! g = Some before /\
    frames m (S k) allParticleData !! g = Some after /\
    targetOf m before = targetOf m data /\
    targetOf m after = targetOf m data /\
    lerpSpeed = 0.05 /\
    axisOffset m after (i * 3 + axis)
      = (1 - lerpSpeed) * axisOffset m before (i * 3 + axis) /\
    (axisOffset m data (i * 3 + axis) <> 0 ->
     axisOffset m after (i * 3 + axis) < axisOffset m before (i * 3 + axis)).
Proof.
  intros Hg Haxis Hidx.
  exists (Nat.iter k (animateGroup m) data),
         (Nat.iter (S k) (animateGroup m) data).
  destruct (frames_shape m k data) as [Hlen Htarget].
  assert (Hstep : axisOffset m (Nat.iter (S k) (animateGroup m) data)
                             (i * 3 + axis)
                  = (1 - 0.05) * axisOffset m (Nat.iter k (animateGroup m) data)
                                            (i * 3 + axis)).
  { simpl Nat.iter. apply animateGroup_offset. rewrite Hlen. exact Hidx. }
  split; [apply frames_group; exact Hg|].
  split; [apply frames_group; exact Hg|].
  split; [exact Htarget|].
  split; [apply (frames_shape m (S k) data)|].
  split; [exact lerpSpeed_real|].
  split; [rewrite lerpSpeed_real; exact Hstep|].
  intros Hstart. rewrite Hstep.
  pose proof (frames_offset_nonzero m data (i * 3 + axis) k Hidx Hstart). lra.
Qed.

End ExactInterpolation.

Lemma at_target_stays_witness :
  exists data' : PData R,
    animate TREE [sampleGroup] !! 0%nat = Some data' /\
    positions data' !! (0 * 3 + 1)%nat = Some (lit 20).
Proof.
  apply (at_target_stays TREE [sampleGroup] 0 0 1 sampleGroup (lit 20)).
  - reflexivity.
  - lia.
  - reflexivity.
  - reflexivity.
Defined.

Lemma offset_shrinks_each_frame_witness :
  exists before after : PData R,
    frames TREE 2 [sampleGroup] !! 0%nat = Some before /\
    frames TREE 3 [sampleGroup] !! 0%nat = Some after /\
    targetOf TREE before = targetOf TREE sampleGroup /\
    targetOf TREE after = targetOf TREE sampleGroup /\
    lerpSpeed = 0.05%R /\
    axisOffset TREE after (0 * 3 + 2)
      = ((1 - lerpSpeed) * axisOffset TREE before (0 * 3 + 2))%R /\
    (axisOffset TREE sampleGroup (0 * 3 + 2) <> 0%R ->
     (axisOffset TREE after (0 * 3 + 2)
      < axisOffset TREE before (0 * 3 + 2))%R).
Proof.
  apply (offset_shrinks_each_frame TREE [sampleGroup] 0 0 2 2 sampleGroup).
  - reflexivity.
  - lia.
  - simpl. lia.
Defined.

(** A buffer whose length is not a multiple of three: the last, partial
    particle is moved as well. *)
Example ragged_buffer_moves :
  positions (animateGroup (num:=double) TREE
               {| positions := [lit 0; lit 0; lit 0; lit 0];
                  targetPositions := [lit 10; lit 10; lit 10; lit 10];
                  randomPositions := []; spherePositions := [];
                  fuyoPositions := []; colors := [] |})
  = [lit 0.5; lit 0.5; lit 0.5; lit 0.5].
Proof. vm_compute. reflexivity. Qed.

(** One frame on doubles: the axes at their target stay, the others
    cover a twentieth of the way. *)
Example one_frame_on_doubles :
  positions <$> animate (num:=double) TREE [sampleGroup]
  = [[ lit 10; lit 20; add (lit 3) (mul (lit 27) (lit 0.05));
       mul (lit 1) (lit 0.05); mul (lit 2) (lit 0.05);
       mul (lit 3) (lit 0.05) ]].
Proof. vm_compute. reflexivity. Qed.

(* ===================================================================== *)
(** ** Properties of the start-up loop *)
(* ===================================================================== *)

(** [Math.floor(PARTICLE_COUNT / 3)] *)
Lemma particles_per_group : (PARTICLE_COUNT / 3 = 1000)%nat.
Proof. reflexivity. Qed.

Section ParticleFacts.
Context {num : Type} `{!JSNumber num} `{!JSMath num}.
Variable random : nat -> num.
Variable THREE_Color : Z -> Color num.

Lemma particleStep_counter (index : nat) (fuyoAll : list num)
      (d : PData num) (k i : nat) :
  (particleStep random THREE_Color index fuyoAll (d, k) i).2 = (k + 8)%nat.
Proof.
  unfold particleStep.
  destruct (treePoint _ _) as [[x y] z].
  destruct (explodePoint _ _ _) as [[ex ey] ez].
  destruct (spherePoint _ _) as [[sx sy] sz]. reflexivity.
Qed.

Lemma particleStep_buffers (index : nat) (fuyoAll : list num)
      (d : PData num) (k i : nat) :
  let d' := (particleStep random THREE_Color index fuyoAll (d, k) i).1 in
  let e := explodePoint (random (k + 1)) (random (k + 2)) (random (k + 3)) in
  let s := spherePoint (random (k + 4)) (random (k + 5)) in
  let c := paletteColor THREE_Color
             (pickColor (random (k + 6)) (random (k + 7))) in
  randomPositions d' = put3 (randomPositions d) i e.1.1 e.1.2 e.2 /\
  spherePositions d' = put3 (spherePositions d) i s.1.1 s.1.2 s.2 /\
  colors d' = put3 (colors d) i (chan_r c) (chan_g c) (chan_b c).
Proof.
  unfold particleStep.
  destruct (treePoint _ _) as [[x y] z].
  destruct (explodePoint _ _ _) as [[ex ey] ez].
  destruct (spherePoint _ _) as [[sx sy] sz].
  repeat split; reflexivity.
Qed.

(** State of the loop of one letter after its first [n] particles. *)
Lemma fillGroup_invariant (count index : nat) (fuyoAll : list num)
      (k n : nat) :
  (n <= count)%nat ->
  let st := foldl (particleStep random THREE_Color index fuyoAll)
                  (newPData count, k) (seq 0 n) in
  st.2 = (k + 8 * n)%nat /\
  length (randomPositions st.1) = (count * 3)%nat /\
  length (spherePositions st.1) = (count * 3)%nat /\
  length (colors st.1) = (count * 3)%nat /\
  forall i axis, (i < n)%nat -> (axis < 3)%nat ->
    randomPositions st.1 !! (i * 3 + axis)%nat
      = Some (coord (explodeOf random k i) axis) /\
    spherePositions st.1 !! (i * 3 + axis)%nat
      = Some (coord (sphereOf random k i) axis) /\
    colors st.1 !! (i * 3 + axis)%nat
      = Some (let c := paletteColor THREE_Color (colorOf random k i) in
              axisOf (chan_r c) (chan_g c) (chan_b c) axis).
Proof.
  intros Hn.
  apply (foldl_seq_invariant
           (fun n (st : PData num * nat) =>
              (n <= count)%nat ->
              st.2 = (k + 8 * n)%nat /\
              length (randomPositions st.1) = (count * 3)%nat /\
              length (spherePositions st.1) = (count * 3)%nat /\
              length (colors st.1) = (count * 3)%nat /\
              forall i axis, (i < n)%nat -> (axis < 3)%nat ->
                randomPositions st.1 !! (i * 3 + axis)%nat
                  = Some (coord (explodeOf random k i) axis) /\
                spherePositions st.1 !! (i * 3 + axis)%nat
                  = Some (coord (sphereOf random k i) axis) /\
                colors st.1 !! (i * 3 + axis)%nat
                  = Some (let c := paletteColor THREE_Color (colorOf random k i) in
                          axisOf (chan_r c) (chan_g c) (chan_b c) axis)));
    [| |exact Hn].
  - intros _. cbn [fst snd newPData randomPositions spherePositions colors].
    unfold Float32Array. rewrite !length_replicate.
    repeat split; try reflexivity; lia.
  - intros i [d k'] _ IH Hi. cbn [fst snd] in IH.
    destruct IH as (Hk & Hlr & Hls & Hlc & Hdone); [lia|]. subst k'.
    pose proof (particleStep_buffers index fuyoAll d (k + 8 * i) i) as Hbuf.
    cbv zeta in Hbuf. destruct Hbuf as (Hr & Hs & Hc).
    rewrite particleStep_counter.
    rewrite Hr, Hs, Hc, !put3_length.
    split; [lia|]. do 3 (split; [assumption|]).
    intros j axis Hj Haxis.
    destruct (decide (j = i)) as [-> | Hji].
    + rewrite !put3_same by lia.
      unfold coord, explodeOf, sphereOf, colorOf.
      rewrite <- !Nat.add_assoc. repeat split; reflexivity.
    + rewrite !put3_other by lia. apply Hdone; lia.
Qed.

(** All six buffers of a group keep the length they were created with. *)
Lemma particleStep_sized (index : nat) (fuyoAll : list num)
      (d : PData num) (k i n : nat) :
  sized n d ->
  sized n (particleStep random THREE_Color index fuyoAll (d, k) i).1.
Proof.
  intros (Hp & Ht & Hr & Hs & Hf & Hc). unfold particleStep, sized.
  destruct (treePoint _ _) as [[x y] z].
  destruct (explodePoint _ _ _) as [[ex ey] ez].
  destruct (spherePoint _ _) as [[sx sy] sz].
  cbn [fst positions targetPositions randomPositions spherePositions
       fuyoPositions colors].
  rewrite !put3_length. repeat split; assumption.
Qed.

Lemma initGroup_sized (index : nat) (fuyoAll : list num) (k : nat) :
  sized (PARTICLE_COUNT / 3 * 3)
        (initGroup random THREE_Color index fuyoAll k).1.
Proof.
  unfold initGroup, fillGroup.
  apply (foldl_seq_invariant
           (fun _ (st : PData num * nat) => sized (PARTICLE_COUNT / 3 * 3) st.1)).
  - unfold sized, newPData, Float32Array.
    cbn [fst positions targetPositions randomPositions spherePositions
         fuyoPositions colors].
    rewrite !length_replicate. repeat split; reflexivity.
  - intros i [d k'] _ Hd. apply particleStep_sized. exact Hd.
Qed.

(** Step 4 reads inside the buffer [getFuyoPositions(totalParticles)]
    returned. *)
Lemma fuyo_read_in_range (index i : nat) (fuyoAll : list num) :
  length fuyoAll = (PARTICLE_COUNT * 3)%nat ->
  (index < 3)%nat -> (i < PARTICLE_COUNT / 3)%nat ->
  ((i * 3 + index) * 3 + 2 < length fuyoAll)%nat.
Proof.
  intros -> Hindex Hi. rewrite particles_per_group in Hi.
  change PARTICLE_COUNT with (3 * 1000)%nat. lia.
Qed.

(** A frame reads inside every buffer of a group the start-up built. *)
Lemma frame_read_in_range (index : nat) (fuyoAll : list num) (k idx : nat)
      (m : Mode) :
  let data := (initGroup random THREE_Color index fuyoAll k).1 in
  (idx < length (positions data))%nat ->
  (idx < length (targetOf m data))%nat.
Proof.
  intros data Hidx.
  destruct (initGroup_sized index fuyoAll k) as (Hp & Ht & Hr & Hs & Hf & _).
  fold data in Hp, Ht, Hr, Hs, Hf. clearbody data.
  destruct m; cbn [targetOf]; lia.
Qed.

Lemma initGroup_counter (index : nat) (fuyoAll : list num) (k : nat) :
  (initGroup random THREE_Color index fuyoAll k).2
  = (k + 8 * (PARTICLE_COUNT / 3))%nat.
Proof.
  unfold initGroup, fillGroup.
  apply (fillGroup_invariant (PARTICLE_COUNT / 3) index fuyoAll k
                             (PARTICLE_COUNT / 3)). lia.
Qed.

(** The three groups of [allParticleData]: group [g] is the letter at
    position [g], filled after the draws of the groups before it. *)
Lemma initParticles_groups (fuyoAll : list num) (k g : nat) :
  (g < 3)%nat ->
  (initParticles random THREE_Color fuyoAll k).1 !! g
  = Some (initGroup random THREE_Color g fuyoAll
                    (k + g * (8 * (PARTICLE_COUNT / 3)))).1.
Proof.
  intros Hg. unfold initParticles. cbn [foldl].
  pose proof (initGroup_counter 0 fuyoAll k) as H0.
  destruct (initGroup random THREE_Color 0 fuyoAll k) as [d0 k0] eqn:E0.
  cbn [snd] in H0. subst k0.
  pose proof (initGroup_counter 1 fuyoAll (k + 8 * (PARTICLE_COUNT / 3))) as H1.
  destruct (initGroup random THREE_Color 1 fuyoAll _) as [d1 k1] eqn:E1.
  cbn [snd] in H1. subst k1.
  destruct (initGroup random THREE_Color 2 fuyoAll _) as [d2 k2] eqn:E2.
  cbn [fst app].
  destruct g as [|[|[|g]]]; try lia; cbn [lookup list_lookup];
    f_equal.
  - rewrite Nat.mul_0_l, Nat.add_0_r, E0. reflexivity.
  - rewrite Nat.mul_1_l, E1. reflexivity.
  - replace (k + 2 * (8 * (PARTICLE_COUNT / 3)))%nat
      with (k + 8 * (PARTICLE_COUNT / 3) + 8 * (PARTICLE_COUNT / 3))%nat by lia.
    rewrite E2. reflexivity.
Qed.

(** Every particle of a group has its exploded point, its sphere point
    and its colour where the loop put them. *)
Lemma initGroup_particle (index : nat) (fuyoAll : list num) (k i axis : nat) :
  (i < PARTICLE_COUNT / 3)%nat -> (axis < 3)%nat ->
  let data := (initGroup random THREE_Color index fuyoAll k).1 in
  randomPositions data !! (i * 3 + axis)%nat
    = Some (coord (explodeOf random k i) axis) /\
  spherePositions data !! (i * 3 + axis)%nat
    = Some (coord (sphereOf random k i) axis) /\
  colors data !! (i * 3 + axis)%nat
    = Some (let c := paletteColor THREE_Color (colorOf random k i) in
            axisOf (chan_r c) (chan_g c) (chan_b c) axis).
Proof.
  intros Hi Haxis. unfold initGroup, fillGroup.
  destruct (fillGroup_invariant (PARTICLE_COUNT / 3) index fuyoAll k
              (PARTICLE_COUNT / 3)) as (_ & _ & _ & _ & Hdone); [lia|].
  apply Hdone; assumption.
Qed.

Lemma particleStep_fuyo (index : nat) (fuyoAll : list num)
      (d : PData num) (k i : nat) :
  fuyoPositions (particleStep random THREE_Color index fuyoAll (d, k) i).1
  = put3 (fuyoPositions d) i
         (get fuyoAll ((i * 3 + index) * 3))
         (get fuyoAll ((i * 3 + index) * 3 + 1))
         (get fuyoAll ((i * 3 + index) * 3 + 2)).
Proof.
  unfold particleStep.
  destruct (treePoint _ _) as [[x y] z].
  destruct (explodePoint _ _ _) as [[ex ey] ez].
  destruct (spherePoint _ _) as [[sx sy] sz]. reflexivity.
Qed.

(** With an empty glyph mask the whole start-up goes through, and the
    glyph target of every particle of every group is the origin. *)
Lemma dark_frame_glyph_targets (data : list Z) (k g : nat) :
  (forall x y, (x < width)%nat -> (y < height)%nat -> bright data x y = false) ->
  (g < 3)%nat ->
  exists groups k' group,
    startUp random THREE_Color data k = Some (groups, k') /\
    groups !! g = Some group /\
    Forall (fun v => v = lit 0) (fuyoPositions group).
Proof.
  intros Hdark Hg. unfold startUp, getFuyoPositions.
  rewrite (scan_dark data Hdark), sampleLoop_break.
  set (fuyoAll := Float32Array (PARTICLE_COUNT * 3)).
  cbn [mbind option_bind].
  destruct (initParticles random THREE_Color fuyoAll k) as [groups k'] eqn:Hinit.
  pose proof (initParticles_groups fuyoAll k g Hg) as Hgroup.
  rewrite Hinit in Hgroup. cbn [fst] in Hgroup.
  exists groups, k', (initGroup random THREE_Color g fuyoAll
                        (k + g * (8 * (PARTICLE_COUNT / 3)))).1.
  split; [reflexivity|]. split; [exact Hgroup|].
  assert (Hget : forall idx, get fuyoAll idx = lit 0).
  { intros idx. unfold get, fuyoAll, Float32Array.
    destruct (replicate _ _ !! idx) as [v|] eqn:Hv; [|reflexivity].
    apply lookup_replicate in Hv as [-> _]. reflexivity. }
  clearbody fuyoAll.
  unfold initGroup, fillGroup.
  apply (foldl_seq_invariant
           (fun _ (st : PData num * nat) =>
              Forall (fun v => v = lit 0) (fuyoPositions st.1))).
  - cbn [fst newPData fuyoPositions]. unfold Float32Array.
    apply Forall_replicate. reflexivity.
  - intros i [d kd] _ Hd. cbn [fst] in Hd.
    rewrite particleStep_fuyo, !Hget. unfold put3.
    repeat apply Forall_insert; auto.
Qed.

End ParticleFacts.

(** *** Exact arithmetic *)

Section ExactShapes.
Local Open Scope R_scope.
Variable random : nat -> R.
Variable THREE_Color : Z -> Color R.

Lemma Q2R_whole (z : Z) : Q2R (z # 1) = IZR z.
Proof. unfold Q2R. simpl. lra. Qed.

(** A point given by spherical coordinates lies at its radius. *)
Lemma spherical_distance (r phi theta : R) :
  0 <= r ->
  distanceFromOrigin (r * sin phi * cos theta, r * sin phi * sin theta,
                      r * cos phi) = r.
Proof.
  intros Hr. unfold distanceFromOrigin. simpl.
  pose proof (sin2_cos2 phi) as Hphi.
  pose proof (sin2_cos2 theta) as Htheta.
  unfold Rsqr in Hphi, Htheta.
  set (sp := sin phi) in *. set (cp := cos phi) in *.
  set (st := sin theta) in *. set (ct := cos theta) in *.
  replace (r * sp * ct * (r * sp * ct) + r * sp * st * (r * sp * st)
           + r * cp * (r * cp))
    with (r * r * (sp * sp * (st * st + ct * ct) + cp * cp)) by ring.
  rewrite Htheta, Rmult_1_r, Hphi, Rmult_1_r.
  apply sqrt_square. exact Hr.
Qed.

Lemma spherePoint_distance (u1 u2 : R) :
  distanceFromOrigin (spherePoint u1 u2) = 25.
Proof.
  unfold spherePoint. cbn [lit mul sub Math_sin Math_cos Math_acos Math_PI
                            real_number real_math].
  rewrite spherical_distance; rewrite Q2R_whole; lra.
Qed.

Lemma explodePoint_distance (u1 u2 u3 : R) :
  0 <= u3 ->
  distanceFromOrigin (explodePoint u1 u2 u3) = u3 * 80.
Proof.
  intros Hu. unfold explodePoint, EXPLOSION_RADIUS.
  cbn [lit mul sub Math_sin Math_cos Math_acos Math_PI real_number real_math].
  rewrite spherical_distance; rewrite Q2R_whole; lra.
Qed.

Lemma pointAt_coords (buf : list R) (i : nat) (p : R * R * R) :
  (forall axis, (axis < 3)%nat ->
     buf !! (i * 3 + axis)%nat = Some (coord p axis)) ->
  pointAt buf i = Some p.
Proof.
  intros Hp. unfold pointAt.
  pose proof (Hp 0%nat) as H0. pose proof (Hp 1%nat) as H1.
  pose proof (Hp 2%nat) as H2.
  rewrite Nat.add_0_r in H0.
  rewrite H0, H1, H2 by lia. destruct p as [[x y] z]. reflexivity.
Qed.

(** C9. In every one of the three groups, for every particle and
    whatever values in [0,1) [Math.random()] returns, the sphere target
    lies at distance exactly 25 from the origin and the explosion target
    at distance at most [EXPLOSION_RADIUS] = 80. *)
Theorem sphere_at_25_explosion_within_80 (fuyoAllPositions : list R)
        (k g i : nat) :
  (forall j, 0 <= random j < 1) ->
  (g < 3)%nat ->
  (i < PARTICLE_COUNT / 3)%nat ->
  exists data s e,
    (initParticles random THREE_Color fuyoAllPositions k).1 !! g = Some data /\
    pointAt (spherePositions data) i = Some s /\
    distanceFromOrigin s = 25 /\
    pointAt (randomPositions data) i = Some e /\
    distanceFromOrigin e <= lit EXPLOSION_RADIUS /\
    lit EXPLOSION_RADIUS = 80.
Proof.
  intros Hdraw Hg Hi.
  set (k' := (k + g * (8 * (PARTICLE_COUNT / 3)))%nat).
  exists (initGroup random THREE_Color g fuyoAllPositions k').1,
         (sphereOf random k' i), (explodeOf random k' i).
  split; [apply initParticles_groups; exact Hg|].
  assert (Hparticle := fun axis Haxis =>
            initGroup_particle random THREE_Color g fuyoAllPositions
                               k' i axis Hi Haxis).
  cbv zeta in Hparticle.
  split; [apply pointAt_coords; intros axis Haxis;
          exact (proj1 (proj2 (Hparticle axis Haxis)))|].
  split; [apply spherePoint_distance|].
  split; [apply pointAt_coords; intros axis Haxis;
          exact (proj1 (Hparticle axis Haxis))|].
  assert (Hradius : lit (num:=R) EXPLOSION_RADIUS = 80)
    by (unfold EXPLOSION_RADIUS; apply Q2R_whole).
  split; [|exact Hradius].
  rewrite Hradius. unfold explodeOf.
  pose proof (Hdraw (k' + 8 * i + 3)%nat) as Hu.
  rewrite explodePoint_distance; lra.
Qed.

End ExactShapes.

Lemma sphere_at_25_explosion_within_80_witness :
  exists (data : PData R) (s e : R * R * R),
    (initParticles halves hexColor [] 0).1 !! 1%nat = Some data /\
    pointAt (spherePositions data) 7 = Some s /\
    distanceFromOrigin s = 25%R /\
    pointAt (randomPositions data) 7 = Some e /\
    (distanceFromOrigin e <= lit EXPLOSION_RADIUS)%R /\
    lit EXPLOSION_RADIUS = 80%R.
Proof.
  apply (sphere_at_25_explosion_within_80 halves hexColor [] 0 1 7).
  - intros j. unfold halves. cbn [lit real_number]. unfold Q2R. simpl. lra.
  - lia.
  - rewrite particles_per_group. lia.
Defined.

(* ===================================================================== *)
(** ** The colour split *)
(* ===================================================================== *)

Section ColorCount.
Context {num : Type} `{!JSNumber num}.

(** The two tests, second one last: red whenever the second draw
    exceeds 0.90, else gold whenever the first exceeds 0.70. *)
Lemma pickColor_cases (u1 u2 : num) :
  pickColor u1 u2 =
  if gtb u2 (lit 0.90) then color3
  else if gtb u1 (lit 0.70) then color2 else color1.
Proof.
  unfold pickColor.
  destruct (gtb u2 (lit 0.90)), (gtb u1 (lit 0.70)); reflexivity.
Qed.

End ColorCount.

Section SumFacts.

Lemma sumBelow_ext (n : nat) (f g : nat -> nat) :
  (forall i, (i < n)%nat -> f i = g i) -> sumBelow n f = sumBelow n g.
Proof.
  induction n as [|n IH]; intros Hfg; simpl; [reflexivity|].
  rewrite IH, Hfg by (intros; try apply Hfg; lia). reflexivity.
Qed.

Lemma sumBelow_product (n n' : nat) (a b : nat -> nat) :
  sumBelow n (fun i => sumBelow n' (fun j => (a i * b j)%nat))
  = (sumBelow n a * sumBelow n' b)%nat.
Proof.
  assert (Hinner : forall c, sumBelow n' (fun j => (c * b j)%nat)
                             = (c * sumBelow n' b)%nat).
  { intros c. induction n' as [|n' IH]; simpl; [lia|]. rewrite IH. lia. }
  induction n as [|n IH]; simpl; [reflexivity|].
  rewrite IH, Hinner. lia.
Qed.

(** How many of [0 .. n-1] lie at or above, and below, a threshold. *)
Lemma sumBelow_from (n t : nat) :
  (t <= n)%nat ->
  sumBelow n (fun i => if (t <=? i)%nat then 1 else 0)%nat = (n - t)%nat.
Proof.
  induction n as [|n IH]; intros Ht; simpl; [lia|].
  destruct (Nat.leb_spec t n) as [Hle | Hgt].
  - rewrite IH by lia. lia.
  - replace t with (S n) by lia.
    rewrite (sumBelow_ext n _ (fun _ => 0%nat)).
    + clear. induction n; simpl; lia.
    + intros i Hi. destruct (Nat.leb_spec (S n) i); [lia | reflexivity].
Qed.

Lemma sumBelow_upto (n t : nat) :
  (t <= n)%nat ->
  sumBelow n (fun i => if (t <=? i)%nat then 0 else 1)%nat = t.
Proof.
  induction n as [|n IH]; intros Ht; simpl; [lia|].
  destruct (Nat.leb_spec t n) as [Hle | Hgt].
  - rewrite IH by lia. lia.
  - replace t with (S n) by lia.
    rewrite (sumBelow_ext n _ (fun _ => 1%nat)).
    + clear. induction n; simpl; lia.
    + intros i Hi. destruct (Nat.leb_spec (S n) i); [lia | reflexivity].
Qed.

End SumFacts.

(** *** Exact arithmetic *)

Section ExactColors.
Local Open Scope R_scope.

Lemma ofNat_real (n : nat) : ofNat (num:=R) n = INR n.
Proof.
  unfold ofNat. cbn [lit real_number]. unfold inject_Z.
  rewrite Q2R_whole. symmetry. apply INR_IZR_INZ.
Qed.

Lemma midpoint_real (n i : nat) :
  midpoint (num:=R) n i = (2 * INR i + 1) / (2 * INR n).
Proof.
  unfold midpoint. rewrite !ofNat_real.
  cbn [lit add mul div real_number]. rewrite !Q2R_whole. reflexivity.
Qed.

(** A cell centre of the grid of [10 * m] cells exceeds [t / 10] exactly
    from cell [t * m] on. *)
Lemma midpoint_exceeds (m i t : nat) :
  (0 < m)%nat ->
  IZR (Z.of_nat t) / 10 < midpoint (num:=R) (10 * m) i <-> (t * m <= i)%nat.
Proof.
  intros Hm. rewrite midpoint_real, <- INR_IZR_INZ, mult_INR.
  replace (INR 10) with 10 by (simpl; lra).
  assert (HM : 0 < INR m) by (apply lt_0_INR; exact Hm).
  assert (Hcross : INR t / 10 < (2 * INR i + 1) / (2 * (10 * INR m))
                   <-> INR (2 * (t * m)) < INR (2 * i + 1)).
  { rewrite plus_INR, !mult_INR. simpl INR.
    replace ((2 * INR i + 1) / (2 * (10 * INR m)))
      with ((2 * INR i + 1) / (2 * INR m) / 10) by (field; lra).
    split; intros Hlt.
    - assert (H1 : INR t < (2 * INR i + 1) / (2 * INR m)) by lra.
      apply (Rmult_lt_compat_r (2 * INR m)) in H1; [|lra].
      unfold Rdiv in H1. rewrite Rmult_assoc, Rinv_l, Rmult_1_r in H1 by lra.
      lra.
    - assert (H1 : INR t < (2 * INR i + 1) / (2 * INR m)).
      { apply (Rmult_lt_reg_r (2 * INR m)); [lra|].
        unfold Rdiv. rewrite Rmult_assoc, Rinv_l, Rmult_1_r by lra. lra. }
      lra. }
  rewrite Hcross. split; intros Hlt.
  - apply INR_lt in Hlt. lia.
  - apply lt_INR. lia.
Qed.

Lemma exceeds_070 (m i : nat) :
  (0 < m)%nat ->
  gtb (midpoint (num:=R) (10 * m) i) (lit 0.70) = (7 * m <=? i)%nat.
Proof.
  intros Hm. unfold gtb. cbn [ltb lit real_number]. unfold Rltb.
  pose proof (midpoint_exceeds m i 7 Hm) as Hiff.
  change (IZR (Z.of_nat 7)) with 7 in Hiff.
  replace (Q2R 0.70) with (7 / 10) by (unfold Q2R; simpl; lra).
  destruct (Rlt_dec _ _) as [Hlt | Hge];
    destruct (Nat.leb_spec (7 * m) i) as [Hle | Hgt];
    try reflexivity.
  - apply Hiff in Hlt. lia.
  - exfalso. apply Hge, Hiff. exact Hle.
Qed.

Lemma exceeds_090 (m i : nat) :
  (0 < m)%nat ->
  gtb (midpoint (num:=R) (10 * m) i) (lit 0.90) = (9 * m <=? i)%nat.
Proof.
  intros Hm. unfold gtb. cbn [ltb lit real_number]. unfold Rltb.
  pose proof (midpoint_exceeds m i 9 Hm) as Hiff.
  change (IZR (Z.of_nat 9)) with 9 in Hiff.
  replace (Q2R 0.90) with (9 / 10) by (unfold Q2R; simpl; lra).
  destruct (Rlt_dec _ _) as [Hlt | Hge];
    destruct (Nat.leb_spec (9 * m) i) as [Hle | Hgt];
    try reflexivity.
  - apply Hiff in Hlt. lia.
  - exfalso. apply Hge, Hiff. exact Hle.
Qed.

(** On the grid a pair selects a colour according to the cells of its
    two draws alone. *)
Lemma selects_grid (m i j : nat) (c : PaletteColor) :
  (0 < m)%nat ->
  selects c (midpoint (num:=R) (10 * m) i) (midpoint (10 * m) j) =
  match c with
  | color1 => (if (7 * m <=? i)%nat then 0 else 1)
              * (if (9 * m <=? j)%nat then 0 else 1)
  | color2 => (if (7 * m <=? i)%nat then 1 else 0)
              * (if (9 * m <=? j)%nat then 0 else 1)
  | color3 => 1 * (if (9 * m <=? j)%nat then 1 else 0)
  end%nat.
Proof.
  intros Hm. unfold selects.
  rewrite pickColor_cases, exceeds_070, exceeds_090 by exact Hm.
  destruct c, (7 * m <=? i)%nat, (9 * m <=? j)%nat; reflexivity.
Qed.

(** Inside cell [j] of ten, a draw exceeds [t / 10] exactly when the
    centre of the cell does. *)
Lemma cell_exceeds (t j : nat) (u : R) :
  INR j / 10 < u < (INR j + 1) / 10 ->
  IZR (Z.of_nat t) / 10 < u <-> (t <= j)%nat.
Proof.
  intros [Hlow Hhigh]. rewrite <- INR_IZR_INZ. split.
  - intros Hlt. destruct (le_lt_dec t j) as [Hle | Hgt]; [exact Hle|].
    exfalso. apply (le_INR (S j) t) in Hgt. rewrite S_INR in Hgt. lra.
  - intros Hle. apply le_INR in Hle. lra.
Qed.

Lemma gtb_cell (t j : nat) (q : Q) (u : R) :
  Q2R q = IZR (Z.of_nat t) / 10 ->
  INR j / 10 < u < (INR j + 1) / 10 ->
  gtb u (lit q) = gtb (midpoint (num:=R) 10 j) (lit q).
Proof.
  intros Hq Hcell. unfold gtb. cbn [ltb lit real_number]. unfold Rltb.
  rewrite Hq.
  pose proof (cell_exceeds t j u Hcell) as Hu.
  pose proof (midpoint_exceeds 1 j t Nat.lt_0_1) as Hmid.
  change (10 * 1)%nat with 10%nat in Hmid. rewrite Nat.mul_1_r in Hmid.
  destruct (Rlt_dec _ u) as [Hlt | Hge];
    destruct (Rlt_dec _ (midpoint 10 j)) as [Hlt' | Hge'];
    try reflexivity; exfalso; tauto.
Qed.

(** The choice is the same all over the inside of a cell of the ten by
    ten grid: the cells, of equal area, carry the whole measure of the
    unit square, so the share of cells is the probability. *)
Lemma pickColor_cell (i j : nat) (u1 u2 : R) :
  INR i / 10 < u1 < (INR i + 1) / 10 ->
  INR j / 10 < u2 < (INR j + 1) / 10 ->
  pickColor u1 u2 = pickColor (midpoint 10 i) (midpoint 10 j).
Proof.
  intros Hu1 Hu2. rewrite !pickColor_cases.
  rewrite (gtb_cell 9 j 0.90 u2), (gtb_cell 7 i 0.70 u1);
    try assumption; try reflexivity;
    unfold Q2R; rewrite <- INR_IZR_INZ; simpl; lra.
Qed.

(** The draws that select each colour, as regions of the unit square:
    red is the strip [u2 > 0.9], gold the rectangle [u1 > 0.7] below it,
    green the rest. *)
Lemma pickColor_regions (u1 u2 : R) :
  (pickColor u1 u2 = color3 <-> 0.9 < u2) /\
  (pickColor u1 u2 = color2 <-> 0.7 < u1 /\ u2 <= 0.9) /\
  (pickColor u1 u2 = color1 <-> u1 <= 0.7 /\ u2 <= 0.9).
Proof.
  rewrite pickColor_cases. unfold gtb. cbn [ltb lit real_number].
  unfold Rltb.
  replace (Q2R 0.90) with 0.9 by (unfold Q2R; simpl; lra).
  replace (Q2R 0.70) with 0.7 by (unfold Q2R; simpl; lra).
  destruct (Rlt_dec 0.9 u2), (Rlt_dec 0.7 u1);
    repeat split; intros; try discriminate; try lra; try reflexivity.
Qed.

(** C6, as the code has it.  The colour entries of every particle are
    written by the start-up loop, from the colour that step 5 picks with
    the seventh and eighth draw of the particle, and no frame changes
    them.  Step 5 draws twice: the colour is red when the second draw
    exceeds 0.90, otherwise gold when the first exceeds 0.70, otherwise
    green.  The choice is constant inside each cell of the ten by ten
    grid of the unit square, and counted over the cell centres of a grid
    of [10 m] by [10 m] equal cells, 63 in 100 pairs of draws select
    green, 27 in 100 gold and 10 in 100 red. *)
Theorem color_split_63_27_10 (random : nat -> R) (THREE_Color : Z -> Color R)
        (fuyoAllPositions : list R) (k index i axis : nat) (frameMode : Mode)
        (m : nat) :
  (i < PARTICLE_COUNT / 3)%nat ->
  (axis < 3)%nat ->
  exists data c,
    data = (initGroup random THREE_Color index fuyoAllPositions k).1 /\
    c = pickColor (random (k + 8 * i + 6)%nat) (random (k + 8 * i + 7)%nat) /\
    colors data !! (i * 3 + axis)%nat
      = Some (axisOf (chan_r (paletteColor THREE_Color c))
                     (chan_g (paletteColor THREE_Color c))
                     (chan_b (paletteColor THREE_Color c)) axis) /\
    colors (animateGroup frameMode data) = colors data /\
    (forall (a b : nat) (u1 u2 : R),
       INR a / 10 < u1 < (INR a + 1) / 10 ->
       INR b / 10 < u2 < (INR b + 1) / 10 ->
       pickColor u1 u2 = pickColor (midpoint 10 a) (midpoint 10 b)) /\
    pairsSelecting (num:=R) color1 (10 * m) = (63 * m * m)%nat /\
    pairsSelecting (num:=R) color2 (10 * m) = (27 * m * m)%nat /\
    pairsSelecting (num:=R) color3 (10 * m) = (10 * m * m)%nat.
Proof.
  intros Hi Haxis.
  exists (initGroup random THREE_Color index fuyoAllPositions k).1,
         (pickColor (random (k + 8 * i + 6)%nat) (random (k + 8 * i + 7)%nat)).
  split; [reflexivity|]. split; [reflexivity|].
  split.
  { pose proof (initGroup_particle random THREE_Color index fuyoAllPositions
                  k i axis Hi Haxis) as Hparticle.
    cbv zeta in Hparticle. unfold colorOf in Hparticle.
    exact (proj2 (proj2 Hparticle)). }
  split; [exact (proj2 (animateGroup_targets frameMode TREE _))|].
  split; [intros a b u1 u2 Hu1 Hu2; apply pickColor_cell; assumption|].
  clear Hi Haxis. clear random THREE_Color fuyoAllPositions k index i axis.
  destruct m as [|m']; [repeat split; reflexivity|].
  set (m := S m'). assert (Hm : (0 < m)%nat) by (unfold m; lia).
  clearbody m. clear m'.
  assert (Hones : sumBelow (10 * m) (fun _ => 1%nat) = (10 * m)%nat).
  { generalize (10 * m)%nat. intros n. induction n; simpl; lia. }
  unfold pairsSelecting. repeat split.
  - rewrite (sumBelow_ext _ _ (fun i => sumBelow (10 * m) (fun j =>
        ((if (7 * m <=? i)%nat then 0 else 1)
         * (if (9 * m <=? j)%nat then 0 else 1))%nat))).
    + rewrite sumBelow_product, !sumBelow_upto by lia. lia.
    + intros i _. apply sumBelow_ext. intros j _.
      apply (selects_grid m i j color1 Hm).
  - rewrite (sumBelow_ext _ _ (fun i => sumBelow (10 * m) (fun j =>
        ((if (7 * m <=? i)%nat then 1 else 0)
         * (if (9 * m <=? j)%nat then 0 else 1))%nat))).
    + rewrite sumBelow_product, sumBelow_from, sumBelow_upto by lia. lia.
    + intros i _. apply sumBelow_ext. intros j _.
      apply (selects_grid m i j color2 Hm).
  - rewrite (sumBelow_ext _ _ (fun i => sumBelow (10 * m) (fun j =>
        (1 * (if (9 * m <=? j)%nat then 1 else 0))%nat))).
    + rewrite (sumBelow_product _ _ (fun _ => 1%nat)), Hones, sumBelow_from
        by lia. lia.
    + intros i _. apply sumBelow_ext. intros j _.
      apply (selects_grid m i j color3 Hm).
Qed.

End ExactColors.

(** The same count on IEEE doubles, over the 100 pairs of the grid of
    10 by 10 cells: the split is not 70 / 20 / 10. *)
Lemma color_split_not_70_20_10 :
  ~ (pairsSelecting (num:=double) color1 10 = 70%nat /\
     pairsSelecting (num:=double) color2 10 = 20%nat /\
     pairsSelecting (num:=double) color3 10 = 10%nat).
Proof. intros [Hgreen _]. vm_compute in Hgreen. discriminate Hgreen. Qed.

Example color_split_doubles :
  (pairsSelecting (num:=double) color1 100,
   pairsSelecting (num:=double) color2 100,
   pairsSelecting (num:=double) color3 100)
  = (63 * 100, 27 * 100, 10 * 100)%nat.
Proof. vm_compute. reflexivity. Qed.

(** A first draw in the gold band is overridden by a second one above
    0.90, and survives it otherwise. *)
Example gold_then_red :
  (pickColor (num:=double) (lit 0.8) (lit 0.95),
   pickColor (num:=double) (lit 0.8) (lit 0.5),
   pickColor (num:=double) (lit 0.75) (lit 0.75)) = (color3, color2, color2).
Proof. vm_compute. reflexivity. Qed.

Lemma color_split_63_27_10_witness :
  exists (data : PData R) (c : PaletteColor),
    data = (initGroup halves hexColor 2 [] 0).1 /\
    c = pickColor (halves (0 + 8 * 5 + 6)%nat) (halves (0 + 8 * 5 + 7)%nat) /\
    colors data !! (5 * 3 + 1)%nat
      = Some (axisOf (chan_r (paletteColor hexColor c))
                     (chan_g (paletteColor hexColor c))
                     (chan_b (paletteColor hexColor c)) 1) /\
    colors (animateGroup SPHERE data) = colors data /\
    (forall (a b : nat) (u1 u2 : R),
       (INR a / 10 < u1 < (INR a + 1) / 10)%R ->
       (INR b / 10 < u2 < (INR b + 1) / 10)%R ->
       pickColor u1 u2 = pickColor (midpoint 10 a) (midpoint 10 b)) /\
    pairsSelecting (num:=R) color1 (10 * 1) = (63 * 1 * 1)%nat /\
    pairsSelecting (num:=R) color2 (10 * 1) = (27 * 1 * 1)%nat /\
    pairsSelecting (num:=R) color3 (10 * 1) = (10 * 1 * 1)%nat.
Proof.
  apply (color_split_63_27_10 halves hexColor [] 0 2 5 1 SPHERE 1).
  - rewrite particles_per_group. lia.
  - lia.
Defined.

(* ===================================================================== *)
(** ** More on the gesture classifier *)
(* ===================================================================== *)

Section ClassifierFacts.
Context {num : Type} `{!JSNumber num}.

Lemma countOpenFingers_short (hand : list (Landmark num)) :
  (length hand < 21)%nat -> countOpenFingers hand = None.
Proof.
  intros Hshort. destruct (countOpenFingers hand) as [n|] eqn:Hn; [|reflexivity].
  apply countOpenFingers_length in Hn. lia.
Qed.

Lemma pinchOrVictory_total (hand : list (Landmark num)) (n : nat)
      (g : Globals num) :
  (20 < length hand)%nat ->
  exists m text color,
    pinchOrVictory hand n g = Some (setStatus m text color g) /\
    In (m, text, color) statusLines.
Proof.
  intros Hlen.
  destruct (lookup_lt_is_Some_2 hand 0) as [wrist H0]; [lia|].
  destruct (lookup_lt_is_Some_2 hand 4) as [thumbTip H4]; [lia|].
  destruct (lookup_lt_is_Some_2 hand 8) as [indexTip H8]; [lia|].
  destruct (lookup_lt_is_Some_2 hand 5) as [indexBase H5]; [lia|].
  destruct (lookup_lt_is_Some_2 hand 12) as [middleTip H12]; [lia|].
  destruct (lookup_lt_is_Some_2 hand 9) as [middleBase H9]; [lia|].
  rewrite (pinchOrVictory_eq hand n g _ _ _ _ _ _ H0 H4 H8 H5 H12 H9).
  destruct (ltb _ _); [|destruct (_ && _)];
    do 3 eexists; (split; [reflexivity|]); simpl; tauto.
Qed.

(** On a first hand with all its joints the call goes through. *)
Lemma handleGestures_total (result : DetectionResult num) (g : Globals num)
      hand rest :
  landmarks result = Some (hand :: rest) ->
  (20 < length hand)%nat ->
  exists m text color joint9,
    hand !! 9%nat = Some joint9 /\
    In (m, text, color) statusLines /\
    handleGestures result g
    = Some (setRotation (mul (sub (lm_x joint9) (lit 0.5)) (lit 5))
                        (setStatus m text color g)).
Proof.
  intros Hres Hlen.
  destruct (countOpenFingers_total hand Hlen) as [n Hn].
  destruct (lookup_lt_is_Some_2 hand 9) as [joint9 H9]; [lia|].
  rewrite (handleGestures_first_hand result g hand rest n joint9 Hres Hn H9).
  destruct (3 <=? n)%nat.
  - exists EXPLODE, "Status: Hand OPEN -> Explode!"%string, "#ff0000"%string,
      joint9.
    split; [exact H9|]. split; [simpl; tauto | reflexivity].
  - destruct (pinchOrVictory_total hand n g Hlen)
      as (m & text & color & -> & Hin).
    exists m, text, color, joint9. repeat split; assumption.
Qed.

(** X1. [handleGestures] fails, with the [TypeError] of reading a
    coordinate of a missing joint, exactly when the first hand of the
    result has fewer than 21 joints; without a hand, and with a complete
    first hand, it always goes through. *)
Theorem handleGestures_throws_iff (result : DetectionResult num)
        (g : Globals num) :
  handleGestures result g = None <->
  exists hand rest,
    landmarks result = Some (hand :: rest) /\ (length hand < 21)%nat.
Proof.
  split.
  - intros Hthrow.
    destruct (landmarks result) as [[|hand rest]|] eqn:Hres;
      try (unfold handleGestures in Hthrow; rewrite Hres in Hthrow;
           discriminate).
    exists hand, rest. split; [reflexivity|].
    destruct (le_lt_dec 21 (length hand)) as [Hfull | Hshort]; [|exact Hshort].
    destruct (handleGestures_total result g hand rest Hres)
      as (m & text & color & joint9 & _ & _ & Hrun); [lia|].
    rewrite Hrun in Hthrow. discriminate.
  - intros (hand & rest & Hres & Hshort).
    unfold handleGestures. rewrite Hres.
    rewrite (countOpenFingers_short hand Hshort). reflexivity.
Qed.

(** X2. Whenever a call of [handleGestures] goes through, its outcome
    does not depend on the globals it found: mode, status line and
    rotation speed are all overwritten in every branch, so the call on
    the same detection result from any other prior state goes through
    as well and ends in the same state.  No trace of the previous
    gesture is left. *)
Theorem handleGestures_forgets (result : DetectionResult num)
        (g1 g2 g' : Globals num) :
  handleGestures result g1 = Some g' ->
  handleGestures result g2 = Some g'.
Proof.
  intros Hrun. rewrite <- Hrun. clear Hrun g'.
  destruct (landmarks result) as [[|hand rest]|] eqn:Hres;
    try (unfold handleGestures; rewrite Hres; reflexivity).
  destruct (le_lt_dec 21 (length hand)) as [Hfull | Hshort].
  - destruct (countOpenFingers_total hand) as [n Hn]; [lia|].
    destruct (lookup_lt_is_Some_2 hand 9) as [joint9 H9]; [lia|].
    rewrite !(handleGestures_first_hand result _ hand rest n joint9 Hres Hn H9).
    destruct (3 <=? n)%nat; [reflexivity|].
    destruct (lookup_lt_is_Some_2 hand 0) as [wrist H0]; [lia|].
    destruct (lookup_lt_is_Some_2 hand 4) as [thumbTip H4]; [lia|].
    destruct (lookup_lt_is_Some_2 hand 8) as [indexTip H8]; [lia|].
    destruct (lookup_lt_is_Some_2 hand 5) as [indexBase H5]; [lia|].
    destruct (lookup_lt_is_Some_2 hand 12) as [middleTip H12]; [lia|].
    rewrite !(pinchOrVictory_eq hand n _ _ _ _ _ _ _ H0 H4 H8 H5 H12 H9).
    destruct (ltb _ _); [|destruct (_ && _)]; reflexivity.
  - unfold handleGestures. rewrite Hres.
    rewrite (countOpenFingers_short hand Hshort). reflexivity.
Qed.

(** X3. Whenever [handleGestures] goes through, the mode and the status
    line it leaves belong together: they are one of the five fixed
    triples of mode, text and colour. *)
Theorem status_matches_mode (result : DetectionResult num) (g g' : Globals num) :
  handleGestures result g = Some g' ->
  In (statusOf g') statusLines.
Proof.
  intros Hrun.
  destruct (landmarks result) as [[|hand rest]|] eqn:Hres;
    try (unfold handleGestures in Hrun; rewrite Hres in Hrun;
         injection Hrun as <-; simpl; tauto).
  destruct (le_lt_dec 21 (length hand)) as [Hfull | Hshort].
  - destruct (handleGestures_total result g hand rest Hres)
      as (m & text & color & joint9 & _ & Hin & Hrun'); [lia|].
    rewrite Hrun' in Hrun. injection Hrun as <-. exact Hin.
  - exfalso. unfold handleGestures in Hrun. rewrite Hres in Hrun.
    rewrite (countOpenFingers_short hand Hshort) in Hrun. discriminate.
Qed.

End ClassifierFacts.

Section ClassifierTable.
Context {num : Type} `{!JSNumber num}.

(** X4. The decision of [handleGestures] on a complete first hand, in
    both directions: EXPLODE exactly with three or more open fingers;
    SPHERE exactly with fewer and a pinch; FUYO exactly with fewer, no
    pinch, two open fingers and index and middle open at ratio 1.1;
    TREE exactly in the remaining case. *)
Theorem mode_decision_table (result : DetectionResult num) (g : Globals num)
        (hand : list (Landmark num)) (rest : list (list (Landmark num)))
        (n : nat)
        (wrist thumbTip indexTip indexBase middleTip middleBase : Landmark num) :
  landmarks result = Some (hand :: rest) ->
  countOpenFingers hand = Some n ->
  hand !! 0%nat = Some wrist ->
  hand !! 4%nat = Some thumbTip ->
  hand !! 8%nat = Some indexTip ->
  hand !! 5%nat = Some indexBase ->
  hand !! 12%nat = Some middleTip ->
  hand !! 9%nat = Some middleBase ->
  exists g',
    handleGestures result g = Some g' /\
    (mode g' = EXPLODE <-> (3 <= n)%nat) /\
    (mode g' = SPHERE <->
     (n < 3)%nat /\ ltb (planarDist thumbTip indexTip) (lit 0.05) = true) /\
    (mode g' = FUYO <->
     (n < 3)%nat /\ ltb (planarDist thumbTip indexTip) (lit 0.05) = false /\
     n = 2%nat /\
     isOpenAt 1.1 wrist indexTip indexBase = true /\
     isOpenAt 1.1 wrist middleTip middleBase = true) /\
    (mode g' = TREE <->
     (n < 3)%nat /\ ltb (planarDist thumbTip indexTip) (lit 0.05) = false /\
     ~ (n = 2%nat /\
        isOpenAt 1.1 wrist indexTip indexBase = true /\
        isOpenAt 1.1 wrist middleTip middleBase = true)).
Proof.
  intros Hres Hn H0 H4 H8 H5 H12 H9.
  rewrite (handleGestures_first_hand result g hand rest n middleBase Hres Hn H9).
  rewrite (pinchOrVictory_eq hand n g _ _ _ _ _ _ H0 H4 H8 H5 H12 H9).
  destruct (Nat.leb_spec 3 n) as [Hopen | Hfew];
    [|destruct (ltb (planarDist thumbTip indexTip) (lit 0.05));
      [|destruct (Nat.eqb_spec n 2) as [Htwo | Htwo];
        destruct (isOpenAt 1.1 wrist indexTip indexBase);
        destruct (isOpenAt 1.1 wrist middleTip middleBase)]];
    simpl; eexists; (split; [reflexivity|]); simpl;
    repeat split; intros; try discriminate; try lia; try tauto;
    try (exfalso; intuition (discriminate || lia)).
Qed.

(** Distances read the two planar coordinates only. *)
Lemma planarDist_planar (a a' b b' : Landmark num) :
  lm_x a' = lm_x a -> lm_y a' = lm_y a ->
  lm_x b' = lm_x b -> lm_y b' = lm_y b ->
  planarDist a' b' = planarDist a b.
Proof. unfold planarDist. intros -> -> -> ->. reflexivity. Qed.

Section Irrelevant.
Variable f : nat -> Landmark num -> Landmark num.
Hypothesis f_planar :
  forall j l, In j usedJoints -> lm_x (f j l) = lm_x l /\ lm_y (f j l) = lm_y l.

Lemma planarDist_imap (i j : nat) (a b : Landmark num) :
  In i usedJoints -> In j usedJoints ->
  planarDist (f i a) (f j b) = planarDist a b.
Proof using f_planar.
  intros Hi Hj. destruct (f_planar i a Hi), (f_planar j b Hj).
  apply planarDist_planar; assumption.
Qed.

Lemma fingerStep_imap (hand : list (Landmark num)) (a i : nat) :
  fingerStep (imap f hand) a i = fingerStep hand a i.
Proof using f_planar.
  unfold fingerStep.
  destruct i as [|[|[|[|i]]]]; simpl; try reflexivity;
    rewrite !list_lookup_imap;
    repeat match goal with
           | |- context [hand !! ?j] => destruct (hand !! j); simpl
           end;
    try reflexivity;
    rewrite !planarDist_imap by (simpl; tauto); reflexivity.
Qed.

Lemma countOpenFingers_imap (hand : list (Landmark num)) :
  countOpenFingers (imap f hand) = countOpenFingers hand.
Proof using f_planar.
  unfold countOpenFingers. simpl. rewrite fingerStep_imap.
  destruct (fingerStep hand 0 0) as [n0|]; simpl; [|reflexivity].
  rewrite fingerStep_imap.
  destruct (fingerStep hand n0 1) as [n1|]; simpl; [|reflexivity].
  rewrite fingerStep_imap.
  destruct (fingerStep hand n1 2) as [n2|]; simpl; [|reflexivity].
  rewrite fingerStep_imap. reflexivity.
Qed.

Lemma pinchOrVictory_imap (hand : list (Landmark num)) (n : nat)
      (g : Globals num) :
  pinchOrVictory (imap f hand) n g = pinchOrVictory hand n g.
Proof using f_planar.
  unfold pinchOrVictory. rewrite !list_lookup_imap.
  repeat match goal with
         | |- context [hand !! ?j] => destruct (hand !! j); simpl
         end;
    try reflexivity.
  rewrite !planarDist_imap by (simpl; tauto). reflexivity.
Qed.

(** X5. Only the planar coordinates of ten joints reach the classifier:
    whatever is done to the depth of the landmarks, to the other eleven
    joints and to the hands after the first leaves the outcome of
    [handleGestures] as it was. *)
Theorem only_planar_joints_matter (hand : list (Landmark num))
        (rest rest' : list (list (Landmark num))) (g : Globals num) :
  handleGestures {| landmarks := Some (imap f hand :: rest') |} g
  = handleGestures {| landmarks := Some (hand :: rest) |} g.
Proof using f_planar.
  unfold handleGestures. cbn [landmarks].
  rewrite countOpenFingers_imap.
  destruct (countOpenFingers hand) as [n|]; simpl; [|reflexivity].
  rewrite pinchOrVictory_imap.
  destruct (if (3 <=? n)%nat then _ else _) as [g1|]; simpl; [|reflexivity].
  rewrite list_lookup_imap.
  destruct (hand !! 9%nat) as [joint9|]; simpl; [|reflexivity].
  destruct (f_planar 9 joint9) as [-> _]; [simpl; tauto|]. reflexivity.
Qed.

End Irrelevant.
End ClassifierTable.

Section ExactClassifier.
Local Open Scope R_scope.

Lemma planarDist_shifted (dx dy : R) (a b : Landmark R) :
  planarDist (shifted dx dy a) (shifted dx dy b) = planarDist a b.
Proof.
  unfold planarDist, shifted.
  cbn [lm_x lm_y Math_hypot sub real_number]. unfold Rhypot.
  replace (lm_x a + dx - (lm_x b + dx)) with (lm_x a - lm_x b) by ring.
  replace (lm_y a + dy - (lm_y b + dy)) with (lm_y a - lm_y b) by ring.
  reflexivity.
Qed.

Lemma fingerStep_shifted (dx dy : R) (hand : list (Landmark R)) (a i : nat) :
  fingerStep (shifted dx dy <$> hand) a i = fingerStep hand a i.
Proof.
  unfold fingerStep.
  destruct (tips !! i) as [ti|]; [|reflexivity].
  destruct (bases !! i) as [bi|]; [|reflexivity].
  cbn [mbind option_bind]. rewrite !list_lookup_fmap.
  destruct (hand !! ti) as [tip|]; [|reflexivity].
  destruct (hand !! 0%nat) as [wrist|]; [|reflexivity].
  destruct (hand !! bi) as [base|]; [|reflexivity].
  cbn [fmap option_fmap option_map mbind option_bind].
  rewrite !planarDist_shifted. reflexivity.
Qed.

Lemma fingerLoop_shifted (dx dy : R) (hand : list (Landmark R))
      (indices : list nat) (a : nat) :
  fingerLoop (shifted dx dy <$> hand) a indices = fingerLoop hand a indices.
Proof.
  revert a. induction indices as [|i indices IH]; intros a; [reflexivity|].
  cbn [fingerLoop]. rewrite fingerStep_shifted.
  destruct (fingerStep hand a i) as [n|]; [|reflexivity].
  cbn [mbind option_bind]. apply IH.
Qed.

Lemma countOpenFingers_shifted (dx dy : R) (hand : list (Landmark R)) :
  countOpenFingers (shifted dx dy <$> hand) = countOpenFingers hand.
Proof. unfold countOpenFingers. apply fingerLoop_shifted. Qed.

Lemma pinchOrVictory_shifted (dx dy : R) (hand : list (Landmark R)) (n : nat)
      (g : Globals R) :
  pinchOrVictory (shifted dx dy <$> hand) n g = pinchOrVictory hand n g.
Proof.
  unfold pinchOrVictory. rewrite !list_lookup_fmap.
  repeat match goal with
         | |- context [hand !! ?j] =>
             destruct (hand !! j);
             cbn [fmap option_fmap option_map mbind option_bind]
         end;
    try reflexivity.
  rewrite !planarDist_shifted. reflexivity.
Qed.

(** X6. Moving the whole hand in the image plane by [(dx, dy)] changes
    neither the mode nor the status line [handleGestures] leaves; only
    the rotation speed follows the hand, by [5 * dx] (exact arithmetic). *)
Theorem mode_is_translation_invariant (dx dy : R) (hand : list (Landmark R))
        (rest rest' : list (list (Landmark R))) (g : Globals R) :
  handleGestures {| landmarks := Some ((shifted dx dy <$> hand) :: rest') |} g
  = (fun g' => setRotation (autoRotateSpeed g' + 5 * dx) g')
      <$> handleGestures {| landmarks := Some (hand :: rest) |} g.
Proof.
  unfold handleGestures. cbn [landmarks].
  rewrite countOpenFingers_shifted.
  destruct (countOpenFingers hand) as [n|]; [|reflexivity].
  cbn [mbind option_bind]. rewrite pinchOrVictory_shifted.
  destruct (if (3 <=? n)%nat then _ else _) as [g1|]; [|reflexivity].
  cbn [mbind option_bind]. rewrite list_lookup_fmap.
  destruct (hand !! 9%nat) as [joint9|]; [|reflexivity].
  cbn [fmap option_fmap option_map mbind option_bind].
  unfold setRotation, shifted.
  cbn [mode statusText statusColor autoRotateSpeed lm_x mul sub lit
       real_number].
  do 2 f_equal. unfold Q2R. simpl. lra.
Qed.

(** X7. On a complete first hand whose middle-finger base lies inside
    the frame (x between 0 and 1), the rotation speed [handleGestures]
    sets lies between -2.5 and 2.5; it is negative exactly for a hand in
    the left half, zero exactly at the centre line (exact arithmetic). *)
Theorem rotation_speed_range (result : DetectionResult R) (g : Globals R)
        (hand : list (Landmark R)) (rest : list (list (Landmark R)))
        (joint9 : Landmark R) :
  landmarks result = Some (hand :: rest) ->
  length hand = 21%nat ->
  hand !! 9%nat = Some joint9 ->
  0 <= lm_x joint9 <= 1 ->
  exists g',
    handleGestures result g = Some g' /\
    -2.5 <= autoRotateSpeed g' <= 2.5 /\
    (autoRotateSpeed g' < 0 <-> lm_x joint9 < 0.5) /\
    (autoRotateSpeed g' = 0 <-> lm_x joint9 = 0.5).
Proof.
  intros Hres Hlen H9 Hx.
  destruct (handleGestures_total result g hand rest Hres)
    as (m & text & color & joint9' & H9' & _ & Hrun); [lia|].
  rewrite H9 in H9'. injection H9' as <-.
  eexists. split; [exact Hrun|].
  unfold setRotation. cbn [autoRotateSpeed mul sub lit real_number].
  unfold Q2R. simpl. repeat split; intros; lra.
Qed.

End ExactClassifier.

(** *** The further classifier statements on sample hands *)

Lemma handleGestures_forgets_witness :
  handleGestures (num:=double) (detected [victoryHand])
    {| mode := EXPLODE;
       statusText := "Status: Hand OPEN -> Explode!";
       statusColor := "#ff0000";
       autoRotateSpeed := lit 2 |}
  = Some {| mode := FUYO;
            statusText := "Status: Victory (✌️) -> FUYO Mode!";
            statusColor := "#ffff00";
            autoRotateSpeed := mul (sub (lit 0.5) (lit 0.5)) (lit 5) |}.
Proof.
  apply (handleGestures_forgets (num:=double) (detected [victoryHand])
           initialGlobals).
  vm_compute. reflexivity.
Defined.

Lemma status_matches_mode_witness :
  In (statusOf (num:=double)
        {| mode := FUYO;
           statusText := "Status: Victory (✌️) -> FUYO Mode!";
           statusColor := "#ffff00";
           autoRotateSpeed := mul (sub (lit 0.5) (lit 0.5)) (lit 5) |})
     statusLines.
Proof.
  apply (status_matches_mode (num:=double) (detected [victoryHand])
           initialGlobals).
  vm_compute. reflexivity.
Defined.

Lemma mode_decision_table_witness :
  exists g' : Globals double,
    handleGestures (detected [pinchHand]) initialGlobals = Some g' /\
    (mode g' = EXPLODE <-> (3 <= 2)%nat) /\
    (mode g' = SPHERE <->
     (2 < 3)%nat /\
     ltb (num:=double) (planarDist (pt 0.50 0.50) (pt 0.52 0.51)) (lit 0.05) = true) /\
    (mode g' = FUYO <->
     (2 < 3)%nat /\
     ltb (num:=double) (planarDist (pt 0.50 0.50) (pt 0.52 0.51)) (lit 0.05) = false /\
     2%nat = 2%nat /\
     isOpenAt (num:=double) 1.1 (pt 0.5 0.9) (pt 0.52 0.51) (pt 0.42 0.6) = true /\
     isOpenAt (num:=double) 1.1 (pt 0.5 0.9) (pt 0.5 0.25) (pt 0.5 0.58) = true) /\
    (mode g' = TREE <->
     (2 < 3)%nat /\
     ltb (num:=double) (planarDist (pt 0.50 0.50) (pt 0.52 0.51)) (lit 0.05) = false /\
     ~ (2%nat = 2%nat /\
        isOpenAt (num:=double) 1.1 (pt 0.5 0.9) (pt 0.52 0.51) (pt 0.42 0.6) = true /\
        isOpenAt (num:=double) 1.1 (pt 0.5 0.9) (pt 0.5 0.25) (pt 0.5 0.58) = true)).
Proof.
  apply (mode_decision_table (num:=double) (detected [pinchHand]) initialGlobals
           pinchHand [] 2 (pt 0.5 0.9) (pt 0.50 0.50) (pt 0.52 0.51)
           (pt 0.42 0.6) (pt 0.5 0.25) (pt 0.5 0.58)).
  - reflexivity.
  - vm_compute. reflexivity.
  - reflexivity.
  - reflexivity.
  - reflexivity.
  - reflexivity.
  - reflexivity.
  - reflexivity.
Defined.

(** Every depth set to 7, every joint the classifier does not read moved
    to the corner of the frame, and a second hand added. *)
Lemma only_planar_joints_matter_witness :
  handleGestures (num:=double)
    {| landmarks :=
         Some (imap (fun j l => if bool_decide (j ∈ usedJoints)
                                then withDepth (lit 7) l else pt 0 0)
                    victoryHand :: [openHand]) |} initialGlobals
  = handleGestures {| landmarks := Some (victoryHand :: []) |} initialGlobals.
Proof.
  apply (only_planar_joints_matter (num:=double)
           (fun j l => if bool_decide (j ∈ usedJoints)
                       then withDepth (lit 7) l else pt 0 0)).
  intros j l Hj. apply list_elem_of_In in Hj.
  rewrite bool_decide_eq_true_2 by exact Hj. split; reflexivity.
Defined.

Lemma rotation_speed_range_witness :
  exists g' : Globals R,
    handleGestures (detected [fistHand; openHand]) initialGlobals = Some g' /\
    (-2.5 <= autoRotateSpeed g' <= 2.5)%R /\
    ((autoRotateSpeed g' < 0)%R <-> (lm_x (num:=R) (pt 0.7 0.58) < 0.5)%R) /\
    (autoRotateSpeed g' = 0%R <-> lm_x (num:=R) (pt 0.7 0.58) = 0.5%R).
Proof.
  apply (rotation_speed_range (detected [fistHand; openHand]) initialGlobals
           fistHand [openHand] (pt 0.7 0.58)).
  - reflexivity.
  - reflexivity.
  - reflexivity.
  - cbn [pt lm_x lit real_number]. unfold Q2R. simpl. lra.
Defined.

(* ===================================================================== *)
(** ** More on the glyph sampler *)
(* ===================================================================== *)

Section ScanFacts.

Lemma foldl_push {A B : Type} (p : B -> bool) (h : B -> A) (acc : list A)
      (l : list B) :
  foldl (fun acc b => if p b then acc ++ [h b] else acc) acc l
  = acc ++ map h (List.filter p l).
Proof.
  revert acc. induction l as [|b l IH]; intros acc; simpl.
  - rewrite app_nil_r. reflexivity.
  - destruct (p b); rewrite IH; simpl; [|reflexivity].
    rewrite <- app_assoc. reflexivity.
Qed.

Lemma foldl_append {A B : Type} (h : B -> list A) (acc : list A) (l : list B) :
  foldl (fun acc b => acc ++ h b) acc l = acc ++ flat_map h l.
Proof.
  revert acc. induction l as [|b l IH]; intros acc; simpl.
  - rewrite app_nil_r. reflexivity.
  - rewrite IH, <- app_assoc. reflexivity.
Qed.

(** The scan keeps the bright pixels, in row-major order. *)
Lemma scan_brightPixels (data : list Z) : scan data = brightPixels data.
Proof.
  unfold scan, brightPixels.
  rewrite <- (app_nil_l (flat_map _ _)).
  rewrite <- foldl_append.
  generalize (@nil (nat * nat)). generalize (seq 0 height).
  intros rows. induction rows as [|y rows IH]; intros acc; [reflexivity|].
  cbn [foldl flat_map]. rewrite <- IH. f_equal. unfold scanRow.
  apply foldl_push.
Qed.

Lemma brightPixels_In (data : list Z) (x y : nat) :
  In (x, y) (brightPixels data) <->
  (x < width)%nat /\ (y < height)%nat /\ bright data x y = true.
Proof.
  unfold brightPixels. rewrite in_flat_map. split.
  - intros (y' & Hy' & Hin). apply in_map_iff in Hin as (x' & Heq & Hx').
    injection Heq as -> ->. apply filter_In in Hx' as [Hx' Hbright].
    apply in_seq in Hx', Hy'. repeat split; [lia | lia | exact Hbright].
  - intros (Hx & Hy & Hbright). exists y. split; [apply in_seq; lia|].
    apply in_map_iff. exists x. split; [reflexivity|].
    apply filter_In. split; [apply in_seq; lia | exact Hbright].
Qed.

Lemma NoDup_flat_map {A B : Type} (h : B -> list A) (l : list B) :
  List.NoDup l ->
  (forall b, In b l -> List.NoDup (h b)) ->
  (forall b b' a, In b l -> In b' l -> In a (h b) -> In a (h b') -> b = b') ->
  List.NoDup (flat_map h l).
Proof.
  induction l as [|b l IH]; intros Hl Hh Hdisj; cbn [flat_map];
    [constructor|].
  apply List.NoDup_cons_iff in Hl as [Hb Hl].
  apply List.NoDup_app.
  - apply Hh. left. reflexivity.
  - apply IH; [exact Hl | intros; apply Hh; right; assumption|].
    intros b1 b2 a H1 H2. apply Hdisj; right; assumption.
  - intros a Ha Ha'. apply in_flat_map in Ha' as (b' & Hb' & Ha').
    assert (b = b') by (apply (Hdisj b b' a); simpl; auto).
    subst b'. exact (Hb Hb').
Qed.

(** X8. [validPixels] after the two scanning loops holds exactly the
    pixels of the 200x100 frame whose red channel exceeds 128, each one
    once. *)
Theorem scan_keeps_bright_pixels_once (data : list Z) :
  (forall x y,
     In (x, y) (scan data) <->
     (x < width)%nat /\ (y < height)%nat /\ bright data x y = true) /\
  List.NoDup (scan data).
Proof.
  rewrite scan_brightPixels. split; [intros x y; apply brightPixels_In|].
  unfold brightPixels. apply NoDup_flat_map.
  - apply List.seq_NoDup.
  - intros y _. apply Finite.Injective_map_NoDup.
    + intros x x' [= ->]. reflexivity.
    + apply List.NoDup_filter, List.seq_NoDup.
  - intros y y' [x yy] _ _ Hin Hin'.
    apply in_map_iff in Hin as (x1 & [= _ <-] & _).
    apply in_map_iff in Hin' as (x2 & [= _ <-] & _). reflexivity.
Qed.

End ScanFacts.

Section ExactSampling.
Local Open Scope R_scope.
Variable random : nat -> R.
Hypothesis random_unit : forall j, 0 <= random j < 1.

(** [Math.floor(Math.random() * validPixels.length)] is an index of
    [validPixels]. *)
Lemma pick_unit (validPixels : list (nat * nat)) (u : R) :
  validPixels <> [] -> 0 <= u < 1 ->
  exists pixel,
    pick validPixels (Math_floor (mul u (ofNat (length validPixels))))
    = Some pixel /\
    In pixel validPixels.
Proof.
  intros Hne [Hu0 Hu1].
  assert (Hlen : (0 < length validPixels)%nat)
    by (destruct validPixels; [congruence | simpl; lia]).
  cbn [Math_floor mul real_number]. rewrite ofNat_real.
  set (len := length validPixels) in *.
  assert (HL : 0 < INR len) by (apply lt_0_INR; exact Hlen).
  pose proof (Zfloor_bound (u * INR len)) as [Hlow Hhigh].
  assert (Hx0 : 0 <= u * INR len) by (apply Rmult_le_pos; lra).
  assert (Hx1 : u * INR len < INR len) by nra.
  assert (Hge : (0 <= Zfloor (u * INR len))%Z).
  { apply Z.lt_succ_r. apply lt_IZR. rewrite succ_IZR. lra. }
  assert (Hlt : (Zfloor (u * INR len) < Z.of_nat len)%Z).
  { apply lt_IZR. rewrite <- INR_IZR_INZ. lra. }
  assert (Hidx : (Z.to_nat (Zfloor (u * INR len)) < len)%nat) by lia.
  destruct (lookup_lt_is_Some_2 validPixels _ Hidx) as [pixel Hpixel].
  exists pixel. split.
  - unfold pick. destruct (Zfloor (u * INR len)); [exact Hpixel.. | lia].
  - apply list_elem_of_In. eapply list_elem_of_lookup_2. exact Hpixel.
Qed.

(** The three coordinates the loop body writes for a pixel. *)
Lemma glyph_coordinates (pixel : nat * nat) :
  mul (sub (ofNat pixel.1) (div (ofNat width) (lit 2))) (lit 0.4)
  = (pixelToWorld pixel).1 /\
  add (mul (neg (sub (ofNat pixel.2) (div (ofNat height) (lit 2)))) (lit 0.4))
      (lit 20)
  = (pixelToWorld pixel).2.
Proof.
  unfold pixelToWorld. rewrite !ofNat_real.
  cbn [fst snd mul sub add neg div lit real_number].
  unfold width, height, Q2R. simpl. split; lra.
Qed.

(** State of the sampling loop after [remaining] more particles. *)
Lemma sampleLoop_sampled (validPixels : list (nat * nat))
      (remaining i : nat) (positions : list R) (k : nat) :
  validPixels <> [] ->
  exists positions',
    sampleLoop random validPixels remaining i positions k
    = Some (positions', (k + 2 * remaining)%nat) /\
    length positions' = length positions /\
    (forall idx, (idx < i * 3)%nat -> positions' !! idx = positions !! idx) /\
    (forall j, (i <= j < i + remaining)%nat ->
       (j * 3 + 2 < length positions)%nat ->
       exists pixel,
         In pixel validPixels /\
         positions' !! (j * 3)%nat = Some (pixelToWorld pixel).1 /\
         positions' !! (j * 3 + 1)%nat = Some (pixelToWorld pixel).2 /\
         positions' !! (j * 3 + 2)%nat
         = Some ((random (k + 2 * (j - i) + 1)%nat - 0.5) * 2)).
Proof using random_unit.
  intros Hne. revert i positions k.
  induction remaining as [|remaining IH]; intros i positions k.
  - exists positions. cbn [sampleLoop].
    rewrite Nat.mul_0_r, Nat.add_0_r.
    repeat split; try reflexivity. intros j Hj. lia.
  - cbn [sampleLoop].
    destruct (Nat.eqb_spec (length validPixels) 0) as [Hzero | _].
    { destruct validPixels; [congruence | discriminate]. }
    destruct (pick_unit validPixels (random k) Hne (random_unit k))
      as (pixel & -> & Hin).
    cbn [mbind option_bind].
    destruct (glyph_coordinates pixel) as [-> ->].
    fold (put3 positions i (pixelToWorld pixel).1 (pixelToWorld pixel).2
               (mul (sub (random (S k)) (lit 0.5)) (lit 2))).
    set (positions1 := put3 positions i _ _ _).
    destruct (IH (S i) positions1 (S (S k)))
      as (positions' & Hrun & Hlen & Hbefore & Hafter).
    exists positions'. split.
    { rewrite Hrun. do 2 f_equal. lia. }
    assert (Hlen1 : length positions1 = length positions)
      by apply put3_length.
    split; [lia|]. split.
    + intros idx Hidx. rewrite Hbefore by lia.
      apply put3_other. lia.
    + intros j Hj Hroom.
      destruct (decide (j = i)) as [-> | Hji].
      * exists pixel. split; [exact Hin|].
        rewrite !Hbefore by lia. unfold positions1.
        pose proof (put3_same positions i (pixelToWorld pixel).1
                      (pixelToWorld pixel).2
                      (mul (sub (random (S k)) (lit 0.5)) (lit 2))) as Hsame.
        pose proof (Hsame 0%nat) as H0. pose proof (Hsame 1%nat) as H1.
        pose proof (Hsame 2%nat) as H2.
        rewrite Nat.add_0_r in H0.
        rewrite H0, H1, H2 by lia. cbn [axisOf].
        repeat split.
        replace (k + 2 * (i - i) + 1)%nat with (S k) by lia.
        cbn [mul sub lit real_number]. unfold Q2R. simpl.
        f_equal. lra.
      * destruct (Hafter j) as (pixel' & Hin' & Hx & Hy & Hz);
          [lia | lia |].
        exists pixel'. repeat split; try assumption.
        rewrite Hz.
        replace (S (S k) + 2 * (j - S i) + 1)%nat
          with (k + 2 * (j - i) + 1)%nat by lia.
        reflexivity.
Qed.

End ExactSampling.

Section ExactGlyph.
Local Open Scope R_scope.

(** X9. With at least one bright pixel in the frame and draws in [0,1),
    [getFuyoPositions] raises no error, makes two draws per particle and
    returns [count * 3] numbers; every particle sits on a bright pixel
    of the frame, mapped at 0.4 units per pixel, so that its glyph
    target lies in the box -40 <= x <= 39.6, 0.4 <= y <= 40, -1 <= z < 1
    (exact arithmetic). *)
Theorem glyph_samples_lie_on_mask (random : nat -> R) (data : list Z)
        (count k i : nat) :
  (exists x y, (x < width)%nat /\ (y < height)%nat /\ bright data x y = true) ->
  (forall j, 0 <= random j < 1) ->
  (i < count)%nat ->
  exists positions pixel z,
    getFuyoPositions random data count k
    = Some (positions, (k + 2 * count)%nat) /\
    length positions = (count * 3)%nat /\
    (pixel.1 < width)%nat /\ (pixel.2 < height)%nat /\
    bright data pixel.1 pixel.2 = true /\
    pointAt positions i
    = Some ((pixelToWorld pixel).1, (pixelToWorld pixel).2, z) /\
    -40 <= (pixelToWorld pixel).1 <= 39.6 /\
    0.4 <= (pixelToWorld pixel).2 <= 40 /\
    -1 <= z < 1.
Proof.
  intros (x0 & y0 & Hx0 & Hy0 & Hbright0) Hunit Hi.
  assert (Hne : scan data <> []).
  { intros Hnil.
    assert (Hin : In (x0, y0) (scan data))
      by (rewrite scan_brightPixels; apply brightPixels_In; auto).
    rewrite Hnil in Hin. exact Hin. }
  unfold getFuyoPositions.
  destruct (sampleLoop_sampled random Hunit (scan data) count 0
              (Float32Array (count * 3)) k Hne)
    as (positions & Hrun & Hlen & _ & Hafter).
  assert (Hsize : length (Float32Array (num:=R) (count * 3)) = (count * 3)%nat)
    by (unfold Float32Array; apply length_replicate).
  destruct (Hafter i) as ([px py] & Hin & Hx & Hy & Hz); [lia | lia |].
  rewrite scan_brightPixels in Hin. apply brightPixels_In in Hin
    as (Hpx & Hpy & Hbright).
  exists positions, (px, py), ((random (k + 2 * (i - 0) + 1)%nat - 0.5) * 2).
  split; [exact Hrun|]. split; [lia|].
  split; [exact Hpx|]. split; [exact Hpy|]. split; [exact Hbright|].
  split; [unfold pointAt; rewrite Hx, Hy, Hz; reflexivity|].
  unfold pixelToWorld, width, height in *. cbn [fst snd] in *.
  assert (Hpx' : INR px <= 199).
  { replace 199 with (INR 199) by (simpl; lra). apply le_INR. lia. }
  assert (Hpy' : INR py <= 99).
  { replace 99 with (INR 99) by (simpl; lra). apply le_INR. lia. }
  pose proof (pos_INR px). pose proof (pos_INR py).
  pose proof (Hunit (k + 2 * (i - 0) + 1)%nat).
  repeat split; lra.
Qed.

End ExactGlyph.

Lemma glyph_samples_lie_on_mask_witness :
  exists (positions : list R) (pixel : nat * nat) (z : R),
    getFuyoPositions halves (replicate 32 200%Z) 3 0
    = Some (positions, (0 + 2 * 3)%nat) /\
    length positions = (3 * 3)%nat /\
    (pixel.1 < width)%nat /\ (pixel.2 < height)%nat /\
    bright (replicate 32 200%Z) pixel.1 pixel.2 = true /\
    pointAt positions 1
    = Some ((pixelToWorld pixel).1, (pixelToWorld pixel).2, z) /\
    (-40 <= (pixelToWorld pixel).1 <= 39.6)%R /\
    (0.4 <= (pixelToWorld pixel).2 <= 40)%R /\
    (-1 <= z < 1)%R.
Proof.
  apply (glyph_samples_lie_on_mask halves (replicate 32 200%Z) 3 0 1).
  - exists 0%nat, 0%nat. unfold width, height.
    split; [lia|]. split; [lia|]. reflexivity.
  - intros j. unfold halves. cbn [lit real_number]. unfold Q2R. simpl. lra.
  - lia.
Defined.

(* ===================================================================== *)
(** ** More on the start-up loop *)
(* ===================================================================== *)

Section StartUpFacts.
Context {num : Type} `{!JSNumber num} `{!JSMath num}.
Variable random : nat -> num.
Variable THREE_Color : Z -> Color num.

Lemma particleStep_tree (index : nat) (fuyoAll : list num)
      (d : PData num) (k i : nat) :
  let d' := (particleStep random THREE_Color index fuyoAll (d, k) i).1 in
  let p := treePoint (i * 3 + index) (random k) in
  targetPositions d' = put3 (targetPositions d) i p.1.1 p.1.2 p.2 /\
  positions d' = put3 (positions d) i p.1.1 p.1.2 p.2.
Proof.
  unfold particleStep.
  destruct (treePoint _ _) as [[x y] z].
  destruct (explodePoint _ _ _) as [[ex ey] ez].
  destruct (spherePoint _ _) as [[sx sy] sz].
  split; reflexivity.
Qed.

(** The tree and glyph buffers of one letter after its first [n]
    particles; the current positions are a copy of the tree targets. *)
Lemma fillGroup_tree_invariant (count index : nat) (fuyoAll : list num)
      (k n : nat) :
  (n <= count)%nat ->
  let st := foldl (particleStep random THREE_Color index fuyoAll)
                  (newPData count, k) (seq 0 n) in
  positions st.1 = targetPositions st.1 /\
  forall i axis, (i < n)%nat -> (axis < 3)%nat ->
    targetPositions st.1 !! (i * 3 + axis)%nat
      = Some (coord (treePoint (i * 3 + index) (random (k + 8 * i))) axis) /\
    fuyoPositions st.1 !! (i * 3 + axis)%nat
      = Some (get fuyoAll ((i * 3 + index) * 3 + axis)).
Proof.
  intros Hn. cbv zeta.
  set (Inv := fun n (st : PData num * nat) =>
              (n <= count)%nat ->
              st.2 = (k + 8 * n)%nat /\
              sized (count * 3) st.1 /\
              positions st.1 = targetPositions st.1 /\
              forall i axis, (i < n)%nat -> (axis < 3)%nat ->
                targetPositions st.1 !! (i * 3 + axis)%nat
                  = Some (coord (treePoint (i * 3 + index)
                                           (random (k + 8 * i))) axis) /\
                fuyoPositions st.1 !! (i * 3 + axis)%nat
                  = Some (get fuyoAll ((i * 3 + index) * 3 + axis))).
  enough (Hinv : Inv n (foldl (particleStep random THREE_Color index fuyoAll)
                              (newPData count, k) (seq 0 n)))
    by (destruct (Hinv Hn) as (_ & _ & Hcopy & Hdone); split; assumption).
  apply (foldl_seq_invariant Inv); unfold Inv.
  - intros _. split; [cbn [snd]; lia|]. split.
    { unfold sized, newPData, Float32Array.
      cbn [fst positions targetPositions randomPositions spherePositions
           fuyoPositions colors].
      rewrite !length_replicate. repeat split; reflexivity. }
    split; [reflexivity|]. intros i axis Hi. lia.
  - intros i [d k'] _ IH Hi. cbn [fst snd] in IH.
    destruct IH as (Hk & Hsized & Hcopy & Hdone); [lia|]. subst k'.
    pose proof (particleStep_tree index fuyoAll d (k + 8 * i) i) as Htree.
    cbv zeta in Htree. destruct Htree as [Ht Hp].
    pose proof (particleStep_fuyo random THREE_Color index fuyoAll d
                  (k + 8 * i) i) as Hf.
    pose proof (particleStep_sized random THREE_Color index fuyoAll d
                  (k + 8 * i) i (count * 3) Hsized) as Hsized'.
    rewrite particleStep_counter.
    split; [lia|]. split; [exact Hsized'|].
    split; [rewrite Hp, Ht, Hcopy; reflexivity|].
    destruct Hsized as (_ & Hlt & _ & _ & Hlf & _).
    intros j axis Hj Haxis. rewrite Ht, Hf.
    destruct (decide (j = i)) as [-> | Hji].
    + rewrite !put3_same by lia. unfold coord. split; [reflexivity|].
      destruct axis as [|[|[|axis]]]; try lia; cbn [axisOf];
        rewrite ?Nat.add_0_r; reflexivity.
    + rewrite !put3_other by lia. apply Hdone; lia.
Qed.

(** [letters.forEach] unrolled: the three groups and the draws made. *)
Lemma initParticles_unrolled (fuyoAll : list num) (k : nat) :
  initParticles random THREE_Color fuyoAll k
  = ([ (initGroup random THREE_Color 0 fuyoAll k).1;
       (initGroup random THREE_Color 1 fuyoAll
                  (k + 8 * (PARTICLE_COUNT / 3))).1;
       (initGroup random THREE_Color 2 fuyoAll
                  (k + 8 * (PARTICLE_COUNT / 3) + 8 * (PARTICLE_COUNT / 3))).1 ],
     (k + 8 * (PARTICLE_COUNT / 3) + 8 * (PARTICLE_COUNT / 3)
      + 8 * (PARTICLE_COUNT / 3))%nat).
Proof.
  unfold initParticles. cbn [foldl].
  pose proof (initGroup_counter random THREE_Color 0 fuyoAll k) as H0.
  destruct (initGroup random THREE_Color 0 fuyoAll k) as [d0 k0].
  cbn [snd] in H0. subst k0.
  pose proof (initGroup_counter random THREE_Color 1 fuyoAll
                (k + 8 * (PARTICLE_COUNT / 3))) as H1.
  destruct (initGroup random THREE_Color 1 fuyoAll _) as [d1 k1].
  cbn [snd] in H1. subst k1.
  pose proof (initGroup_counter random THREE_Color 2 fuyoAll
                (k + 8 * (PARTICLE_COUNT / 3) + 8 * (PARTICLE_COUNT / 3)))
    as H2.
  destruct (initGroup random THREE_Color 2 fuyoAll _) as [d2 k2].
  cbn [snd] in H2. subst k2. reflexivity.
Qed.

End StartUpFacts.

Section StartUpShape.
Context {num : Type} `{!JSNumber num} `{!JSMath num}.
Variable random : nat -> num.
Variable THREE_Color : Z -> Color num.

(** X10. Start-up builds exactly three groups, makes eight draws per
    particle (24000 in all), and in every group all six buffers have the
    same length, [PARTICLE_COUNT] = 3000 numbers for 1000 particles. *)
Theorem three_groups_of_equal_buffers (fuyoAllPositions : list num) (k : nat) :
  exists d0 d1 d2,
    initParticles random THREE_Color fuyoAllPositions k
    = ([d0; d1; d2], (k + 8 * PARTICLE_COUNT)%nat) /\
    sized PARTICLE_COUNT d0 /\ sized PARTICLE_COUNT d1 /\
    sized PARTICLE_COUNT d2.
Proof.
  rewrite initParticles_unrolled.
  assert (Hsize : (PARTICLE_COUNT / 3 * 3)%nat = PARTICLE_COUNT)
    by reflexivity.
  assert (Hsized : forall index k',
             sized PARTICLE_COUNT
                   (initGroup random THREE_Color index fuyoAllPositions k').1).
  { intros index k'.
    pose proof (initGroup_sized random THREE_Color index fuyoAllPositions k')
      as Hgroup.
    rewrite Hsize in Hgroup. exact Hgroup. }
  do 3 eexists. split; [|split; [|split]]; [|apply Hsized..].
  f_equal. rewrite particles_per_group.
  change PARTICLE_COUNT with (3 * 1000)%nat. lia.
Qed.

(** X11. The glyph positions sampled for all particles are dealt out in
    turn: the particle with global index [t] is particle [t / 3] of
    group [t mod 3], and its glyph target is entry [t] of the buffer
    [getFuyoPositions] returned. *)
Theorem glyph_positions_dealt_in_turn (fuyoAllPositions : list num)
        (k t axis : nat) :
  (t < PARTICLE_COUNT)%nat ->
  (axis < 3)%nat ->
  exists data,
    (initParticles random THREE_Color fuyoAllPositions k).1 !! (t mod 3)%nat
    = Some data /\
    fuyoPositions data !! (t / 3 * 3 + axis)%nat
    = Some (get fuyoAllPositions (t * 3 + axis)).
Proof.
  intros Ht Haxis.
  assert (Hg : (t mod 3 < 3)%nat) by (apply Nat.mod_upper_bound; lia).
  assert (Hi : (t / 3 < PARTICLE_COUNT / 3)%nat).
  { rewrite particles_per_group. change PARTICLE_COUNT with (3 * 1000)%nat in Ht.
    apply Nat.Div0.div_lt_upper_bound. lia. }
  eexists. split; [apply initParticles_groups; exact Hg|].
  unfold initGroup, fillGroup.
  destruct (fillGroup_tree_invariant random THREE_Color (PARTICLE_COUNT / 3)
              (t mod 3) fuyoAllPositions
              (k + t mod 3 * (8 * (PARTICLE_COUNT / 3)))
              (PARTICLE_COUNT / 3)) as (_ & Hdone); [lia|].
  destruct (Hdone (t / 3)%nat axis Hi Haxis) as [_ Hfuyo].
  rewrite Hfuyo. do 2 f_equal.
  pose proof (Nat.div_mod_eq t 3). lia.
Qed.

End StartUpShape.

Lemma glyph_positions_dealt_in_turn_witness :
  exists data : PData R,
    (initParticles halves hexColor (ofNat <$> seq 0 (PARTICLE_COUNT * 3)) 0).1 !! (2999 mod 3)%nat
    = Some data /\
    fuyoPositions data !! (2999 / 3 * 3 + 1)%nat
    = Some (get (ofNat <$> seq 0 (PARTICLE_COUNT * 3)) (2999 * 3 + 1)).
Proof.
  apply (glyph_positions_dealt_in_turn halves hexColor
           (ofNat <$> seq 0 (PARTICLE_COUNT * 3)) 0 2999 1).
  - change PARTICLE_COUNT with (3 * 1000)%nat. lia.
  - lia.
Defined.

(* ===================================================================== *)
(** ** The tree shape and the frames that follow start-up *)
(* ===================================================================== *)

Section ExactTree.
Local Open Scope R_scope.
Variable random : nat -> R.
Variable THREE_Color : Z -> Color R.

Lemma particle_count_real : ofNat (num:=R) PARTICLE_COUNT = 3000.
Proof.
  rewrite ofNat_real, INR_IZR_INZ.
  change (Z.of_nat PARTICLE_COUNT) with 3000%Z. reflexivity.
Qed.

(** Step 1 of the loop body in exact arithmetic. *)
Lemma treePoint_real (totalIndex : nat) (u : R) :
  treePoint totalIndex u
  = (cos (INR totalIndex / 3000 * PI * 40)
       * ((1 - INR totalIndex / 3000) * 15 + (u - 0.5) * 2),
     INR totalIndex / 3000 * 40 - 40 / 2,
     sin (INR totalIndex / 3000 * PI * 40)
       * ((1 - INR totalIndex / 3000) * 15 + (u - 0.5) * 2)).
Proof.
  unfold treePoint. rewrite particle_count_real, ofNat_real.
  unfold TREE_RADIUS, TREE_HEIGHT.
  cbn [lit mul sub add div Math_sin Math_cos Math_PI real_number real_math].
  rewrite !Q2R_whole.
  replace (Q2R 0.5) with 0.5 by (unfold Q2R; simpl; lra).
  reflexivity.
Qed.

(** A finished group: the current positions copy the tree targets. *)
Lemma initGroup_tree (index : nat) (fuyoAll : list R) (k : nat) :
  let data := (initGroup random THREE_Color index fuyoAll k).1 in
  positions data = targetPositions data /\
  forall i axis, (i < PARTICLE_COUNT / 3)%nat -> (axis < 3)%nat ->
    targetPositions data !! (i * 3 + axis)%nat
    = Some (coord (treePoint (i * 3 + index) (random (k + 8 * i))) axis).
Proof.
  unfold initGroup, fillGroup.
  destruct (fillGroup_tree_invariant random THREE_Color (PARTICLE_COUNT / 3)
              index fuyoAll k (PARTICLE_COUNT / 3)) as (Hcopy & Hdone); [lia|].
  split; [exact Hcopy|].
  intros i axis Hi Haxis. exact (proj1 (Hdone i axis Hi Haxis)).
Qed.

(** X12. The tree is a cone of height 40 and base radius 15, one unit
    thick: particle [i] of group [g] starts on its tree target, at
    height [(3 i + g) / 3000 * 40 - 20], between -20 and 20, and within
    [15 * (20 - y) / 40 + 1] of the axis. *)
Theorem tree_targets_inside_cone (fuyoAllPositions : list R) (k g i : nat) :
  (forall j, 0 <= random j < 1) ->
  (g < 3)%nat ->
  (i < PARTICLE_COUNT / 3)%nat ->
  exists data x y z,
    (initParticles random THREE_Color fuyoAllPositions k).1 !! g = Some data /\
    pointAt (targetPositions data) i = Some (x, y, z) /\
    pointAt (positions data) i = Some (x, y, z) /\
    y = INR (i * 3 + g) / 3000 * 40 - 20 /\
    -20 <= y < 20 /\
    sqrt (x * x + z * z) <= 15 * (20 - y) / 40 + 1.
Proof.
  intros Hdraw Hg Hi.
  set (k' := (k + g * (8 * (PARTICLE_COUNT / 3)))%nat).
  pose proof (initGroup_tree g fuyoAllPositions k') as Htree.
  cbv zeta in Htree. destruct Htree as (Hcopy & Hdone).
  pose proof (initParticles_groups random THREE_Color fuyoAllPositions k g Hg)
    as Hgroup.
  fold k' in Hgroup.
  set (data := (initGroup random THREE_Color g fuyoAllPositions k').1) in *.
  clearbody data.
  set (u := random (k' + 8 * i)%nat) in *.
  pose proof (Hdraw (k' + 8 * i)%nat) as Hu. fold u in Hu.
  set (t := INR (i * 3 + g) / 3000).
  set (r := (1 - t) * 15 + (u - 0.5) * 2).
  assert (Hpoint : pointAt (targetPositions data) i
                   = Some (cos (t * PI * 40) * r, t * 40 - 40 / 2,
                           sin (t * PI * 40) * r)).
  { apply pointAt_coords. intros axis Haxis.
    rewrite (Hdone i axis Hi Haxis), treePoint_real. reflexivity. }
  exists data, (cos (t * PI * 40) * r), (t * 40 - 40 / 2),
         (sin (t * PI * 40) * r).
  split; [exact Hgroup|]. split; [exact Hpoint|].
  split; [rewrite Hcopy; exact Hpoint|].
  assert (Ht : 0 <= t < 1).
  { unfold t. rewrite particles_per_group in Hi.
    assert (Hn : (i * 3 + g <= 2999)%nat) by lia.
    apply le_INR in Hn.
    replace (INR 2999) with 2999 in Hn
      by (rewrite INR_IZR_INZ; reflexivity).
    pose proof (pos_INR (i * 3 + g)). lra. }
  split; [lra|]. split; [lra|].
  pose proof (sin2_cos2 (t * PI * 40)) as Hcircle. unfold Rsqr in Hcircle.
  set (c := cos (t * PI * 40)) in *. set (s := sin (t * PI * 40)) in *.
  replace (c * r * (c * r) + s * r * (s * r))
    with (r * r * (s * s + c * c)) by ring.
  rewrite Hcircle, Rmult_1_r.
  set (bound := 15 * (20 - (t * 40 - 40 / 2)) / 40 + 1).
  assert (Hbound : 0 <= bound) by (unfold bound; lra).
  rewrite <- (sqrt_square bound Hbound).
  apply sqrt_le_1_alt.
  assert (Hr : - bound <= r <= bound) by (unfold r, bound; lra).
  nra.
Qed.

(** A group whose current positions equal the target buffer of the mode
    is left as it is by a frame. *)
Lemma animateGroup_at_rest (m : Mode) (data : PData R) :
  positions data = targetOf m data ->
  animateGroup m data = data.
Proof.
  intros Hrest.
  assert (Hpos : positions (animateGroup m data) = positions data).
  { apply list_eq. intros idx.
    destruct (decide (idx < length (positions data))%nat) as [Hidx | Hidx].
    - rewrite (animateGroup_axis m data idx Hidx), lerp_real.
      destruct (lookup_lt_is_Some_2 (positions data) idx Hidx) as [c Hc].
      rewrite <- Hrest, (get_Some _ _ _ Hc), Hc. f_equal. lra.
    - rewrite !lookup_ge_None_2; [reflexivity | lia |].
      rewrite animateGroup_length. lia. }
  destruct data as [p t r s f c].
  unfold animateGroup in *.
  cbn [positions targetPositions randomPositions spherePositions
       fuyoPositions colors] in *.
  rewrite Hpos. reflexivity.
Qed.

(** X13. The script starts at rest: [mode] is initialised to TREE and
    every particle is created on its tree target, so frames drawn
    before the first gesture leave all three groups exactly as the
    start-up loop built them. *)
Theorem tree_frames_keep_start_up (fuyoAllPositions : list R) (k n : nat) :
  frames TREE n (initParticles random THREE_Color fuyoAllPositions k).1
  = (initParticles random THREE_Color fuyoAllPositions k).1.
Proof.
  rewrite initParticles_unrolled. cbn [fst].
  assert (Hrest : forall index k',
             animateGroup TREE
               (initGroup random THREE_Color index fuyoAllPositions k').1
             = (initGroup random THREE_Color index fuyoAllPositions k').1).
  { intros index k'. apply animateGroup_at_rest.
    pose proof (initGroup_tree index fuyoAllPositions k') as Htree.
    cbv zeta in Htree. exact (proj1 Htree). }
  pose proof (Hrest 0%nat k) as H0.
  pose proof (Hrest 1%nat (k + 8 * (PARTICLE_COUNT / 3))%nat) as H1.
  pose proof (Hrest 2%nat (k + 8 * (PARTICLE_COUNT / 3)
                           + 8 * (PARTICLE_COUNT / 3))%nat) as H2.
  set (d0 := (initGroup random THREE_Color 0 fuyoAllPositions k).1) in *.
  set (d1 := (initGroup random THREE_Color 1 fuyoAllPositions _).1) in *.
  set (d2 := (initGroup random THREE_Color 2 fuyoAllPositions _).1) in *.
  clearbody d0 d1 d2. clear Hrest.
  unfold frames. induction n as [|n IH]; [reflexivity|].
  rewrite Nat.iter_succ, IH.
  unfold animate. cbn [fmap list_fmap]. rewrite H0, H1, H2. reflexivity.
Qed.

End ExactTree.

Lemma tree_targets_inside_cone_witness :
  exists (data : PData R) (x y z : R),
    (initParticles halves hexColor [] 0).1 !! 2%nat = Some data /\
    pointAt (targetPositions data) 999 = Some (x, y, z) /\
    pointAt (positions data) 999 = Some (x, y, z) /\
    y = (INR (999 * 3 + 2) / 3000 * 40 - 20)%R /\
    (-20 <= y < 20)%R /\
    (sqrt (x * x + z * z) <= 15 * (20 - y) / 40 + 1)%R.
Proof.
  apply (tree_targets_inside_cone halves hexColor [] 0 2 999).
  - intros j. unfold halves. cbn [lit real_number]. unfold Q2R. simpl. lra.
  - lia.
  - rewrite particles_per_group. lia.
Defined.

Section ExactConvergence.
Local Open Scope R_scope.

(** The coordinate after [n] frames in mode [m]: the target plus the
    start offset scaled by [0.95 ^ n]. *)
Lemma frames_closed_form (m : Mode) (data : PData R) (idx n : nat) (c t : R) :
  positions data !! idx = Some c ->
  targetOf m data !! idx = Some t ->
  positions (Nat.iter n (animateGroup m) data) !! idx
  = Some (t + (c - t) * 0.95 ^ n).
Proof.
  intros Hc Ht. induction n as [|n IH].
  - cbn [Nat.iter nat_rect]. rewrite Hc. f_equal. simpl. lra.
  - assert (Hidx : (idx < length (positions
                                    (Nat.iter n (animateGroup m) data)))%nat).
    { destruct (frames_shape m n data) as [-> _].
      apply lookup_lt_Some with c. exact Hc. }
    rewrite Nat.iter_succ.
    rewrite (animateGroup_axis m _ idx Hidx), lerp_real.
    rewrite (get_Some _ _ _ IH).
    destruct (frames_shape m n data) as [_ ->].
    rewrite (get_Some _ _ _ Ht).
    f_equal. simpl. lra.
Qed.

(** X14. With the mode held at [m], a coordinate that starts at [c] with
    target [t] is at [t + (c - t) * 0.95 ^ n] after [n] frames: it stays
    between [c] and [t], never passes the target, and comes within any
    given distance of it after finitely many frames. *)
Theorem frames_converge_geometrically (m : Mode)
        (allParticleData : list (PData R)) (g idx : nat) (data : PData R)
        (c t : R) :
  allParticleData !! g = Some data ->
  positions data !! idx = Some c ->
  targetOf m data !! idx = Some t ->
  (forall n, exists after,
     frames m n allParticleData !! g = Some after /\
     positions after !! idx = Some (t + (c - t) * 0.95 ^ n) /\
     Rmin c t <= t + (c - t) * 0.95 ^ n <= Rmax c t) /\
  (forall eps, 0 < eps -> exists N, forall n, (N <= n)%nat ->
     exists after,
       frames m n allParticleData !! g = Some after /\
       axisOffset m after idx < eps).
Proof.
  intros Hg Hc Ht.
  assert (Hpow : forall n, 0 < 0.95 ^ n <= 1).
  { intros n. split; [apply pow_lt; lra|].
    induction n as [|n IH]; simpl; [lra|].
    assert (0 < 0.95 ^ n) by (apply pow_lt; lra). nra. }
  split.
  - intros n. exists (Nat.iter n (animateGroup m) data).
    split; [apply frames_group; exact Hg|].
    split; [apply frames_closed_form; assumption|].
    pose proof (Hpow n) as Hn.
    unfold Rmin, Rmax. destruct (Rle_dec c t); nra.
  - intros eps Heps.
    destruct (Req_dec c t) as [-> | Hne].
    + exists 0%nat. intros n _. exists (Nat.iter n (animateGroup m) data).
      split; [apply frames_group; exact Hg|].
      unfold axisOffset.
      rewrite (get_Some _ _ _ (frames_closed_form m data idx n t t Hc Ht)).
      destruct (frames_shape m n data) as [_ ->].
      rewrite (get_Some _ _ _ Ht).
      replace (t + (t - t) * 0.95 ^ n - t) with 0 by lra.
      rewrite Rabs_R0. exact Heps.
    + assert (Hdist : 0 < Rabs (c - t)) by (apply Rabs_pos_lt; lra).
      destruct (pow_lt_1_zero 0.95) with (y := eps / Rabs (c - t))
        as [N HN].
      { rewrite Rabs_right; lra. }
      { apply Rdiv_lt_0_compat; assumption. }
      exists N. intros n Hn. exists (Nat.iter n (animateGroup m) data).
      split; [apply frames_group; exact Hg|].
      unfold axisOffset.
      rewrite (get_Some _ _ _ (frames_closed_form m data idx n c t Hc Ht)).
      destruct (frames_shape m n data) as [_ ->].
      rewrite (get_Some _ _ _ Ht).
      replace (t + (c - t) * 0.95 ^ n - t) with ((c - t) * 0.95 ^ n) by lra.
      rewrite Rabs_mult.
      specialize (HN n ltac:(lia)).
      apply (Rmult_lt_compat_l (Rabs (c - t))) in HN; [|exact Hdist].
      replace (Rabs (c - t) * (eps / Rabs (c - t))) with eps in HN
        by (field; lra).
      exact HN.
Qed.

End ExactConvergence.

Lemma frames_converge_geometrically_witness :
  (forall n, exists after : PData R,
     frames TREE n [sampleGroup] !! 0%nat = Some after /\
     positions after !! 2%nat
     = Some (lit 30 + (lit 3 - lit 30) * 0.95 ^ n)%R /\
     (Rmin (lit 3) (lit 30) <= lit 30 + (lit 3 - lit 30) * 0.95 ^ n
      <= Rmax (lit 3) (lit 30))%R) /\
  (forall eps : R, (0 < eps)%R -> exists N, forall n, (N <= n)%nat ->
     exists after : PData R,
       frames TREE n [sampleGroup] !! 0%nat = Some after /\
       (axisOffset TREE after 2 < eps)%R).
Proof.
  apply (frames_converge_geometrically TREE [sampleGroup] 0 2 sampleGroup
           (lit 3) (lit 30)).
  - reflexivity.
  - reflexivity.
  - reflexivity.
Defined.


(* ===================================================================== *)
(** ** Properties of the background graph *)
(* ===================================================================== *)

Lemma lookup_insert_at {A : Type} (l : list A) (i j : nat) (x : A) :
  i = j -> (j < length l)%nat -> <[i := x]> l !! j = Some x.
Proof. intros -> Hj. apply list_lookup_insert_eq. exact Hj. Qed.

(** Reading an entry of a buffer after a run of writes. *)
Ltac insert_lookup :=
  repeat first
    [ rewrite list_lookup_insert_ne by lia
    | apply lookup_insert_at; [lia | rewrite ?length_insert; lia] ].

Section LineFacts.
Context {num : Type} `{!JSNumber num}.

(** Nested loops visit the list of pairs. *)
Lemma foldl_nested {S : Type} (f : S -> nat -> nat -> S) (js : nat -> list nat)
      (l : list nat) (s : S) :
  foldl (fun st i => foldl (fun st j => f st i j) st (js i)) s l
  = foldl (fun st p => f st p.1 p.2) s
          (flat_map (fun i => map (pair i) (js i)) l).
Proof.
  revert s. induction l as [|i l IH]; intros s; [reflexivity|].
  cbn [foldl flat_map]. rewrite foldl_app, IH. f_equal.
  generalize (js i). clear. intros l. revert s.
  induction l as [|j l IH]; intros s; [reflexivity|].
  cbn [foldl map fst snd]. apply IH.
Qed.

Lemma connectLines_pairs (positions linePos : list num) :
  connectLines positions linePos
  = foldl (fun st p => connectPair positions st p.1 p.2) (linePos, 0%nat)
          nodePairs.
Proof. unfold connectLines, nodePairs. apply foldl_nested. Qed.

Lemma nodePairs_length : length nodePairs = 4950%nat.
Proof. vm_compute. reflexivity. Qed.

Lemma nodePairs_In (i j : nat) :
  In (i, j) nodePairs <-> (i < j < bgNodeCount)%nat.
Proof.
  unfold nodePairs. rewrite in_flat_map. split.
  - intros (i' & Hi & Hin). apply in_map_iff in Hin as (j' & [= -> ->] & Hj).
    apply in_seq in Hi. apply in_seq in Hj. lia.
  - intros Hij. exists i. split; [apply in_seq; lia|].
    apply in_map_iff. exists j. split; [reflexivity|]. apply in_seq. lia.
Qed.

Lemma connectPair_eq (positions linePos : list num) (lineIndex i j : nat) :
  connectPair positions (linePos, lineIndex) i j
  = if close positions (i, j)
    then (<[(lineIndex + 5)%nat := get positions (j * 3 + 2)]>
            (<[(lineIndex + 4)%nat := get positions (j * 3 + 1)]>
               (<[(lineIndex + 3)%nat := get positions (j * 3)]>
                  (<[(lineIndex + 2)%nat := get positions (i * 3 + 2)]>
                     (<[(lineIndex + 1)%nat := get positions (i * 3 + 1)]>
                        (<[lineIndex := get positions (i * 3)]> linePos))))),
          (lineIndex + 6)%nat)
    else (linePos, lineIndex).
Proof. reflexivity. Qed.

(** The segments written by the loop over a list of pairs, from
    [lineIndex] on, with room for all of them. *)
Lemma connect_fold (positions : list num) (l : list (nat * nat))
      (linePos : list num) (lineIndex : nat) :
  (lineIndex + 6 * length l <= length linePos)%nat ->
  let r := foldl (fun st p => connectPair positions st p.1 p.2)
                 (linePos, lineIndex) l in
  r.2 = (lineIndex + 6 * length (List.filter (close positions) l))%nat /\
  length r.1 = length linePos /\
  (forall idx, (idx < lineIndex \/ r.2 <= idx)%nat ->
     r.1 !! idx = linePos !! idx) /\
  (forall n i j axis,
     List.filter (close positions) l !! n = Some (i, j) -> (axis < 3)%nat ->
     r.1 !! (lineIndex + 6 * n + axis)%nat
       = Some (get positions (i * 3 + axis)) /\
     r.1 !! (lineIndex + 6 * n + 3 + axis)%nat
       = Some (get positions (j * 3 + axis))).
Proof.
  revert linePos lineIndex.
  induction l as [|[i j] l IH]; intros linePos lineIndex Hroom; cbv zeta.
  - cbn [foldl List.filter length fst snd]. split; [lia|].
    split; [reflexivity|]. split; [reflexivity|].
    intros n i j axis Hn. rewrite lookup_nil in Hn. discriminate.
  - cbn [length] in Hroom. cbn [foldl List.filter fst snd].
    rewrite connectPair_eq.
    destruct (close positions (i, j)) eqn:Hclose.
    + set (linePos1 := <[(lineIndex + 5)%nat := _]> _).
      assert (Hlen1 : length linePos1 = length linePos)
        by (unfold linePos1; rewrite !length_insert; reflexivity).
      destruct (IH linePos1 (lineIndex + 6)%nat) as (Hidx & Hlen & Hout & Hin);
        [lia|].
      cbn [length]. split; [lia|]. split; [lia|]. split.
      * intros idx Hidx'. rewrite Hout by lia.
        unfold linePos1. rewrite !list_lookup_insert_ne by lia. reflexivity.
      * intros [|n] i' j' axis Hn Haxis.
        { cbn [lookup list_lookup] in Hn. injection Hn as <- <-.
          rewrite !Hout by lia. unfold linePos1.
          destruct axis as [|[|[|axis]]]; try lia;
            rewrite ?Nat.add_0_r; split; insert_lookup. }
        { cbn [lookup list_lookup] in Hn.
          destruct (Hin n i' j' axis Hn Haxis) as [Hi' Hj'].
          replace (lineIndex + 6 * Datatypes.S n + axis)%nat
            with (lineIndex + 6 + 6 * n + axis)%nat by lia.
          replace (lineIndex + 6 * Datatypes.S n + 3 + axis)%nat
            with (lineIndex + 6 + 6 * n + 3 + axis)%nat by lia.
          split; assumption. }
    + destruct (IH linePos lineIndex) as (Hidx & Hlen & Hout & Hin); [lia|].
      split; [exact Hidx|]. split; [exact Hlen|]. split; [exact Hout|].
      exact Hin.
Qed.

(** X15. The line buffer of [bgNodeCount * bgNodeCount * 3] numbers is
    never overrun: the nested loops visit each of the 4950 pairs
    [i < j] once and write one segment of six numbers, the two end
    points, for each pair closer than [connectDistance], packed from
    the start of the buffer in the order visited; [lineIndex] ends at
    six times the number of such pairs, at most 29700, and the rest of
    the buffer keeps what earlier frames left there. *)
Theorem segments_join_close_pairs (positions linePos : list num) :
  length linePos = (bgNodeCount * bgNodeCount * 3)%nat ->
  exists linePos' lineIndex,
    connectLines positions linePos = (linePos', lineIndex) /\
    (forall i j, In (i, j) (closePairs positions) <->
                 (i < j < bgNodeCount)%nat /\ close positions (i, j) = true) /\
    lineIndex = (6 * length (closePairs positions))%nat /\
    (lineIndex <= 6 * 4950)%nat /\
    length linePos' = length linePos /\
    (forall n i j axis,
       closePairs positions !! n = Some (i, j) -> (axis < 3)%nat ->
       linePos' !! (6 * n + axis)%nat = Some (get positions (i * 3 + axis)) /\
       linePos' !! (6 * n + 3 + axis)%nat
         = Some (get positions (j * 3 + axis))) /\
    (forall idx, (lineIndex <= idx)%nat -> linePos' !! idx = linePos !! idx).
Proof.
  intros Hlen.
  assert (Hsize : (bgNodeCount * bgNodeCount * 3)%nat = (6 * 5000)%nat)
    by reflexivity.
  rewrite Hsize in Hlen. clear Hsize.
  rewrite connectLines_pairs.
  destruct (connect_fold positions nodePairs linePos 0)
    as (Hidx & Hlen' & Hout & Hin).
  { rewrite nodePairs_length. lia. }
  destruct (foldl _ _ nodePairs) as [linePos' lineIndex].
  cbn [fst snd] in *.
  exists linePos', lineIndex. split; [reflexivity|].
  unfold closePairs. split.
  { intros i j. rewrite filter_In, nodePairs_In. reflexivity. }
  split; [lia|]. split.
  { pose proof (List.filter_length_le (close positions) nodePairs) as Hle.
    rewrite nodePairs_length in Hle. lia. }
  split; [exact Hlen'|]. split.
  - intros n i j axis Hn Haxis. exact (Hin n i j axis Hn Haxis).
  - intros idx Hidx'. apply Hout. right. exact Hidx'.
Qed.

End LineFacts.

Lemma segments_join_close_pairs_witness :
  exists (linePos' : list double) (lineIndex : nat),
    connectLines (ofNat <$> seq 0 300)
                 (Float32Array (bgNodeCount * bgNodeCount * 3))
    = (linePos', lineIndex) /\
    (forall i j, In (i, j) (closePairs (num:=double) (ofNat <$> seq 0 300)) <->
                 (i < j < bgNodeCount)%nat /\
                 close (num:=double) (ofNat <$> seq 0 300) (i, j) = true) /\
    lineIndex
    = (6 * length (closePairs (num:=double) (ofNat <$> seq 0 300)))%nat /\
    (lineIndex <= 6 * 4950)%nat /\
    length linePos'
    = length (Float32Array (num:=double) (bgNodeCount * bgNodeCount * 3)) /\
    (forall n i j axis,
       closePairs (num:=double) (ofNat <$> seq 0 300) !! n = Some (i, j) ->
       (axis < 3)%nat ->
       linePos' !! (6 * n + axis)%nat
       = Some (get (ofNat <$> seq 0 300) (i * 3 + axis)) /\
       linePos' !! (6 * n + 3 + axis)%nat
       = Some (get (ofNat <$> seq 0 300) (j * 3 + axis))) /\
    (forall idx, (lineIndex <= idx)%nat ->
       linePos' !! idx
       = Float32Array (num:=double) (bgNodeCount * bgNodeCount * 3) !! idx).
Proof.
  apply (segments_join_close_pairs (num:=double) (ofNat <$> seq 0 300)
           (Float32Array (bgNodeCount * bgNodeCount * 3))).
  unfold Float32Array. apply length_replicate.
Defined.


Section NodeFacts.
Context {num : Type} `{!JSNumber num} `{!JSAbs num}.

Lemma get_insert_eq (buf : list num) (i : nat) (v : num) :
  (i < length buf)%nat -> get (<[i := v]> buf) i = v.
Proof.
  intros Hi. unfold get. rewrite list_lookup_insert_eq by exact Hi.
  reflexivity.
Qed.

(** The three [+=] of one node amount to one write of the moved point;
    the tests that follow read the moved coordinates. *)
Lemma moveNode_Some (positions : list num) (velocities : list (Velocity num))
      (i : nat) (v : Velocity num) :
  velocities !! i = Some v ->
  (i * 3 + 2 < length positions)%nat ->
  moveNode (positions, velocities) i
  = Some (put3 positions i
               (add (get positions (i * 3)) (vel_x v))
               (add (get positions (i * 3 + 1)) (vel_y v))
               (add (get positions (i * 3 + 2)) (vel_z v)),
          <[i := {| vel_x := bounce (add (get positions (i * 3)) (vel_x v))
                                    (vel_x v);
                    vel_y := bounce (add (get positions (i * 3 + 1)) (vel_y v))
                                    (vel_y v);
                    vel_z := bounce (add (get positions (i * 3 + 2)) (vel_z v))
                                    (vel_z v) |}]> velocities).
Proof.
  intros Hv Hlen. unfold moveNode. rewrite Hv.
  cbn [mbind option_bind]. unfold put3.
  repeat first
    [ rewrite get_insert_ne by lia
    | rewrite get_insert_eq by (rewrite ?length_insert; lia) ].
  reflexivity.
Qed.

Lemma failed_loop {S : Type} (f : S -> nat -> option S) (l : list nat) :
  foldl (fun st i => st ← st; f st i) None l = None.
Proof. induction l as [|i l IH]; [reflexivity | exact IH]. Qed.

(** The first loop of [updateBackground] after [n] nodes. *)
Lemma moveNodes_loop (positions : list num) (velocities : list (Velocity num))
      (n : nat) :
  (n <= length velocities)%nat ->
  (n * 3 <= length positions)%nat ->
  exists ps vs,
    foldl (fun st i => st ← st; moveNode st i) (Some (positions, velocities))
          (seq 0 n) = Some (ps, vs) /\
    length ps = length positions /\
    length vs = length velocities /\
    (forall i axis, (i < n)%nat -> (axis < 3)%nat ->
       exists v v',
         velocities !! i = Some v /\
         ps !! (i * 3 + axis)%nat
         = Some (add (get positions (i * 3 + axis)) (velAxis v axis)) /\
         vs !! i = Some v' /\
         velAxis v' axis
         = bounce (add (get positions (i * 3 + axis)) (velAxis v axis))
                  (velAxis v axis)) /\
    (forall idx, (n * 3 <= idx)%nat -> ps !! idx = positions !! idx) /\
    (forall i, (n <= i)%nat -> vs !! i = velocities !! i).
Proof.
  induction n as [|n IH]; intros Hvel Hpos.
  - exists positions, velocities. split; [reflexivity|].
    split; [reflexivity|]. split; [reflexivity|].
    split; [intros i axis Hi; lia|]. split; reflexivity.
  - destruct IH as (ps & vs & Hrun & Hlp & Hlv & Hdone & Hps & Hvs);
      [lia | lia |].
    rewrite seq_S, foldl_app, Hrun. cbn [foldl mbind option_bind Nat.add].
    destruct (lookup_lt_is_Some_2 velocities n) as [v Hv]; [lia|].
    assert (Hv' : vs !! n = Some v) by (rewrite Hvs by lia; exact Hv).
    rewrite (moveNode_Some ps vs n v Hv') by lia.
    assert (Hget : forall axis, (axis < 3)%nat ->
               get ps (n * 3 + axis) = get positions (n * 3 + axis)).
    { intros axis Haxis. unfold get. rewrite Hps by lia. reflexivity. }
    pose proof (Hget 0%nat) as Hg0. rewrite Nat.add_0_r in Hg0.
    rewrite Hg0, (Hget 1%nat), (Hget 2%nat) by lia.
    eexists _, _. split; [reflexivity|].
    split; [rewrite put3_length; exact Hlp|].
    split; [rewrite length_insert; exact Hlv|].
    split; [|split].
    + intros i axis Hi Haxis.
      destruct (decide (i = n)) as [-> | Hin].
      * exists v. eexists. split; [exact Hv|].
        split; [rewrite put3_same by lia|].
        { destruct axis as [|[|[|axis]]]; try lia; cbn [axisOf velAxis];
            rewrite ?Nat.add_0_r; reflexivity. }
        split; [apply list_lookup_insert_eq; lia|].
        destruct axis as [|[|[|axis]]]; try lia;
          cbn [velAxis axisOf vel_x vel_y vel_z];
          rewrite ?Nat.add_0_r; reflexivity.
      * destruct (Hdone i axis) as (w & w' & Hw & Hp & Hw' & Hb);
          [lia | lia |].
        exists w, w'. split; [exact Hw|].
        split; [rewrite put3_other by lia; exact Hp|].
        split; [rewrite list_lookup_insert_ne by lia; exact Hw'|].
        exact Hb.
    + intros idx Hidx. rewrite put3_other by lia. apply Hps. lia.
    + intros i Hi. rewrite list_lookup_insert_ne by lia. apply Hvs. lia.
Qed.

(** The loop goes on as long as velocity objects are there, whatever
    the length of the position buffer. *)
Lemma moveNodes_runs (positions : list num) (velocities : list (Velocity num))
      (n : nat) :
  (n <= length velocities)%nat ->
  exists ps vs,
    foldl (fun st i => st ← st; moveNode st i) (Some (positions, velocities))
          (seq 0 n) = Some (ps, vs) /\
    length ps = length positions /\
    length vs = length velocities.
Proof.
  induction n as [|n IH]; intros Hvel.
  - exists positions, velocities. repeat split; reflexivity.
  - destruct IH as (ps & vs & Hrun & Hlp & Hlv); [lia|].
    rewrite seq_S, foldl_app, Hrun. cbn [foldl mbind option_bind Nat.add].
    destruct (lookup_lt_is_Some_2 vs n) as [v Hv]; [lia|].
    unfold moveNode. rewrite Hv. cbn [mbind option_bind].
    eexists _, _. split; [reflexivity|].
    rewrite !length_insert. split; assumption.
Qed.

Lemma connectLines_length (positions linePos : list num) :
  length (connectLines positions linePos).1 = length linePos.
Proof.
  rewrite connectLines_pairs. generalize 0%nat. generalize nodePairs.
  intros l. revert linePos.
  induction l as [|[i j] l IH]; intros linePos lineIndex; [reflexivity|].
  cbn [foldl fst snd]. rewrite connectPair_eq.
  destruct (close positions (i, j)); rewrite IH, ?length_insert; reflexivity.
Qed.

Lemma moveNodes_None (positions : list num) (velocities : list (Velocity num)) :
  (length velocities < bgNodeCount)%nat ->
  moveNodes positions velocities = None.
Proof.
  intros Hshort. unfold moveNodes.
  destruct (moveNodes_runs positions velocities (length velocities))
    as (ps & vs & Hrun & _ & Hlv); [lia|].
  replace bgNodeCount
    with (length velocities
          + Datatypes.S (bgNodeCount - Datatypes.S (length velocities)))%nat
    by lia.
  rewrite seq_app, foldl_app, Hrun. cbn [seq foldl mbind option_bind Nat.add].
  unfold moveNode at 2.
  rewrite (lookup_ge_None_2 vs (length velocities)) by lia.
  cbn [mbind option_bind]. apply failed_loop.
Qed.

(** X16. [updateBackground] throws (reading [x] of a missing velocity
    object) exactly when [bgNodesVelocities] has fewer than
    [bgNodeCount] entries; otherwise it completes, and keeps the
    lengths of the three buffers. *)
Theorem updateBackground_throws_iff (bg : Background num) :
  (updateBackground bg = None <->
   (length (bgNodesVelocities bg) < bgNodeCount)%nat) /\
  (forall bg', updateBackground bg = Some bg' ->
     length (bgNodesPositions bg') = length (bgNodesPositions bg) /\
     length (bgNodesVelocities bg') = length (bgNodesVelocities bg) /\
     length (bgLinesPositions bg') = length (bgLinesPositions bg)).
Proof.
  unfold updateBackground.
  destruct (decide (length (bgNodesVelocities bg) < bgNodeCount)%nat)
    as [Hshort | Hfull].
  - rewrite (moveNodes_None _ _ Hshort). cbn [mbind option_bind].
    split; [split; [intros _; exact Hshort | reflexivity]|].
    intros bg' Hbg'. discriminate Hbg'.
  - unfold moveNodes. destruct (moveNodes_runs (bgNodesPositions bg) (bgNodesVelocities bg)
                bgNodeCount) as (ps & vs & Hrun & Hlp & Hlv); [lia|].
    rewrite Hrun. cbn [mbind option_bind].
    pose proof (connectLines_length ps (bgLinesPositions bg)) as Hll.
    destruct (connectLines ps (bgLinesPositions bg)) as [linePos lineIndex].
    split; [split; [intros Hnone; discriminate Hnone | lia]|].
    intros bg' [= <-].
    cbn [bgNodesPositions bgNodesVelocities bgLinesPositions].
    repeat split; assumption.
Qed.

End NodeFacts.


Section NodeStartFacts.
Context {num : Type} `{!JSNumber num} `{!JSMath num}.
Variable random : nat -> num.

(** The loop that places the nodes, after [n] of them. *)
Lemma bgNodes_loop (k n : nat) :
  (n <= bgNodeCount)%nat ->
  let st := foldl (bgNodeStep random) (Float32Array (bgNodeCount * 3), [], k)
                  (seq 0 n) in
  st.2 = (k + 6 * n)%nat /\
  length st.1.1 = (bgNodeCount * 3)%nat /\
  length st.1.2 = n /\
  forall i, (i < n)%nat ->
    st.1.2 !! i = Some (nodeVelocityOf random k i) /\
    forall axis, (axis < 3)%nat ->
      st.1.1 !! (i * 3 + axis)%nat = Some (coord (nodeOf random k i) axis).
Proof.
  intros Hn. cbv zeta.
  set (Inv := fun n (st : list num * list (Velocity num) * nat) =>
              (n <= bgNodeCount)%nat ->
              st.2 = (k + 6 * n)%nat /\
              length st.1.1 = (bgNodeCount * 3)%nat /\
              length st.1.2 = n /\
              forall i, (i < n)%nat ->
                st.1.2 !! i = Some (nodeVelocityOf random k i) /\
                forall axis, (axis < 3)%nat ->
                  st.1.1 !! (i * 3 + axis)%nat
                  = Some (coord (nodeOf random k i) axis)).
  enough (Hinv : Inv n (foldl (bgNodeStep random)
                              (Float32Array (bgNodeCount * 3), [], k)
                              (seq 0 n))) by exact (Hinv Hn).
  apply (foldl_seq_invariant Inv); unfold Inv.
  - intros _. cbn [fst snd]. split; [lia|].
    split; [apply length_replicate|]. split; [reflexivity|].
    intros i Hi. lia.
  - intros i [[ps vs] k'] Hi IH Hle. cbn [fst snd] in IH.
    destruct IH as (Hk & Hlp & Hlv & Hdone); [lia|]. subst k'.
    unfold bgNodeStep.
    fold (nodeOf random k i).
    replace (nodeOf random k i)
      with (shellPoint (random (k + 6 * i)) (random (k + 6 * i + 1))
                       (random (k + 6 * i + 2))) by reflexivity.
    destruct (shellPoint _ _ _) as [[x y] z] eqn:Hpoint.
    cbn [fst snd]. split; [lia|].
    split; [rewrite put3_length; exact Hlp|].
    split; [rewrite length_app, Hlv; cbn [length]; lia|].
    assert (Hbg : (bgNodeCount * 3 = 300)%nat) by reflexivity.
    intros j Hj. destruct (decide (j = i)) as [-> | Hji].
    + split.
      * rewrite lookup_app_r by lia. rewrite Hlv, Nat.sub_diag. reflexivity.
      * intros axis Haxis. rewrite put3_same by lia.
        unfold nodeOf. rewrite Hpoint. reflexivity.
    + destruct (Hdone j) as [Hv Hp]; [lia|]. split.
      * rewrite lookup_app_l by lia. exact Hv.
      * intros axis Haxis. rewrite put3_other by lia. apply Hp. exact Haxis.
Qed.

Lemma initBackground_spec (k : nat) :
  exists bg,
    initBackground random k = (bg, (k + 6 * bgNodeCount)%nat) /\
    length (bgNodesPositions bg) = (bgNodeCount * 3)%nat /\
    length (bgNodesVelocities bg) = bgNodeCount /\
    bgLinesPositions bg = Float32Array (bgNodeCount * bgNodeCount * 3) /\
    forall i, (i < bgNodeCount)%nat ->
      bgNodesVelocities bg !! i = Some (nodeVelocityOf random k i) /\
      forall axis, (axis < 3)%nat ->
        bgNodesPositions bg !! (i * 3 + axis)%nat
        = Some (coord (nodeOf random k i) axis).
Proof.
  unfold initBackground.
  pose proof (bgNodes_loop k bgNodeCount (le_n _)) as Hloop.
  cbv zeta in Hloop.
  destruct (foldl _ _ (seq 0 bgNodeCount)) as [[ps vs] k'].
  cbn [fst snd] in Hloop. destruct Hloop as (-> & Hlp & Hlv & Hdone).
  eexists. split; [reflexivity|].
  cbn [bgNodesPositions bgNodesVelocities bgLinesPositions].
  split; [exact Hlp|]. split; [exact Hlv|]. split; [reflexivity|].
  exact Hdone.
Qed.

End NodeStartFacts.

Section ExactBackground.
Local Open Scope R_scope.

Lemma half_real : lit (num:=R) 0.5 = 0.5.
Proof. cbn [lit real_number]. unfold Q2R. simpl. lra. Qed.

(** A node is placed at distance [80 + u1 * 60] from the origin. *)
Lemma shellPoint_real (u1 u2 u3 : R) :
  0 <= u1 ->
  distanceFromOrigin (shellPoint u1 u2 u3) = 80 + u1 * 60 /\
  forall axis, Rabs (coord (shellPoint u1 u2 u3) axis) <= 80 + u1 * 60.
Proof.
  intros Hu. unfold shellPoint.
  cbn [lit mul sub add Math_sin Math_cos Math_acos Math_PI
       real_number real_math].
  rewrite !Q2R_whole.
  set (r := 80 + u1 * 60). assert (Hr : 0 <= r) by (unfold r; lra).
  split; [apply spherical_distance; exact Hr|].
  set (phi := acos (u3 * 2 - 1)). set (theta := u2 * PI * 2).
  assert (Habs : forall x, -1 <= x <= 1 -> 0 <= Rabs x <= 1).
  { intros x Hx. split; [apply Rabs_pos|].
    unfold Rabs. destruct (Rcase_abs x); lra. }
  pose proof (Habs _ (SIN_bound phi)) as Hsp.
  pose proof (Habs _ (COS_bound phi)) as Hcp.
  pose proof (Habs _ (SIN_bound theta)) as Hst.
  pose proof (Habs _ (COS_bound theta)) as Hct.
  assert (Hscale : forall a b, 0 <= a <= 1 -> 0 <= b <= 1 -> r * a * b <= r).
  { intros a b Ha Hb. assert (0 <= a * b <= 1) by nra. nra. }
  intros [|[|axis]]; unfold coord; cbn [axisOf fst snd];
    rewrite !Rabs_mult, (Rabs_right r) by lra.
  - apply Hscale; assumption.
  - apply Hscale; assumption.
  - rewrite <- (Rmult_1_r (r * Rabs (cos phi))).
    apply Hscale; [assumption | lra].
Qed.

Lemma slowVelocity_real (u1 u2 u3 : R) (axis : nat) :
  0 <= u1 < 1 -> 0 <= u2 < 1 -> 0 <= u3 < 1 ->
  -0.025 <= velAxis (slowVelocity u1 u2 u3) axis < 0.025.
Proof.
  intros H1 H2 H3. unfold velAxis, slowVelocity.
  cbn [vel_x vel_y vel_z mul sub real_number].
  rewrite half_real.
  replace (lit (num:=R) 0.05) with 0.05
    by (cbn [lit real_number]; unfold Q2R; simpl; lra).
  destruct axis as [|[|axis]]; cbn [axisOf]; lra.
Qed.

Lemma bounce_real (p v : R) :
  bounce p v = if Rlt_dec 150 (Rabs p) then - v else v.
Proof.
  unfold bounce, gtb. cbn [ltb lit mul Math_abs real_number real_abs].
  unfold Rltb. rewrite !Q2R_whole.
  destruct (Rlt_dec 150 (Rabs p)); lra.
Qed.

(** One step of a coordinate: move, then turn around beyond 150. *)
Lemma inBox_step (p v : R) :
  inBox p v -> inBox (p + v) (bounce (p + v) v).
Proof.
  unfold inBox. rewrite bounce_real. intros [Hv Hp].
  destruct (Rlt_dec 150 (Rabs (p + v))) as [Hout | Hin].
  - rewrite Rabs_Ropp. split; [exact Hv|]. right.
    revert Hv Hp Hout. unfold Rabs.
    destruct (Rcase_abs v), (Rcase_abs p), (Rcase_abs (p + v));
      intros Hv Hp Hout; destruct Hp as [Hp | [Hp Hdir]]; split; nra.
  - split; [exact Hv|]. left. lra.
Qed.

(** The coordinates and velocities of a background in the box. *)
Lemma box_kept (bg : Background R) :
  length (bgNodesPositions bg) = (bgNodeCount * 3)%nat ->
  length (bgNodesVelocities bg) = bgNodeCount ->
  (forall i axis, (i < bgNodeCount)%nat -> (axis < 3)%nat ->
     exists p v, bgNodesPositions bg !! (i * 3 + axis)%nat = Some p /\
                 bgNodesVelocities bg !! i = Some v /\
                 inBox p (velAxis v axis)) ->
  exists bg',
    updateBackground bg = Some bg' /\
    length (bgNodesPositions bg') = (bgNodeCount * 3)%nat /\
    length (bgNodesVelocities bg') = bgNodeCount /\
    (forall i axis, (i < bgNodeCount)%nat -> (axis < 3)%nat ->
       exists p v, bgNodesPositions bg' !! (i * 3 + axis)%nat = Some p /\
                   bgNodesVelocities bg' !! i = Some v /\
                   inBox p (velAxis v axis)).
Proof.
  intros Hlp Hlv Hbox. unfold updateBackground, moveNodes.
  destruct (moveNodes_loop (bgNodesPositions bg) (bgNodesVelocities bg)
              bgNodeCount)
    as (ps & vs & Hrun & Hlp' & Hlv' & Hdone & _); [lia | lia |].
  rewrite Hrun. cbn [mbind option_bind].
  destruct (connectLines ps (bgLinesPositions bg)) as [linePos lineIndex].
  eexists. split; [reflexivity|].
  cbn [bgNodesPositions bgNodesVelocities].
  split; [lia|]. split; [lia|].
  intros i axis Hi Haxis.
  destruct (Hdone i axis Hi Haxis) as (v & v' & Hv & Hp & Hv' & Hb).
  destruct (Hbox i axis Hi Haxis) as (p & w & Hp0 & Hw & Hin).
  rewrite Hv in Hw. injection Hw as <-.
  rewrite (get_Some _ _ _ Hp0) in Hp, Hb.
  eexists _, v'. split; [exact Hp|]. split; [exact Hv'|].
  rewrite Hb. apply inBox_step. exact Hin.
Qed.

(** X17. In exact arithmetic and with draws in [0,1), the background
    never throws and its nodes never leave the box: after any number of
    frames every coordinate of every node is within 150.025 of the
    origin, and every velocity component within 0.025 of zero. *)
Theorem background_nodes_stay_in_box (random : nat -> R) (k n i axis : nat) :
  (forall j, 0 <= random j < 1) ->
  (i < bgNodeCount)%nat ->
  (axis < 3)%nat ->
  exists bg p v,
    repeatFrames updateBackground n (initBackground random k).1 = Some bg /\
    bgNodesPositions bg !! (i * 3 + axis)%nat = Some p /\
    bgNodesVelocities bg !! i = Some v /\
    Rabs p <= 150.025 /\
    Rabs (velAxis v axis) <= 0.025.
Proof.
  intros Hdraw Hi Haxis.
  enough (Hall : exists bg,
             repeatFrames updateBackground n (initBackground random k).1
             = Some bg /\
             length (bgNodesPositions bg) = (bgNodeCount * 3)%nat /\
             length (bgNodesVelocities bg) = bgNodeCount /\
             (forall i axis, (i < bgNodeCount)%nat -> (axis < 3)%nat ->
                exists p v,
                  bgNodesPositions bg !! (i * 3 + axis)%nat = Some p /\
                  bgNodesVelocities bg !! i = Some v /\
                  inBox p (velAxis v axis))).
  { destruct Hall as (bg & Hrun & _ & _ & Hbox).
    destruct (Hbox i axis Hi Haxis) as (p & v & Hp & Hv & Hspeed & Hin).
    exists bg, p, v. split; [exact Hrun|]. split; [exact Hp|].
    split; [exact Hv|]. split; [|exact Hspeed].
    destruct Hin as [Hin | [Hin _]]; lra. }
  clear i axis Hi Haxis.
  induction n as [|n IH].
  - destruct (initBackground_spec random k)
      as (bg & Hinit & Hlp & Hlv & _ & Hdone).
    rewrite Hinit. exists bg. split; [reflexivity|].
    split; [exact Hlp|]. split; [exact Hlv|].
    intros i axis Hi Haxis. destruct (Hdone i Hi) as [Hv Hp].
    eexists _, _. split; [apply Hp; exact Haxis|]. split; [exact Hv|].
    unfold nodeVelocityOf, nodeOf.
    pose proof (slowVelocity_real _ _ _ axis
                  (Hdraw (k + 6 * i + 3)%nat) (Hdraw (k + 6 * i + 4)%nat)
                  (Hdraw (k + 6 * i + 5)%nat)) as Hspeed.
    destruct (shellPoint_real (random (k + 6 * i)%nat)
                (random (k + 6 * i + 1)%nat) (random (k + 6 * i + 2)%nat))
      as [_ Hcoord]; [apply Hdraw|].
    pose proof (Hcoord axis) as Hc.
    pose proof (Hdraw (k + 6 * i)%nat) as Hu.
    split.
    + unfold Rabs. destruct (Rcase_abs _); lra.
    + left. lra.
  - destruct IH as (bg & Hrun & Hlp & Hlv & Hbox).
    destruct (box_kept bg Hlp Hlv Hbox) as (bg' & Hstep & Hlp' & Hlv' & Hbox').
    exists bg'. cbn [repeatFrames]. rewrite Hrun. cbn [mbind option_bind].
    split; [exact Hstep|]. split; [exact Hlp'|]. split; [exact Hlv'|].
    exact Hbox'.
Qed.

(** X18. In exact arithmetic and with draws in [0,1), the loop that
    places the background makes six draws per node, 600 in all, and
    puts every node in the shell between radius 80 and 140, with each
    velocity component in [-0.025, 0.025). *)
Theorem background_starts_in_shell (random : nat -> R) (k i : nat) :
  (forall j, 0 <= random j < 1) ->
  (i < bgNodeCount)%nat ->
  exists bg p v,
    initBackground random k = (bg, (k + 600)%nat) /\
    length (bgNodesPositions bg) = 300%nat /\
    length (bgNodesVelocities bg) = 100%nat /\
    pointAt (bgNodesPositions bg) i = Some p /\
    80 <= distanceFromOrigin p < 140 /\
    bgNodesVelocities bg !! i = Some v /\
    forall axis, -0.025 <= velAxis v axis < 0.025.
Proof.
  intros Hdraw Hi.
  destruct (initBackground_spec random k)
    as (bg & Hinit & Hlp & Hlv & _ & Hdone).
  destruct (Hdone i Hi) as [Hv Hp].
  exists bg, (nodeOf random k i), (nodeVelocityOf random k i).
  split; [exact Hinit|]. split; [exact Hlp|]. split; [exact Hlv|].
  split; [apply pointAt_coords; exact Hp|].
  split.
  - unfold nodeOf.
    destruct (shellPoint_real (random (k + 6 * i)%nat)
                (random (k + 6 * i + 1)%nat) (random (k + 6 * i + 2)%nat))
      as [-> _]; [apply Hdraw|].
    pose proof (Hdraw (k + 6 * i)%nat). lra.
  - split; [exact Hv|]. intros axis. apply slowVelocity_real; apply Hdraw.
Qed.

End ExactBackground.

Lemma background_nodes_stay_in_box_witness :
  exists (bg : Background R) (p : R) (v : Velocity R),
    repeatFrames updateBackground 5 (initBackground halves 0).1 = Some bg /\
    bgNodesPositions bg !! (99 * 3 + 2)%nat = Some p /\
    bgNodesVelocities bg !! 99%nat = Some v /\
    (Rabs p <= 150.025)%R /\
    (Rabs (velAxis v 2) <= 0.025)%R.
Proof.
  apply (background_nodes_stay_in_box halves 0 5 99 2).
  - intros j. unfold halves. cbn [lit real_number]. unfold Q2R. simpl. lra.
  - unfold bgNodeCount. lia.
  - lia.
Defined.

Lemma background_starts_in_shell_witness :
  exists (bg : Background R) (p : R * R * R) (v : Velocity R),
    initBackground halves 0 = (bg, (0 + 600)%nat) /\
    length (bgNodesPositions bg) = 300%nat /\
    length (bgNodesVelocities bg) = 100%nat /\
    pointAt (bgNodesPositions bg) 42 = Some p /\
    (80 <= distanceFromOrigin p < 140)%R /\
    bgNodesVelocities bg !! 42%nat = Some v /\
    forall axis, (-0.025 <= velAxis v axis < 0.025)%R.
Proof.
  apply (background_starts_in_shell halves 0 42).
  - intros j. unfold halves. cbn [lit real_number]. unfold Q2R. simpl. lra.
  - unfold bgNodeCount. lia.
Defined.


(* ===================================================================== *)
(** ** Properties of the snowfall *)
(* ===================================================================== *)

Section SnowFacts.
Context {num : Type} `{!JSNumber num}.
Variable random : nat -> num.

(** One flake: it falls by its velocity, or is put back on top. *)
Lemma fallFlake_spec (velocities : list (Velocity num)) (positions : list num)
      (k i : nat) (v : Velocity num) :
  velocities !! i = Some v ->
  (i * 3 + 2 < length positions)%nat ->
  exists ps k',
    fallFlake random velocities (positions, k) i = Some (ps, k') /\
    length ps = length positions /\
    (forall idx, (idx < i * 3 \/ i * 3 + 2 < idx)%nat ->
       ps !! idx = positions !! idx) /\
    if landed positions velocities i
    then k' = (k + 2)%nat /\
         ps !! (i * 3)%nat = Some (spread (random k)) /\
         ps !! (i * 3 + 1)%nat = Some (lit 100) /\
         ps !! (i * 3 + 2)%nat = Some (spread (random (k + 1)))
    else k' = k /\
         forall axis, (axis < 3)%nat ->
           ps !! (i * 3 + axis)%nat
           = Some (add (get positions (i * 3 + axis)) (velAxis v axis)).
Proof.
  intros Hv Hlen. unfold fallFlake, landed. rewrite Hv.
  cbn [mbind option_bind].
  repeat first
    [ rewrite get_insert_ne by lia
    | rewrite get_insert_eq by (rewrite ?length_insert; lia) ].
  destruct (ltb (add (get positions (i * 3 + 1)) (vel_y v)) (lit (-60))).
  - eexists _, _. split; [reflexivity|].
    split; [rewrite !length_insert; reflexivity|].
    split; [intros idx Hidx; rewrite !list_lookup_insert_ne by lia;
            reflexivity|].
    split; [reflexivity|]. repeat split; insert_lookup.
  - eexists _, _. split; [reflexivity|].
    split; [rewrite !length_insert; reflexivity|].
    split; [intros idx Hidx; rewrite !list_lookup_insert_ne by lia;
            reflexivity|].
    split; [reflexivity|].
    intros [|[|[|axis]]] Haxis; try lia; cbn [velAxis axisOf];
      rewrite ?Nat.add_0_r; insert_lookup.
Qed.

Lemma landings_S (positions : list num) (velocities : list (Velocity num))
      (n : nat) :
  landings positions velocities (Datatypes.S n)
  = (landings positions velocities n
     + if landed positions velocities n then 1 else 0)%nat.
Proof.
  unfold landings. rewrite seq_S, List.filter_app, length_app.
  cbn [List.filter Nat.add].
  destruct (landed positions velocities n); reflexivity.
Qed.

(** The loop of [updateSnow] after [n] flakes. *)
Lemma fallFlakes_loop (velocities : list (Velocity num)) (positions : list num)
      (k n : nat) :
  (n <= length velocities)%nat ->
  (n * 3 <= length positions)%nat ->
  exists ps,
    foldl (fun st i => st ← st; fallFlake random velocities st i)
          (Some (positions, k)) (seq 0 n)
    = Some (ps, (k + 2 * landings positions velocities n)%nat) /\
    length ps = length positions /\
    (forall idx, (n * 3 <= idx)%nat -> ps !! idx = positions !! idx) /\
    forall i, (i < n)%nat ->
      exists v, velocities !! i = Some v /\
      if landed positions velocities i
      then ps !! (i * 3)%nat
           = Some (spread (random (k + 2 * landings positions velocities i))) /\
           ps !! (i * 3 + 1)%nat = Some (lit 100) /\
           ps !! (i * 3 + 2)%nat
           = Some (spread
                     (random (k + 2 * landings positions velocities i + 1)))
      else forall axis, (axis < 3)%nat ->
             ps !! (i * 3 + axis)%nat
             = Some (add (get positions (i * 3 + axis)) (velAxis v axis)).
Proof.
  induction n as [|n IH]; intros Hvel Hpos.
  - exists positions. split; [cbn; do 2 f_equal; unfold landings; cbn; lia|].
    split; [reflexivity|]. split; [reflexivity|]. intros i Hi. lia.
  - destruct IH as (ps & Hrun & Hlp & Hrest & Hdone); [lia | lia |].
    rewrite seq_S, foldl_app, Hrun. cbn [foldl mbind option_bind Nat.add].
    destruct (lookup_lt_is_Some_2 velocities n) as [v Hv]; [lia|].
    destruct (fallFlake_spec velocities ps
                (k + 2 * landings positions velocities n) n v Hv)
      as (ps' & k' & Hstep & Hlp' & Hother & Hflake); [lia|].
    assert (Hsame : landed ps velocities n = landed positions velocities n).
    { unfold landed, get. rewrite Hrest by lia. reflexivity. }
    rewrite Hsame in Hflake.
    assert (Hk' : k' = (k + 2 * landings positions velocities
                                         (Datatypes.S n))%nat).
    { rewrite landings_S.
      destruct (landed positions velocities n); destruct Hflake as [-> _]; lia. }
    subst k'. exists ps'. split; [exact Hstep|]. split; [lia|].
    split.
    { intros idx Hidx. rewrite Hother by lia. apply Hrest. lia. }
    intros i Hi. destruct (decide (i = n)) as [-> | Hin].
    + exists v. split; [exact Hv|].
      destruct (landed positions velocities n).
      * destruct Hflake as (_ & Hx & Hy & Hz). repeat split; assumption.
      * destruct Hflake as (_ & Hmoved). intros axis Haxis.
        rewrite (Hmoved axis Haxis). unfold get. rewrite Hrest by lia.
        reflexivity.
    + destruct (Hdone i) as (w & Hw & Hi'); [lia|].
      exists w. split; [exact Hw|].
      destruct (landed positions velocities i).
      * destruct Hi' as (Hx & Hy & Hz).
        rewrite !Hother by lia. repeat split; assumption.
      * intros axis Haxis. rewrite Hother by lia. apply Hi'. exact Haxis.
Qed.

(** X19. A frame of the snowfall treats the flakes one by one and keeps
    the velocities: a flake whose new height is not below -60 has moved
    by its velocity on all three axes; a flake that dropped below is at
    height 100 with a fresh [x] and [z] spread over [-100, 100).  Draws
    are made for the latter only, two each, in the order of the flakes. *)
Theorem snow_frame_falls_or_resets (snow : Snow num) (k : nat) :
  length (snowPositions snow) = (snowCount * 3)%nat ->
  length (snowVelocities snow) = snowCount ->
  exists snow',
    updateSnow random (snow, k)
    = Some (snow',
            (k + 2 * landings (snowPositions snow) (snowVelocities snow)
                              snowCount)%nat) /\
    snowVelocities snow' = snowVelocities snow /\
    length (snowPositions snow') = (snowCount * 3)%nat /\
    forall i, (i < snowCount)%nat ->
      exists v, snowVelocities snow !! i = Some v /\
      if landed (snowPositions snow) (snowVelocities snow) i
      then
        let k' := (k + 2 * landings (snowPositions snow)
                                    (snowVelocities snow) i)%nat in
        snowPositions snow' !! (i * 3)%nat = Some (spread (random k')) /\
        snowPositions snow' !! (i * 3 + 1)%nat = Some (lit 100) /\
        snowPositions snow' !! (i * 3 + 2)%nat
        = Some (spread (random (k' + 1)))
      else
        forall axis, (axis < 3)%nat ->
          snowPositions snow' !! (i * 3 + axis)%nat
          = Some (add (get (snowPositions snow) (i * 3 + axis))
                      (velAxis v axis)).
Proof.
  intros Hlp Hlv. unfold updateSnow.
  destruct (fallFlakes_loop (snowVelocities snow) (snowPositions snow) k
              snowCount) as (ps & Hrun & Hlp' & _ & Hdone); [lia | lia |].
  rewrite Hrun. cbn [mbind option_bind].
  eexists. split; [reflexivity|].
  cbn [snowPositions snowVelocities].
  split; [reflexivity|]. split; [lia|]. exact Hdone.
Qed.

End SnowFacts.

Lemma snow_frame_falls_or_resets_witness :
  exists snow' : Snow R,
    updateSnow halves (sampleSnow, 7%nat)
    = Some (snow',
            (7 + 2 * landings (num:=R) (snowPositions sampleSnow)
                              (snowVelocities sampleSnow) snowCount)%nat) /\
    snowVelocities snow' = snowVelocities sampleSnow /\
    length (snowPositions snow') = (snowCount * 3)%nat /\
    forall i, (i < snowCount)%nat ->
      exists v, snowVelocities (num:=R) sampleSnow !! i = Some v /\
      if landed (num:=R) (snowPositions sampleSnow)
                (snowVelocities sampleSnow) i
      then
        let k' := (7 + 2 * landings (num:=R) (snowPositions sampleSnow)
                                    (snowVelocities sampleSnow) i)%nat in
        snowPositions snow' !! (i * 3)%nat = Some (spread (halves k')) /\
        snowPositions snow' !! (i * 3 + 1)%nat = Some (lit 100) /\
        snowPositions snow' !! (i * 3 + 2)%nat
        = Some (spread (halves (k' + 1)))
      else
        forall axis, (axis < 3)%nat ->
          snowPositions snow' !! (i * 3 + axis)%nat
          = Some (add (get (num:=R) (snowPositions sampleSnow)
                           (i * 3 + axis))
                      (velAxis v axis)).
Proof.
  apply (snow_frame_falls_or_resets (num:=R) halves sampleSnow 7).
  - apply length_replicate.
  - apply length_replicate.
Defined.


Section SnowStartFacts.
Context {num : Type} `{!JSNumber num}.
Variable random : nat -> num.

(** The loop that places the flakes, after [n] of them. *)
Lemma snow_loop (k n : nat) :
  (n <= snowCount)%nat ->
  let st := foldl (snowStep random) (Float32Array (snowCount * 3), [], k)
                  (seq 0 n) in
  st.2 = (k + 6 * n)%nat /\
  length st.1.1 = (snowCount * 3)%nat /\
  length st.1.2 = n /\
  forall i, (i < n)%nat ->
    st.1.2 !! i = Some (flakeVelocityOf random k i) /\
    forall axis, (axis < 3)%nat ->
      st.1.1 !! (i * 3 + axis)%nat = Some (coord (flakeOf random k i) axis).
Proof.
  intros Hn. cbv zeta.
  set (Inv := fun n (st : list num * list (Velocity num) * nat) =>
              (n <= snowCount)%nat ->
              st.2 = (k + 6 * n)%nat /\
              length st.1.1 = (snowCount * 3)%nat /\
              length st.1.2 = n /\
              forall i, (i < n)%nat ->
                st.1.2 !! i = Some (flakeVelocityOf random k i) /\
                forall axis, (axis < 3)%nat ->
                  st.1.1 !! (i * 3 + axis)%nat
                  = Some (coord (flakeOf random k i) axis)).
  enough (Hinv : Inv n (foldl (snowStep random)
                              (Float32Array (snowCount * 3), [], k)
                              (seq 0 n))) by exact (Hinv Hn).
  apply (foldl_seq_invariant Inv); unfold Inv.
  - intros _. cbn [fst snd]. split; [lia|].
    split; [apply length_replicate|]. split; [reflexivity|].
    intros i Hi. lia.
  - intros i [[ps vs] k'] Hi IH Hle. cbn [fst snd] in IH.
    destruct IH as (Hk & Hlp & Hlv & Hdone); [lia|]. subst k'.
    unfold snowStep. cbn [fst snd]. split; [lia|].
    split; [rewrite put3_length; exact Hlp|].
    split; [rewrite length_app, Hlv; cbn [length]; lia|].
    assert (Hsize : (snowCount * 3 = 3 * 1000)%nat) by reflexivity.
    assert (Hcount : (snowCount = 1000)%nat) by reflexivity.
    intros j Hj. destruct (decide (j = i)) as [-> | Hji].
    + split.
      * rewrite lookup_app_r by lia. rewrite Hlv, Nat.sub_diag. reflexivity.
      * intros axis Haxis. rewrite put3_same by lia. reflexivity.
    + destruct (Hdone j) as [Hv Hp]; [lia|]. split.
      * rewrite lookup_app_l by lia. exact Hv.
      * intros axis Haxis. rewrite put3_other by lia. apply Hp. exact Haxis.
Qed.

Lemma initSnow_spec (k : nat) :
  exists snow,
    initSnow random k = (snow, (k + 6 * snowCount)%nat) /\
    length (snowPositions snow) = (snowCount * 3)%nat /\
    length (snowVelocities snow) = snowCount /\
    forall i, (i < snowCount)%nat ->
      snowVelocities snow !! i = Some (flakeVelocityOf random k i) /\
      forall axis, (axis < 3)%nat ->
        snowPositions snow !! (i * 3 + axis)%nat
        = Some (coord (flakeOf random k i) axis).
Proof.
  unfold initSnow.
  pose proof (snow_loop k snowCount (le_n _)) as Hloop.
  cbv zeta in Hloop.
  destruct (foldl _ _ (seq 0 snowCount)) as [[ps vs] k'].
  cbn [fst snd] in Hloop. destruct Hloop as (-> & Hlp & Hlv & Hdone).
  eexists. split; [reflexivity|].
  cbn [snowPositions snowVelocities].
  split; [exact Hlp|]. split; [exact Hlv|]. exact Hdone.
Qed.

End SnowStartFacts.

Section ExactSnow.
Local Open Scope R_scope.
Variable random : nat -> R.
Hypothesis unit_draws : forall j, 0 <= random j < 1.

Lemma spread_real (u : R) : spread u = (u - 0.5) * 200.
Proof.
  unfold spread. cbn [mul sub real_number]. rewrite half_real.
  cbn [lit real_number]. rewrite Q2R_whole. reflexivity.
Qed.

Lemma fall_speed (u1 u2 u3 : R) :
  0 <= u1 < 1 ->
  -0.4 < vel_y (flakeVelocity u1 u2 u3) <= -0.1.
Proof.
  intros Hu. unfold flakeVelocity. cbn [vel_y sub mul lit real_number].
  replace (Q2R (-0.1)) with (-0.1) by (unfold Q2R; simpl; lra).
  replace (Q2R 0.3) with 0.3 by (unfold Q2R; simpl; lra).
  lra.
Qed.

Lemma landed_real (positions : list R) (velocities : list (Velocity R))
      (i : nat) (v : Velocity R) :
  velocities !! i = Some v ->
  landed positions velocities i
  = if Rlt_dec (get positions (i * 3 + 1) + vel_y v) (-60) then true else false.
Proof.
  intros Hv. unfold landed. rewrite Hv.
  cbn [ltb add lit real_number]. unfold Rltb.
  replace (Q2R (-60)) with (-60) by (unfold Q2R; simpl; lra).
  reflexivity.
Qed.

Lemma initSnow_flying (k i : nat) :
  (i < snowCount)%nat ->
  exists snow y,
    initSnow random k = (snow, (k + 6 * snowCount)%nat) /\
    flying i snow y.
Proof using unit_draws.
  intros Hi.
  destruct (initSnow_spec random k) as (snow & Hinit & Hlp & Hlv & Hdone).
  destruct (Hdone i Hi) as [_ Hp].
  exists snow, (spread (random (k + 6 * i + 1)%nat)).
  split; [exact Hinit|]. split; [exact Hlp|]. split; [exact Hlv|].
  split.
  - intros j Hj. destruct (Hdone j Hj) as [Hv _].
    eexists. split; [exact Hv|]. apply fall_speed, unit_draws.
  - split; [exact (Hp 1%nat ltac:(lia))|].
    rewrite spread_real. pose proof (unit_draws (k + 6 * i + 1)%nat). lra.
Qed.

(** One frame: the flake is put back at 100, or has come down by at
    least 0.1 and is not below -60. *)
Lemma updateSnow_flying (i : nat) (snow : Snow R) (k : nat) (y : R) :
  (i < snowCount)%nat ->
  flying i snow y ->
  exists snow' k' y',
    updateSnow random (snow, k) = Some (snow', k') /\
    flying i snow' y' /\
    -60 <= y' /\
    (y' = 100 \/ y' <= y - 0.1).
Proof using unit_draws.
  intros Hi (Hlp & Hlv & Hspeed & Hy & Hrange). unfold updateSnow.
  destruct (fallFlakes_loop random (snowVelocities snow) (snowPositions snow) k
              snowCount) as (ps & Hrun & Hlp' & _ & Hdone); [lia | lia |].
  rewrite Hrun. cbn [mbind option_bind].
  destruct (Hdone i Hi) as (v & Hv & Hflake).
  destruct (Hspeed i Hi) as (w & Hw & Hfall).
  rewrite Hv in Hw. injection Hw as <-.
  rewrite (landed_real _ _ _ _ Hv), (get_Some _ _ _ Hy) in Hflake.
  destruct (Rlt_dec (y + vel_y v) (-60)) as [Hlow | Hhigh].
  - destruct Hflake as (_ & Hy' & _).
    eexists _, _, 100. split; [reflexivity|].
    split; [|split; [lra | left; reflexivity]].
    split; [exact (eq_trans Hlp' Hlp)|]. split; [exact Hlv|].
    split; [exact Hspeed|]. split; [|lra].
    cbn [snowPositions]. rewrite Hy'. f_equal.
    cbn [lit real_number]. apply Q2R_whole.
  - pose proof (Hflake 1%nat ltac:(lia)) as Hy'.
    cbn [velAxis axisOf add real_number] in Hy'.
    rewrite (get_Some _ _ _ Hy) in Hy'.
    eexists _, _, (y + vel_y v). split; [reflexivity|].
    split; [|split; [lra | right; lra]].
    split; [exact (eq_trans Hlp' Hlp)|]. split; [exact Hlv|].
    split; [exact Hspeed|]. split; [exact Hy'|]. lra.
Qed.

(** X20. In exact arithmetic and with draws in [0,1), the snowfall
    never throws and every flake stays between the heights -100 and
    100; from the first frame on no flake is ever left below -60. *)
Theorem snow_heights_stay_in_range (k n i : nat) :
  (i < snowCount)%nat ->
  exists snow k' y,
    repeatFrames (updateSnow random) n (initSnow random k) = Some (snow, k') /\
    snowPositions snow !! (i * 3 + 1)%nat = Some y /\
    -100 <= y <= 100 /\
    ((1 <= n)%nat -> -60 <= y).
Proof using unit_draws.
  intros Hi.
  enough (Hall : exists snow k' y,
             repeatFrames (updateSnow random) n (initSnow random k)
             = Some (snow, k') /\
             flying i snow y /\ ((1 <= n)%nat -> -60 <= y)).
  { destruct Hall as (snow & k' & y & Hrun & (_ & _ & _ & Hy & Hrange) & Hlow).
    exists snow, k', y. repeat split; try assumption; lra. }
  induction n as [|n IH].
  - destruct (initSnow_flying k i Hi) as (snow & y & Hinit & Hfly).
    exists snow, (k + 6 * snowCount)%nat, y. cbn [repeatFrames].
    split; [rewrite Hinit; reflexivity|]. split; [exact Hfly|]. lia.
  - destruct IH as (snow & k' & y & Hrun & Hfly & _).
    destruct (updateSnow_flying i snow k' y Hi Hfly)
      as (snow' & k'' & y' & Hstep & Hfly' & Hlow & _).
    exists snow', k'', y'. cbn [repeatFrames]. rewrite Hrun.
    cbn [mbind option_bind]. split; [exact Hstep|].
    split; [exact Hfly'|]. intros _. exact Hlow.
Qed.

(** The frames after frame [n], until the flake is put back on top. *)
Lemma flake_comes_down (k i n m : nat) (snow : Snow R) (k' : nat) (y : R) :
  (i < snowCount)%nat ->
  repeatFrames (updateSnow random) n (initSnow random k) = Some (snow, k') ->
  flying i snow y ->
  (exists j snow' k'',
     (1 <= j <= m)%nat /\
     repeatFrames (updateSnow random) (n + j) (initSnow random k)
     = Some (snow', k'') /\
     snowPositions snow' !! (i * 3 + 1)%nat = Some 100) \/
  (exists snow' k'' y',
     repeatFrames (updateSnow random) (n + m) (initSnow random k)
     = Some (snow', k'') /\
     flying i snow' y' /\
     y' <= y - 0.1 * INR m /\
     ((1 <= m)%nat -> -60 <= y')).
Proof using unit_draws.
  intros Hi Hrun Hfly. induction m as [|m IH].
  - right. exists snow, k', y. rewrite Nat.add_0_r.
    split; [exact Hrun|]. split; [exact Hfly|]. split; [simpl; lra | lia].
  - destruct IH as [(j & snow' & k'' & Hj & Hrun' & Htop)
                   | (snow' & k'' & y' & Hrun' & Hfly' & Hdown & _)].
    + left. exists j, snow', k''. split; [lia|]. split; assumption.
    + destruct (updateSnow_flying i snow' k'' y' Hi Hfly')
        as (snow2 & k2 & y2 & Hstep & Hfly2 & Hlow & Hcase).
      assert (Hrun2 : repeatFrames (updateSnow random)
                                   (n + Datatypes.S m) (initSnow random k)
                      = Some (snow2, k2)).
      { rewrite Nat.add_succ_r. cbn [repeatFrames]. rewrite Hrun'.
        cbn [mbind option_bind]. exact Hstep. }
      destruct Hcase as [-> | Hless].
      * left. exists (Datatypes.S m), snow2, k2. split; [lia|].
        split; [exact Hrun2|]. exact (proj1 (proj2 (proj2 (proj2 Hfly2)))).
      * right. exists snow2, k2, y2. split; [exact Hrun2|].
        split; [exact Hfly2|]. rewrite S_INR.
        split; [lra | intros _; exact Hlow].
Qed.

(** X21. Every flake is recycled: in exact arithmetic and with draws in
    [0,1), whatever the frame, the flake is put back at height 100
    within the next 1601 frames (it falls at least 0.1 per frame and
    there are 160 units between 100 and -60). *)
Theorem every_flake_is_recycled (k n i : nat) :
  (i < snowCount)%nat ->
  exists j snow k',
    (1 <= j <= 1601)%nat /\
    repeatFrames (updateSnow random) (n + j) (initSnow random k)
    = Some (snow, k') /\
    snowPositions snow !! (i * 3 + 1)%nat = Some 100.
Proof using unit_draws.
  intros Hi.
  assert (Hstart : exists snow k' y,
             repeatFrames (updateSnow random) n (initSnow random k)
             = Some (snow, k') /\ flying i snow y).
  { induction n as [|n IH].
    - destruct (initSnow_flying k i Hi) as (snow & y & Hinit & Hfly).
      exists snow, (k + 6 * snowCount)%nat, y. cbn [repeatFrames].
      split; [rewrite Hinit; reflexivity | exact Hfly].
    - destruct IH as (snow & k' & y & Hrun & Hfly).
      destruct (updateSnow_flying i snow k' y Hi Hfly)
        as (snow' & k'' & y' & Hstep & Hfly' & _).
      exists snow', k'', y'. cbn [repeatFrames]. rewrite Hrun.
      cbn [mbind option_bind]. split; assumption. }
  destruct Hstart as (snow & k' & y & Hrun & Hfly).
  destruct (flake_comes_down k i n 1601 snow k' y Hi Hrun Hfly)
    as [(j & snow' & k'' & Hj & Hrun' & Htop)
       | (snow' & k'' & y' & _ & _ & Hdown & Hlow)].
  - exists j, snow', k''. split; [exact Hj|]. split; assumption.
  - exfalso. specialize (Hlow ltac:(lia)).
    replace (INR 1601) with 1601 in Hdown
      by (rewrite INR_IZR_INZ; reflexivity).
    destruct Hfly as (_ & _ & _ & _ & Hy). lra.
Qed.

End ExactSnow.

Lemma snow_heights_stay_in_range_witness :
  exists (snow : Snow R) (k' : nat) (y : R),
    repeatFrames (updateSnow halves) 3 (initSnow halves 0) = Some (snow, k') /\
    snowPositions snow !! (999 * 3 + 1)%nat = Some y /\
    (-100 <= y <= 100)%R /\
    ((1 <= 3)%nat -> (-60 <= y)%R).
Proof.
  apply (snow_heights_stay_in_range halves).
  - intros j. unfold halves. cbn [lit real_number]. unfold Q2R. simpl. lra.
  - unfold snowCount. lia.
Defined.

Lemma every_flake_is_recycled_witness :
  exists (j : nat) (snow : Snow R) (k' : nat),
    (1 <= j <= 1601)%nat /\
    repeatFrames (updateSnow halves) (10 + j) (initSnow halves 0)
    = Some (snow, k') /\
    snowPositions snow !! (0 * 3 + 1)%nat = Some 100%R.
Proof.
  apply (every_flake_is_recycled halves).
  - intros j. unfold halves. cbn [lit real_number]. unfold Q2R. simpl. lra.
  - unfold snowCount. lia.
Defined.


Section ExactDrift.
Local Open Scope R_scope.
Variable random : nat -> R.
Hypothesis unit_draws : forall j, 0 <= random j < 1.

Lemma wind_speed (u1 u2 u3 : R) :
  0 <= u2 < 1 -> 0 <= u3 < 1 ->
  -0.05 <= vel_x (flakeVelocity u1 u2 u3) < 0.05 /\
  -0.05 <= vel_z (flakeVelocity u1 u2 u3) < 0.05.
Proof.
  intros H2 H3. unfold flakeVelocity. cbn [vel_x vel_z sub mul real_number].
  rewrite half_real.
  replace (lit (num:=R) 0.1) with 0.1
    by (cbn [lit real_number]; unfold Q2R; simpl; lra).
  lra.
Qed.

Lemma spread_range (j : nat) : -100 <= spread (random j) < 100.
Proof using unit_draws.
  rewrite spread_real. pose proof (unit_draws j). lra.
Qed.

Lemma initSnow_adrift (k i : nat) :
  (i < snowCount)%nat ->
  exists snow p,
    initSnow random k = (snow, (k + 6 * snowCount)%nat) /\
    adrift i snow p.
Proof using unit_draws.
  intros Hi.
  destruct (initSnow_spec random k) as (snow & Hinit & Hlp & Hlv & Hdone).
  destruct (Hdone i Hi) as [_ Hp].
  exists snow, (flakeOf random k i).
  split; [exact Hinit|]. split; [exact Hlp|]. split; [exact Hlv|].
  split.
  { intros j Hj. destruct (Hdone j Hj) as [Hv _].
    eexists. split; [exact Hv|]. unfold flakeVelocityOf.
    split; [apply fall_speed, unit_draws|].
    apply wind_speed; apply unit_draws. }
  split; [exact Hp|]. unfold flakeOf. cbn [fst snd].
  pose proof (spread_range (k + 6 * i)) as Hx.
  pose proof (spread_range (k + 6 * i + 1)) as Hy.
  pose proof (spread_range (k + 6 * i + 2)) as Hz.
  split; [lra|].
  split; unfold Rabs; destruct (Rcase_abs _); lra.
Qed.

(** One frame keeps the flake adrift, and not below -60. *)
Lemma updateSnow_adrift (i : nat) (snow : Snow R) (k : nat) (p : R * R * R) :
  (i < snowCount)%nat ->
  adrift i snow p ->
  exists snow' k' p',
    updateSnow random (snow, k) = Some (snow', k') /\
    adrift i snow' p' /\
    -60 <= p'.1.2.
Proof using unit_draws.
  intros Hi (Hlp & Hlv & Hspeed & Hp & Hy & Hx & Hz). unfold updateSnow.
  destruct (fallFlakes_loop random (snowVelocities snow) (snowPositions snow) k
              snowCount) as (ps & Hrun & Hlp' & _ & Hdone); [lia | lia |].
  rewrite Hrun. cbn [mbind option_bind].
  destruct (Hdone i Hi) as (v & Hv & Hflake).
  destruct (Hspeed i Hi) as (w & Hw & Hfall & Hwx & Hwz).
  rewrite Hv in Hw. injection Hw as <-.
  destruct p as [[x y] z]. cbn [fst snd] in Hy, Hx, Hz.
  pose proof (Hp 0%nat ltac:(lia)) as Hp0. rewrite Nat.add_0_r in Hp0.
  pose proof (Hp 1%nat ltac:(lia)) as Hp1.
  pose proof (Hp 2%nat ltac:(lia)) as Hp2.
  unfold coord in Hp0, Hp1, Hp2. cbn [axisOf fst snd] in Hp0, Hp1, Hp2.
  rewrite (landed_real _ _ _ _ Hv), (get_Some _ _ _ Hp1) in Hflake.
  destruct (Rlt_dec (y + vel_y v) (-60)) as [Hlow | Hhigh].
  - destruct Hflake as (Hx' & Hy' & Hz').
    eexists _, _, (spread (random _), 100, spread (random _)).
    split; [reflexivity|].
    split; [|cbn [fst snd]; lra].
    split; [exact (eq_trans Hlp' Hlp)|]. split; [exact Hlv|].
    split; [exact Hspeed|]. cbn [snowPositions fst snd]. split.
    { intros [|[|[|axis]]] Haxis; try lia; unfold coord;
        cbn [axisOf fst snd]; rewrite ?Nat.add_0_r.
      - exact Hx'.
      - rewrite Hy'. f_equal. cbn [lit real_number]. apply Q2R_whole.
      - exact Hz'. }
    pose proof (spread_range
                  (k + 2 * landings (snowPositions snow) (snowVelocities snow) i))
      as Hsx.
    pose proof (spread_range
                  (k + 2 * landings (snowPositions snow) (snowVelocities snow) i
                   + 1)) as Hsz.
    split; [lra|].
    split; unfold Rabs; destruct (Rcase_abs _); lra.
  - exists {| snowPositions := ps; snowVelocities := snowVelocities snow;
              snowRotationY := add (snowRotationY snow) (lit 0.002) |}.
    eexists _, (x + vel_x v, y + vel_y v, z + vel_z v).
    split; [reflexivity|].
    split; [|cbn [fst snd]; lra].
    split; [exact (eq_trans Hlp' Hlp)|]. split; [exact Hlv|].
    split; [exact Hspeed|]. cbn [snowPositions fst snd]. split.
    { intros axis Haxis. rewrite (Hflake axis Haxis).
      rewrite (get_Some _ _ _ (Hp axis Haxis)).
      destruct axis as [|[|[|axis]]]; try lia; reflexivity. }
    split; [lra|].
    revert Hx Hz. unfold Rabs.
    destruct (Rcase_abs x), (Rcase_abs z), (Rcase_abs (x + vel_x v)),
      (Rcase_abs (z + vel_z v)); intros Hx Hz; split; lra.
Qed.

(** X22. The wind never carries a flake away: in exact arithmetic and
    with draws in [0,1), after any number of frames every flake has
    [x] and [z] within 200 of zero, and within 180 from the first frame
    on (a flake drifts less than 0.05 per frame while it falls at least
    0.1, and is put back inside [-100, 100) when it lands). *)
Theorem snow_drift_is_bounded (k n i : nat) :
  (i < snowCount)%nat ->
  exists snow k' x y z,
    repeatFrames (updateSnow random) n (initSnow random k) = Some (snow, k') /\
    pointAt (snowPositions snow) i = Some (x, y, z) /\
    Rabs x <= 200 /\ Rabs z <= 200 /\
    ((1 <= n)%nat -> Rabs x <= 180 /\ Rabs z <= 180).
Proof using unit_draws.
  intros Hi.
  enough (Hall : exists snow k' p,
             repeatFrames (updateSnow random) n (initSnow random k)
             = Some (snow, k') /\
             adrift i snow p /\ ((1 <= n)%nat -> -60 <= p.1.2)).
  { destruct Hall
      as (snow & k' & [[x y] z] & Hrun & (_ & _ & _ & Hp & Hy & Hx & Hz) & Hlow).
    cbn [fst snd] in *.
    exists snow, k', x, y, z. split; [exact Hrun|].
    split; [apply pointAt_coords; exact Hp|].
    split; [lra|]. split; [lra|].
    intros Hn. specialize (Hlow Hn). split; lra. }
  induction n as [|n IH].
  - destruct (initSnow_adrift k i Hi) as (snow & p & Hinit & Hdrift).
    exists snow, (k + 6 * snowCount)%nat, p. cbn [repeatFrames].
    split; [rewrite Hinit; reflexivity|]. split; [exact Hdrift|]. lia.
  - destruct IH as (snow & k' & p & Hrun & Hdrift & _).
    destruct (updateSnow_adrift i snow k' p Hi Hdrift)
      as (snow' & k'' & p' & Hstep & Hdrift' & Hlow).
    exists snow', k'', p'. cbn [repeatFrames]. rewrite Hrun.
    cbn [mbind option_bind]. split; [exact Hstep|].
    split; [exact Hdrift'|]. intros _. exact Hlow.
Qed.

End ExactDrift.

Lemma snow_drift_is_bounded_witness :
  exists (snow : Snow R) (k' : nat) (x y z : R),
    repeatFrames (updateSnow halves) 2 (initSnow halves 0) = Some (snow, k') /\
    pointAt (snowPositions snow) 500 = Some (x, y, z) /\
    (Rabs x <= 200)%R /\ (Rabs z <= 200)%R /\
    ((1 <= 2)%nat -> (Rabs x <= 180)%R /\ (Rabs z <= 180)%R).
Proof.
  apply (snow_drift_is_bounded halves).
  - intros j. unfold halves. cbn [lit real_number]. unfold Q2R. simpl. lra.
  - unfold snowCount. lia.
Defined.

Section ExactGraph.
Local Open Scope R_scope.

Lemma closePairs_eq (positions : list R) :
  closePairs positions = List.filter (close positions) nodePairs.
Proof. reflexivity. Qed.

(** X23. A frame of the background draws the graph of the nodes as they
    are after the move (exact arithmetic): every node has moved by its
    velocity, the segments in the line buffer join the moved positions
    of the pairs closer than [connectDistance], the count handed to
    [setDrawRange] is the whole number of segment end points, twice the
    number of such pairs, and the group has turned by 0.001. *)
Theorem background_frame_links_moved_nodes (bg : Background R) :
  length (bgNodesPositions bg) = (bgNodeCount * 3)%nat ->
  length (bgNodesVelocities bg) = bgNodeCount ->
  length (bgLinesPositions bg) = (bgNodeCount * bgNodeCount * 3)%nat ->
  exists bg',
    updateBackground bg = Some bg' /\
    (forall i axis, (i < bgNodeCount)%nat -> (axis < 3)%nat ->
       exists p v,
         bgNodesPositions bg !! (i * 3 + axis)%nat = Some p /\
         bgNodesVelocities bg !! i = Some v /\
         bgNodesPositions bg' !! (i * 3 + axis)%nat
         = Some (p + velAxis v axis)) /\
    drawCount bg'
    = Some (2 * INR (length (closePairs (bgNodesPositions bg')))) /\
    (forall n i j axis,
       closePairs (bgNodesPositions bg') !! n = Some (i, j) ->
       (axis < 3)%nat ->
       (i < j < bgNodeCount)%nat /\
       bgLinesPositions bg' !! (6 * n + axis)%nat
       = bgNodesPositions bg' !! (i * 3 + axis)%nat /\
       bgLinesPositions bg' !! (6 * n + 3 + axis)%nat
       = bgNodesPositions bg' !! (j * 3 + axis)%nat) /\
    bgRotationY bg' = bgRotationY bg + 0.001.
Proof.
  intros Hlp Hlv Hll. unfold updateBackground, moveNodes.
  destruct (moveNodes_loop (bgNodesPositions bg) (bgNodesVelocities bg)
              bgNodeCount)
    as (ps & vs & Hrun & Hlp' & Hlv' & Hdone & _); [lia | lia |].
  rewrite Hrun. cbn [mbind option_bind].
  assert (Hsize : (bgNodeCount * bgNodeCount * 3)%nat = (6 * 5000)%nat)
    by reflexivity.
  assert (Hnodes : (bgNodeCount * 3)%nat = 300%nat) by reflexivity.
  rewrite Hsize in Hll. rewrite Hnodes in Hlp. clear Hsize Hnodes.
  rewrite connectLines_pairs.
  destruct (connect_fold ps nodePairs (bgLinesPositions bg) 0)
    as (Hidx & _ & _ & Hin).
  { rewrite nodePairs_length. lia. }
  destruct (foldl _ _ nodePairs) as [linePos lineIndex].
  cbn [fst snd] in Hidx, Hin.
  eexists. split; [reflexivity|].
  cbn [bgNodesPositions bgNodesVelocities bgLinesPositions drawCount
       bgRotationY].
  split; [|split; [|split]].
  - intros i axis Hi Haxis.
    destruct (Hdone i axis Hi Haxis) as (v & v' & Hv & Hp & _).
    destruct (lookup_lt_is_Some_2 (bgNodesPositions bg) (i * 3 + axis))
      as [p Hp0]; [unfold bgNodeCount in Hi; lia|].
    rewrite (get_Some _ _ _ Hp0) in Hp.
    exists p, v. split; [exact Hp0|]. split; [exact Hv|]. exact Hp.
  - f_equal. rewrite Hidx, closePairs_eq, ofNat_real.
    replace (0 + 6 * length (List.filter (close ps) nodePairs))%nat
      with (6 * length (List.filter (close ps) nodePairs))%nat by lia.
    rewrite mult_INR.
    replace (INR 6) with 6 by (simpl; lra).
    cbn [div lit real_number]. rewrite Q2R_whole.
    generalize (INR (length (List.filter (close ps) nodePairs))).
    intros pairs. lra.
  - intros n i j axis Hn Haxis. rewrite closePairs_eq in Hn.
    assert (Hij : (i < j < bgNodeCount)%nat).
    { apply (proj1 (nodePairs_In i j)).
      apply (proj1 (filter_In (close ps) (i, j) nodePairs)).
      apply (proj1 (list_elem_of_In (List.filter (close ps) nodePairs) (i, j))).
      apply (list_elem_of_lookup_2 _ n). exact Hn. }
    split; [exact Hij|].
    destruct (Hin n i j axis Hn Haxis) as [Hi' Hj'].
    cbn [Nat.add] in Hi', Hj'. rewrite Hi', Hj'.
    unfold bgNodeCount in Hij.
    destruct (lookup_lt_is_Some_2 ps (i * 3 + axis)) as [pi Hpi]; [lia|].
    destruct (lookup_lt_is_Some_2 ps (j * 3 + axis)) as [pj Hpj]; [lia|].
    rewrite (get_Some _ _ _ Hpi), (get_Some _ _ _ Hpj), Hpi, Hpj.
    split; reflexivity.
  - cbn [add lit real_number]. unfold Q2R. simpl. lra.
Qed.

End ExactGraph.

Lemma background_frame_links_moved_nodes_witness :
  exists bg' : Background R,
    updateBackground sampleBackground = Some bg' /\
    (forall i axis, (i < bgNodeCount)%nat -> (axis < 3)%nat ->
       exists p v,
         bgNodesPositions (num:=R) sampleBackground !! (i * 3 + axis)%nat
         = Some p /\
         bgNodesVelocities (num:=R) sampleBackground !! i = Some v /\
         bgNodesPositions bg' !! (i * 3 + axis)%nat
         = Some (p + velAxis v axis)%R) /\
    drawCount bg'
    = Some (2 * INR (length (closePairs (bgNodesPositions bg'))))%R /\
    (forall n i j axis,
       closePairs (bgNodesPositions bg') !! n = Some (i, j) ->
       (axis < 3)%nat ->
       (i < j < bgNodeCount)%nat /\
       bgLinesPositions bg' !! (6 * n + axis)%nat
       = bgNodesPositions bg' !! (i * 3 + axis)%nat /\
       bgLinesPositions bg' !! (6 * n + 3 + axis)%nat
       = bgNodesPositions bg' !! (j * 3 + axis)%nat) /\
    bgRotationY bg' = (bgRotationY (num:=R) sampleBackground + 0.001)%R.
Proof.
  apply (background_frame_links_moved_nodes sampleBackground).
  - apply length_replicate.
  - apply length_replicate.
  - apply length_replicate.
Defined.
